(** * addr_gen_wb: the Wishbone block model, its address allocator and emitter

    A shallow embedding of [src/wb_block.py].  Python integers are [Z],
    Python strings are [string], the process-wide dictionary [blocks] and the
    per-block dictionary [templ_dict] are [gmap]s keyed by strings.  Python
    objects that are shared by reference (a block reached through
    [blocks[...]] and through [wb_area.obj]) live in the registry and are
    named by their registry key, so that every reader sees the same block.

    Exceptions are values of [py_error]; a function that may raise returns a
    [result].  The recursive [analyze] carries a fuel argument; enough fuel
    is shown to exist for every registry. *)

From Stdlib Require Import ZArith List String Ascii Lia Sorted Permutation.
From Stdlib Require Import DecimalString HexadecimalString.
From stdpp Require Import base numbers option list list_numbers strings gmap.

Local Open Scope Z_scope.

(* ===================================================================== *)
(** * Part I: Python primitives used by the source                        *)
(* ===================================================================== *)

(** The two characters that cannot be typed inside a literal. *)
Definition nl : string := String (ascii_of_nat 10) EmptyString.
Definition dq : string := String (ascii_of_nat 34) EmptyString.

(** Exceptions the source can raise. *)
Inductive py_error : Type :=
  | Exception (msg : string)
  | KeyError (key : string)
  | AttributeError (attr : string)
  | TypeError (msg : string)
  | IndexError
  | ValueError (msg : string).

Inductive result (A : Type) : Type :=
  | Ok (a : A)
  | Raise (e : py_error).
Arguments Ok {A} a.
Arguments Raise {A} e.

#[global] Instance result_ret : MRet result := fun A a => Ok a.
#[global] Instance result_bind : MBind result := fun A B k r =>
  match r with
  | Ok a => k a
  | Raise e => Raise e
  end.

(** [int.bit_length()]: the number of bits of the absolute value. *)
Definition bit_length (n : Z) : Z :=
  if n =? 0 then 0 else Z.log2 (Z.abs n) + 1.

(** [str(n)] for an integer. *)
Definition py_str (n : Z) : string :=
  DecimalString.NilZero.string_of_int (Z.to_int n).

(** [hex(n)]: sign, [0x], lower-case digits. *)
Definition py_hex (n : Z) : string :=
  (if n <? 0 then "-" else "") +:+ "0x" +:+
  HexadecimalString.NilZero.string_of_uint (N.to_hex_uint (Z.to_N (Z.abs n))).

(** Binary digits of a positive number, most significant first. *)
Fixpoint pos_bin (p : positive) (acc : string) : string :=
  match p with
  | xH => String "1" acc
  | xO p' => pos_bin p' (String "0" acc)
  | xI p' => pos_bin p' (String "1" acc)
  end.

Definition bin_digits (n : Z) : string :=
  match n with
  | Z0 => "0"
  | Zpos p => pos_bin p ""
  | Zneg p => pos_bin p ""
  end.

(** [n * s] for a string [s]: empty when [n <= 0]. *)
Definition py_repeat (n : Z) (s : string) : string :=
  String.concat "" (replicate (Z.to_nat n) s).

(** [format(n, "032b")]: binary digits, zero-padded after the sign to a total
    width of 32 characters. *)
Definition py_format_032b (n : Z) : string :=
  let sign := if n <? 0 then "-" else "" in
  let digits := bin_digits n in
  sign +:+
  py_repeat (32 - Z.of_nat (String.length sign) - Z.of_nat (String.length digits)) "0" +:+
  digits.

(** Reading a binary numeral back, used to state what a decode key denotes. *)
Fixpoint bin_value_aux (s : string) (acc : Z) : option Z :=
  match s with
  | EmptyString => Some acc
  | String c s' =>
      if Ascii.eqb c "0" then bin_value_aux s' (2 * acc)
      else if Ascii.eqb c "1" then bin_value_aux s' (2 * acc + 1)
      else None
  end.

Definition bin_value (s : string) : option Z := bin_value_aux s 0.

(** [list.sort(key=..., reverse=True)]: Python's sort is stable, and with
    [reverse=True] elements with equal keys still keep their original order.
    Insertion from the right gives exactly that list. *)
Section StableSort.
Context {A : Type} (key : A -> Z).

Fixpoint insert_desc (x : A) (l : list A) : list A :=
  match l with
  | [] => [x]
  | y :: l' => if key x <? key y then y :: insert_desc x l' else x :: y :: l'
  end.

Fixpoint sort_desc (l : list A) : list A :=
  match l with
  | [] => []
  | x :: l' => insert_desc x (sort_desc l')
  end.
End StableSort.

(** [re.findall(r'.*\n?', value)]: every line with its line break, the text
    after the last line break when there is some, and the empty match at the
    end of the string. *)
Fixpoint re_findall_lines (cur value : string) : list string :=
  match value with
  | EmptyString => (if String.eqb cur "" then [] else [cur]) ++ [""%string]
  | String c rest =>
      if Ascii.eqb c (ascii_of_nat 10)
      then (cur +:+ nl) :: re_findall_lines "" rest
      else re_findall_lines (cur +:+ String c "") rest
  end.

(** [str.format] with keyword arguments taken from [d], for a template whose only braces are plain
    [{key}] fields, as in [templ_wb] and [templ_pkg]. *)
Fixpoint py_format_aux (t : string) (field : option string)
    (d : gmap string string) : result string :=
  match t with
  | EmptyString =>
      match field with
      | None => Ok ""%string
      | Some _ => Raise (ValueError "expected '}' before end of string")
      end
  | String c t' =>
      match field with
      | None =>
          if Ascii.eqb c "{" then py_format_aux t' (Some ""%string) d
          else if Ascii.eqb c "}"
          then Raise (ValueError "Single '}' encountered in format string")
          else s ← py_format_aux t' None d; Ok (String c s)
      | Some k =>
          if Ascii.eqb c "}"
          then match d !! k with
               | Some v => s ← py_format_aux t' None d; Ok (v +:+ s)
               | None => Raise (KeyError k)
               end
          else py_format_aux t' (Some (k +:+ String c "")) d
      end
  end.

Definition py_format (t : string) (d : gmap string string) : result string :=
  py_format_aux t None d.

(* ===================================================================== *)
(** * Part II: the XML description handed to the constructors            *)
(* ===================================================================== *)

(** The element tree as the constructors read it.  Integer attributes hold
    the value [int(...)] parsed; an optional attribute is [None] when the
    element does not carry it. *)
Record xml_field : Type := {
  xf_name : string;          (* fl.attrib['name'] *)
  xf_width : Z;              (* int(fl.attrib['width']) *)
  xf_type : option string    (* fl.get('type', ...) *)
}.

Record xml_reg : Type := {
  xr_name : string;            (* el.attrib['name'] *)
  xr_reps : option Z;          (* el.get('reps', 1) *)
  xr_type : option string;     (* el.get('type', ...) *)
  xr_ack : option Z;           (* el.get('ack', 0) *)
  xr_stb : option Z;           (* el.get('stb', 0) *)
  xr_fields : list xml_field   (* el.findall('field') *)
}.

Record xml_subblock : Type := {
  xs_type : string;           (* sblk.attrib['type'] *)
  xs_name : option string;    (* sblk.get('name') *)
  xs_reps : option Z          (* sblk.get('reps', 1) *)
}.

(** A child of a block element, by its tag. *)
Inductive xml_child : Type :=
  | El_creg (el : xml_reg)
  | El_sreg (el : xml_reg)
  | El_subblock (el : xml_subblock)
  | El_other (tag : string).

Record xml_block : Type := {
  xb_name : string;               (* el.attrib['name'] *)
  xb_children : list xml_child    (* every child element *)
}.

(* ===================================================================== *)
(** * Part III: the classes                                              *)
(* ===================================================================== *)

Module wb_field.
Record t : Type := mk {
  name : string;
  lsb : Z;
  size : Z;
  msb : Z;
  type : string
}.
End wb_field.

Module wb_reg.
Record t : Type := mk {
  regtype : string;
  type : string;
  base : Z;
  size : Z;
  name : string;
  ack : Z;
  stb : Z;
  fields : list wb_field.t;
  free_bit : Z
}.
End wb_reg.

Module wb_area.
(** [adr_bits] is first assigned by [analyze], [first_port] and
    [last_port] by [gen_vhdl]; before that the attribute does not exist. *)
Record t : Type := mk {
  name : option string;
  size : Z;
  obj : option string;      (* registry key of the referenced block *)
  adr : Z;
  mask : Z;
  total_size : Z;
  reps : Z;
  adr_bits : option Z;
  first_port : option Z;
  last_port : option Z
}.
End wb_area.

Module wb_block.
(** [reg_base], [addr_size] and [adr_bits] are first assigned by
    [analyze]. *)
Record t : Type := mk {
  templ_dict : gmap string string;
  name : string;
  areas : list wb_area.t;
  regs : list wb_reg.t;
  free_reg_addr : Z;
  subblks : list xml_subblock;
  reg_base : option Z;
  addr_size : option Z;
  adr_bits : option Z
}.
End wb_block.

(** ** wb_field.__init__ *)
Definition wb_field_init (fl : xml_field) (lsb : Z) : wb_field.t :=
  {| wb_field.name := xf_name fl;
     wb_field.lsb := lsb;
     wb_field.size := xf_width fl;
     wb_field.msb := lsb + xf_width fl - 1;
     wb_field.type := default "std_logic_vector"%string (xf_type fl) |}.

(** ** wb_reg.__init__ *)

(** The loop over [el.findall('field')], with [self.fields] and
    [self.free_bit] as accumulators. *)
Fixpoint wb_reg_read_fields (name : string) (fls : list xml_field)
    (fields : list wb_field.t) (free_bit : Z) : result (list wb_field.t * Z) :=
  match fls with
  | [] => Ok (fields, free_bit)
  | fl :: rest =>
      let fdef := wb_field_init fl free_bit in
      let free_bit := free_bit + wb_field.size fdef in
      if 32 <? free_bit
      then Raise (Exception ("Total width of fields in register " +:+ name +:+
                             " is above 32-bits"))
      else wb_reg_read_fields name rest (fields ++ [fdef]) free_bit
  end.

Definition wb_reg_init (tag : string) (el : xml_reg) (adr : Z) : result wb_reg.t :=
  let nregs := default 1 (xr_reps el) in
  '(fields, free_bit) ← wb_reg_read_fields (xr_name el) (xr_fields el) [] 0;
  Ok {| wb_reg.regtype := tag;
        wb_reg.type := default "std_logic_vector"%string (xr_type el);
        wb_reg.base := adr;
        wb_reg.size := nregs;
        wb_reg.name := xr_name el;
        wb_reg.ack := default 0 (xr_ack el);
        wb_reg.stb := default 0 (xr_stb el);
        wb_reg.fields := fields;
        wb_reg.free_bit := free_bit |}.

(** ** wb_area.__init__ *)
Definition wb_area_init (size : Z) (name : option string) (obj : option string)
    (reps : Z) : wb_area.t :=
  {| wb_area.name := name;
     wb_area.size := size;
     wb_area.obj := obj;
     wb_area.adr := 0;
     wb_area.mask := 0;
     wb_area.total_size := 0;
     wb_area.reps := reps;
     wb_area.adr_bits := None;
     wb_area.first_port := None;
     wb_area.last_port := None |}.

Definition sort_key (self : wb_area.t) : Z := wb_area.size self.

(** ** wb_block.__init__ *)

(** The loop over the children, with [self.regs], [self.free_reg_addr] and
    [self.subblks] as accumulators.  The [else] branch evaluates [el.name],
    which an element does not have. *)
Fixpoint wb_block_read_children (children : list xml_child)
    (regs : list wb_reg.t) (free_reg_addr : Z) (subblks : list xml_subblock)
    : result (list wb_reg.t * Z * list xml_subblock) :=
  match children with
  | [] => Ok (regs, free_reg_addr, subblks)
  | El_creg child :: rest =>
      reg ← wb_reg_init "creg" child free_reg_addr;
      wb_block_read_children rest (regs ++ [reg])
        (free_reg_addr + wb_reg.size reg) subblks
  | El_sreg child :: rest =>
      reg ← wb_reg_init "sreg" child free_reg_addr;
      wb_block_read_children rest (regs ++ [reg])
        (free_reg_addr + wb_reg.size reg) subblks
  | El_subblock child :: rest =>
      wb_block_read_children rest regs free_reg_addr (subblks ++ [child])
  | El_other _ :: _ => Raise (AttributeError "name")
  end.

Definition wb_block_init (el : xml_block) : result wb_block.t :=
  '(regs, free_reg_addr, subblks) ← wb_block_read_children (xb_children el) [] 2 [];
  Ok {| wb_block.templ_dict := ∅;
        wb_block.name := xb_name el;
        wb_block.areas := [];
        wb_block.regs := regs;
        wb_block.free_reg_addr := free_reg_addr;
        wb_block.subblks := subblks;
        wb_block.reg_base := None;
        wb_block.addr_size := None;
        wb_block.adr_bits := None |}.

(* ===================================================================== *)
(** * Part IV: the allocator, [wb_block.analyze]                         *)
(* ===================================================================== *)

(** One call of [print] in [analyze], with the values it prints. *)
Inductive print_event : Type :=
  | Print_reps (reps : Z)
  | Print_added_size (total_size : Z)
  | Print_analyze (name : string) (addr_size : Z).

(** The mutable world of a run: the module-level dictionary [blocks] with
    the block objects it holds, and what was printed so far. *)
Record world : Type := World {
  blocks : gmap string wb_block.t;
  stdout : list print_event
}.

(** Running out of fuel is kept apart from the exceptions of the source. *)
Inductive outcome (A : Type) : Type :=
  | Done (a : A)
  | Raised (e : py_error)
  | OutOfFuel.
Arguments Done {A} a.
Arguments Raised {A} e.
Arguments OutOfFuel {A}.

(** Attribute assignments on a block object. *)
Definition set_areas (self : wb_block.t) (areas : list wb_area.t) : wb_block.t :=
  {| wb_block.templ_dict := wb_block.templ_dict self;
     wb_block.name := wb_block.name self;
     wb_block.areas := areas;
     wb_block.regs := wb_block.regs self;
     wb_block.free_reg_addr := wb_block.free_reg_addr self;
     wb_block.subblks := wb_block.subblks self;
     wb_block.reg_base := wb_block.reg_base self;
     wb_block.addr_size := wb_block.addr_size self;
     wb_block.adr_bits := wb_block.adr_bits self |}.

Definition set_templ_dict (self : wb_block.t) (d : gmap string string) : wb_block.t :=
  {| wb_block.templ_dict := d;
     wb_block.name := wb_block.name self;
     wb_block.areas := wb_block.areas self;
     wb_block.regs := wb_block.regs self;
     wb_block.free_reg_addr := wb_block.free_reg_addr self;
     wb_block.subblks := wb_block.subblks self;
     wb_block.reg_base := wb_block.reg_base self;
     wb_block.addr_size := wb_block.addr_size self;
     wb_block.adr_bits := wb_block.adr_bits self |}.

Definition set_layout (self : wb_block.t) (areas : list wb_area.t)
    (reg_base : option Z) (addr_size adr_bits : Z) : wb_block.t :=
  {| wb_block.templ_dict := wb_block.templ_dict self;
     wb_block.name := wb_block.name self;
     wb_block.areas := areas;
     wb_block.regs := wb_block.regs self;
     wb_block.free_reg_addr := wb_block.free_reg_addr self;
     wb_block.subblks := wb_block.subblks self;
     wb_block.reg_base := reg_base;
     wb_block.addr_size := Some addr_size;
     wb_block.adr_bits := Some adr_bits |}.

(** [ar.adr = ...; ar.adr_bits = ...; ar.total_size = ...] *)
Definition place_area (ar : wb_area.t) (cur_base : Z) : wb_area.t :=
  let adr_bits := bit_length (wb_area.size ar - 1) in
  {| wb_area.name := wb_area.name ar;
     wb_area.size := wb_area.size ar;
     wb_area.obj := wb_area.obj ar;
     wb_area.adr := cur_base;
     wb_area.mask := wb_area.mask ar;
     wb_area.total_size := Z.shiftl 1 adr_bits;
     wb_area.reps := wb_area.reps ar;
     wb_area.adr_bits := Some adr_bits;
     wb_area.first_port := wb_area.first_port ar;
     wb_area.last_port := wb_area.last_port ar |}.

(** The store: writing a block object back, and printing. *)
Definition store (key : string) (b : wb_block.t) (st : world) : world :=
  World (<[key := b]> (blocks st)) (stdout st).

Definition print (evs : list print_event) (st : world) : world :=
  World (blocks st) (stdout st ++ evs).

(** The placement loop [for ar in self.areas] over the sorted list, with
    [cur_base] and [self.reg_base] as accumulators; it returns the placed
    areas, the final cursor, the register base and what it printed. *)
Fixpoint place_areas (areas : list wb_area.t) (cur_base : Z) (reg_base : option Z)
    : list wb_area.t * Z * option Z * list print_event :=
  match areas with
  | [] => ([], cur_base, reg_base, [])
  | ar :: rest =>
      let reg_base := match wb_area.obj ar with
                      | None => Some cur_base
                      | Some _ => reg_base
                      end in
      let ar' := place_area ar cur_base in
      let '(rest', cur, rb, out) :=
        place_areas rest (cur_base + wb_area.total_size ar') reg_base in
      (ar' :: rest', cur, rb, Print_added_size (wb_area.total_size ar') :: out)
  end.

(** The second half of [analyze]: sort, place, round the block's span. *)
Definition layout (self : wb_block.t) : wb_block.t * list print_event :=
  let '(areas, cur_base, reg_base, out) :=
    place_areas (sort_desc sort_key (wb_block.areas self)) 0 (wb_block.reg_base self) in
  let adr_bits := bit_length (cur_base - 1) in
  let addr_size := Z.shiftl 1 adr_bits in
  (set_layout self areas reg_base addr_size adr_bits,
   out ++ [Print_analyze (wb_block.name self) addr_size]).

(** The loop [for sblk in self.subblks].  [rec] is the recursive call
    [bl.analyze()]; [key] names [self].  Every object is read from the store
    when it is used, since the recursive call may have changed it. *)
Fixpoint scan_subblks (rec : string -> world -> outcome world) (key : string)
    (sblks : list xml_subblock) (st : world) : outcome world :=
  match sblks with
  | [] => Done st
  | sblk :: rest =>
      match blocks st !! xs_type sblk with
      | None => Raised (KeyError (xs_type sblk))
      | Some bl =>
          match (if decide (length (wb_block.areas bl) = 0%nat)
                 then rec (xs_type sblk) st else Done st) with
          | Done st =>
              let reps := default 1 (xs_reps sblk) in
              let st := print [Print_reps reps] st in
              match blocks st !! xs_type sblk with
              | None => Raised (KeyError (xs_type sblk))
              | Some bl =>
                  match wb_block.addr_size bl with
                  | None => Raised (AttributeError "addr_size")
                  | Some bl_addr_size =>
                      let addr_size := bl_addr_size * reps in
                      match blocks st !! key with
                      | None => Raised (KeyError key)
                      | Some self =>
                          let ar := wb_area_init addr_size (xs_name sblk)
                                      (Some (xs_type sblk)) reps in
                          scan_subblks rec key rest
                            (store key (set_areas self (wb_block.areas self ++ [ar])) st)
                      end
                  end
              end
          | Raised e => Raised e
          | OutOfFuel => OutOfFuel
          end
      end
  end.

(** [wb_block.analyze], called on the block stored under [key]. *)
Fixpoint analyze (fuel : nat) (key : string) (st : world) : outcome world :=
  match fuel with
  | O => OutOfFuel
  | S fuel' =>
      match blocks st !! key with
      | None => Raised (KeyError key)
      | Some self =>
          let int_regs := wb_area_init (wb_block.free_reg_addr self)
                            (Some "int_regs"%string) None 1 in
          let st := store key (set_areas self (wb_block.areas self ++ [int_regs])) st in
          match scan_subblks (analyze fuel') key (wb_block.subblks self) st with
          | Done st =>
              match blocks st !! key with
              | None => Raised (KeyError key)
              | Some self =>
                  let '(self', out) := layout self in
                  Done (print out (store key self' st))
              end
          | Raised e => Raised e
          | OutOfFuel => OutOfFuel
          end
      end
  end.

(* ===================================================================== *)
(** * Part V: the emitter, [add_templ] and [gen_vhdl]                     *)
(* ===================================================================== *)

(** Template for generation of the VHDL package; the lines are joined by line breaks, the last one ends the file. *)
Definition templ_pkg : string := String.concat nl [
  "library ieee;";
  "";
  "use ieee.std_logic_1164.all;";
  "use ieee.numeric_std.all;";
  "";
  "library work;";
  "use work.wishbone_pkg.all;";
  "";
  "package {p_entity}_pkg is";
  "{p_package}";
  "end {p_entity}_pkg";
  "";
  "package_body {p_entity}_pkg is";
  "{p_package_body}";
  "end {p_entity}_pkg";
  ""
]%string.

(** Template for generation of the VHDL code; the lines are joined by line breaks, the last one ends the file. *)
Definition templ_wb : string := String.concat nl [
  "--- This code is automatically generated by the addrgen_wb.py tool";
  "--- Please don't edit it manaully, unless you really have to do it.";
  "";
  "library ieee;";
  "use ieee.std_logic_1164.all;";
  "use ieee.numeric_std.all;";
  "library work;";
  "use work.wishbone_pkg.all;";
  "use work.{p_entity}_pkg.all";
  "";
  "entity {p_entity} is";
  "  generic (";
  "    base_addr : unsigned(31 downto 0);";
  "    valid_bits : integer := {valid_bits};";
  "  );";
  "  port (";
  "    rst_n_i : in std_logic;";
  "    clk_sys_i : in std_logic";
  "    slave_i : t_wishbone_slave_in;";
  "    slave_o : t_wishbone_slave_out;";
  "{subblk_busses}";
  "{signal_ports}";
  "    );";
  "";
  "end wb_test_top;";
  "";
  "architecture gener of {p_entity} is";
  "{signal_decls}";
  "  -- Internal WB declaration";
  "  signal int_regs_wb_s_o : t_wishbone_slave_out;";
  "  signal int_regs_wb_s_i : t_wishbone_slave_in;";
  "  signal int_addr : std_logic_vector({valid_bits}-1 downto 0);";
  "  signal wb_s_out : t_wishbone_slave_out_array(0 to {nof_subblks});";
  "  signal wb_s_in : t_wishbone_slave_in_array(0 to {nof_subblks});";
  "";
  "  -- Constants";
  "  constant block_id_addr : std_logic_vector({valid_bits}-1 downto 0) := (others => '0');";
  "  constant block_ver_addr : std_logic_vector({valid_bits}-1 downto 0) := (0=>'1', 'others => '0');";
  "";
  "begin";
  "  int_addr <= int_regs_wb_s_i.adr({valid_bits}-1 downto 0);";
  "";
  "-- Main crossbar ";
  "  xwb_crossbar_1: entity work.xwb_crossbar";
  "  generic map (";
  "     g_num_masters => 1,";
  "     g_num_slaves  => 1+nof_subblks,";
  "     g_registered  => {p_registered},";
  "     g_address     => {p_addresses},";
  "     g_mask        => {p_masks})";
  "  port map (";
  "     clk_sys_i => clk_sys_i,";
  "     rst_n_i   => rst_n_i,";
  "     slave_i   => slave_i,";
  "     slave_o   => slave_o,";
  "     master_i  => wb_s_out,";
  "     master_o  => wb_s_in,";
  "    sdb_sel_o => open);";
  "";
  "-- Process for register access";
  "  process(clk_sys_i)";
  "  begin";
  "    if rising_edge(clk_sys_i) then";
  "      if rst_n_i = '0' then";
  "        -- Reset of the core";
  "      else";
  "        -- Normal operation";
  "        if (int_regs_wb_s_i.cyc = '1') and (int_regs_wb_s_i.stb = '1') then";
  "          -- Access, now we handle consecutive registers";
  "          case int_addr is";
  "{register_access}";
  "          when block_id_addr =>";
  "             int_regs_wb_s_o.dat <= {block_id};";
  "             int_regs__wb_s_o.ack <= '1';";
  "          when block_ver_addr =>";
  "             int_regs_wb_s_o.dat <= {block_ver};";
  "             int_regs_wb_s_o.ack <= '1';";
  "          when others =>";
  "             int_regs_wb_s_o.dat <= x" +:+ dq +:+ "A5A5A5A5" +:+ dq +:+ ";";
  "             int_regs_wb_s_o.ack <= '1';";
  "          end case;";
  "        end if;";
  "      end if;";
  "    end if;";
  "  end process;";
  "{cont_assigns}";
  "end architecture;";
  ""
]%string.

(** ** wb_block.add_templ *)

(** [re.findall(r'.*\n?', value)[:-1]] *)
Definition templ_lines (value : string) : list string :=
  removelast (re_findall_lines "" value).

(** One round of the loop of [add_templ]:
    [self.templ_dict[templ_key] += indent*" " + ln] when [ln] is not empty. *)
Definition add_line (templ_key : string) (indent : Z)
    (d : gmap string string) (ln : string) : gmap string string :=
  if String.eqb ln "" then d
  else <[templ_key := default ""%string (d !! templ_key) +:+ (py_repeat indent " " +:+ ln)]> d.

Definition add_templ (self : wb_block.t) (templ_key value : string) (indent : Z)
    : wb_block.t :=
  let d := wb_block.templ_dict self in
  let d := match d !! templ_key with
           | None => <[templ_key := ""%string]> d
           | Some _ => d
           end in
  set_templ_dict self (foldl (add_line templ_key indent) d (templ_lines value)).

(** ** wb_reg.gen_vhdl *)

(** The three lines written per field. *)
Definition record_member (fl : wb_field.t) : string :=
  "  " +:+ wb_field.name fl +:+ ":" +:+ wb_field.type fl +:+ "(" +:+
  py_str (wb_field.size fl - 1) +:+ " downto 0);" +:+ nl.

Definition unpack_stmt (fl : wb_field.t) : string :=
  "  res." +:+ wb_field.name fl +:+ " := " +:+ wb_field.type fl +:+ "(x(" +:+
  py_str (wb_field.msb fl) +:+ " downto " +:+ py_str (wb_field.lsb fl) +:+ "));" +:+ nl.

Definition pack_stmt (fl : wb_field.t) : string :=
  "  res(" +:+ py_str (wb_field.msb fl) +:+ " downto " +:+ py_str (wb_field.lsb fl) +:+
  ") := std_logic_vector(x." +:+ wb_field.name fl +:+ "));" +:+ nl.

(** The type declarations [dt] and the function bodies [dtb]. *)
Definition wb_reg_package (self : wb_reg.t) : string * string :=
  let dt := ""%string in
  let dtb := ""%string in
  let tname := "t_" +:+ wb_reg.name self in
  let '(dt, dtb) :=
    if decide (length (wb_reg.fields self) = 0%nat) then
      (dt +:+ ("subtype " +:+ tname +:+ " is " +:+ wb_reg.type self +:+
               "(31 downto 0);" +:+ nl), dtb)
    else
      let dt := dt +:+ ("type " +:+ tname +:+ " is record" +:+ nl) in
      let dt := foldl (fun dt fl => dt +:+ record_member fl) dt (wb_reg.fields self) in
      let dt := dt +:+ ("end record;" +:+ nl +:+ nl) in
      let dt := dt +:+ ("function stlv2" +:+ tname +:+
                        "(x : std_logic_vector) return " +:+ tname +:+ ";" +:+ nl) in
      let dtb := dtb +:+ ("function stlv2" +:+ tname +:+
                          "(x : std_logic_vector) return " +:+ tname +:+ " is" +:+ nl) in
      let dtb := dtb +:+ ("variable res : " +:+ tname +:+ ";" +:+ nl) in
      let dtb := dtb +:+ ("begin" +:+ nl) in
      let dtb := foldl (fun dtb fl => dtb +:+ unpack_stmt fl) dtb (wb_reg.fields self) in
      let dtb := dtb +:+ ("  return res;" +:+ nl) in
      let dtb := dtb +:+ ("end stlv2" +:+ tname +:+ ";" +:+ nl +:+ nl) in
      let dt := dt +:+ ("function " +:+ tname +:+ "2stlv(x : " +:+ tname +:+
                        ") return std_logic_vector;" +:+ nl) in
      let dtb := dtb +:+ ("function " +:+ tname +:+ "2stlv(x : " +:+ tname +:+
                          ") return std_logic_vector is" +:+ nl) in
      let dtb := dtb +:+ ("variable res : std_logic_vector;" +:+ nl) in
      let dtb := dtb +:+ ("begin" +:+ nl) in
      let dtb := dtb +:+ ("  res := (others => '0');" +:+ nl) in
      let dtb := foldl (fun dtb fl => dtb +:+ pack_stmt fl) dtb (wb_reg.fields self) in
      let dtb := dtb +:+ ("  return res;" +:+ nl) in
      let dtb := dtb +:+ ("end " +:+ tname +:+ "2stlv;" +:+ nl +:+ nl) in
      (dt, dtb) in
  let dt :=
    if 1 <? wb_reg.size self
    then dt +:+ ("type " +:+ tname +:+ "_array is array(0 to " +:+
                 py_str (wb_reg.size self - 1) +:+ ") of " +:+ tname +:+ ";" +:+ nl)
    else dt in
  (dt, dtb).

(** The entity port of the register. *)
Definition wb_reg_port (self : wb_reg.t) : string :=
  let tname := "t_" +:+ wb_reg.name self in
  let '(sfx, sdir) :=
    if String.eqb (wb_reg.regtype self) "creg"
    then ("_o", "out ")%string else ("_i", "in ")%string in
  if wb_reg.size self =? 1
  then wb_reg.name self +:+ sfx +:+ " : " +:+ sdir +:+ " " +:+ tname +:+ ";" +:+ nl
  else wb_reg.name self +:+ sfx +:+ " : " +:+ sdir +:+ " " +:+ tname +:+ "_array;" +:+ nl.

(** The text [dt] of one round of the loop [for i in range(0,self.size)]:
    the case arm of element [i]. *)
Definition case_arm (self : wb_reg.t) (i : Z) : string :=
  let ind := if 1 <? wb_reg.size self then "(" +:+ py_str i +:+ ")" else ""%string in
  let dt := "when " +:+ dq +:+ py_format_032b (wb_reg.base self + i) +:+ dq +:+
            " => -- " +:+ py_hex (wb_reg.base self + i) +:+ nl in
  let '(conv_fun, iconv_fun) :=
    if decide (length (wb_reg.fields self) = 0%nat)
    then ("std_logic_vector"%string, wb_reg.type self)
    else ("t_" +:+ wb_reg.name self +:+ "2stlv", "stlv2t_" +:+ wb_reg.name self) in
  let dt :=
    if String.eqb (wb_reg.regtype self) "sreg"
    then dt +:+ ("   int_regs_wb_s_o.dat <= " +:+ conv_fun +:+ "(" +:+
                 wb_reg.name self +:+ "_i" +:+ ind +:+ ");" +:+ nl)
    else dt +:+ ("   int_regs_wb_s_o.dat <= " +:+ conv_fun +:+ "(int_" +:+
                 wb_reg.name self +:+ "_o" +:+ ind +:+ ");" +:+ nl) in
  if String.eqb (wb_reg.regtype self) "creg"
  then
    let dt := dt +:+ ("   if int_regs_wb_s_i.we = '1' then" +:+ nl) in
    let dt := dt +:+ ("     int_" +:+ wb_reg.name self +:+ "_o" +:+ ind +:+ ") <= " +:+
                      iconv_fun +:+ "(int_regs_wb_s_i.dat);" +:+ nl) in
    dt +:+ ("   end if;" +:+ nl)
  else dt.

Definition wb_reg_gen_vhdl (self : wb_reg.t) (parent : wb_block.t) : wb_block.t :=
  let '(dt, dtb) := wb_reg_package self in
  let parent := add_templ parent "p_package" dt 0 in
  let parent := add_templ parent "p_package_body" dtb 0 in
  let parent := add_templ parent "signal_ports" (wb_reg_port self) 4 in
  foldl (fun parent i => add_templ parent "register_access" (case_arm self i) 10)
        parent (seqZ 0 (wb_reg.size self)).

(** ** wb_block.gen_vhdl *)

(** [ar.name] on the right of a string, as in ["..." + ar.name]:
    concatenating [None] to a string fails. *)
Definition area_name (ar : wb_area.t) : result string :=
  match wb_area.name ar with
  | Some n => Ok n
  | None => Raise (TypeError ("can only concatenate str (not " +:+ dq +:+ "NoneType" +:+
                              dq +:+ ") to str"))
  end.

(** [ar.name] on the left, as in [ar.name + "..."]: [None] has no [+]. *)
Definition area_name_left (ar : wb_area.t) : result string :=
  match wb_area.name ar with
  | Some n => Ok n
  | None => Raise (TypeError "unsupported operand type(s) for +: 'NoneType' and 'str'")
  end.

(** [ar.adr_bits], an attribute set by [analyze]. *)
Definition area_adr_bits (ar : wb_area.t) : result Z :=
  match wb_area.adr_bits ar with
  | Some n => Ok n
  | None => Raise (AttributeError "adr_bits")
  end.

(** [ar.obj.addr_size] and [ar.obj.adr_bits]: the block behind [ar.obj] is
    read from the registry, where [analyze] left it. *)
Definition area_obj (blocks : gmap string wb_block.t) (ar : wb_area.t)
    : result wb_block.t :=
  match wb_area.obj ar with
  | None => Raise (AttributeError "addr_size")
  | Some key =>
      match blocks !! key with
      | None => Raise (AttributeError "addr_size")
      | Some bl => Ok bl
      end
  end.

Definition obj_addr_size (bl : wb_block.t) : result Z :=
  match wb_block.addr_size bl with
  | Some n => Ok n
  | None => Raise (AttributeError "addr_size")
  end.

Definition obj_adr_bits (bl : wb_block.t) : result Z :=
  match wb_block.adr_bits bl with
  | Some n => Ok n
  | None => Raise (AttributeError "adr_bits")
  end.

Definition set_ports (ar : wb_area.t) (first_port last_port : Z) : wb_area.t :=
  {| wb_area.name := wb_area.name ar;
     wb_area.size := wb_area.size ar;
     wb_area.obj := wb_area.obj ar;
     wb_area.adr := wb_area.adr ar;
     wb_area.mask := wb_area.mask ar;
     wb_area.total_size := wb_area.total_size ar;
     wb_area.reps := wb_area.reps ar;
     wb_area.adr_bits := wb_area.adr_bits ar;
     wb_area.first_port := Some first_port;
     wb_area.last_port := Some last_port |}.

(** What the loop over the areas carries along: the block that owns
    [templ_dict], the port counter and the two lists. *)
Record ports : Type := Ports {
  p_self : wb_block.t;
  n_ports : Z;
  ar_addresses : list Z;
  ar_adr_bits : list Z
}.

(** The inner loop [for i in range(0,ar.reps)] of a vector of sub-blocks,
    with [base] and [nport] as further accumulators.  The first assignment
    to [dt] in the source is overwritten by the second. *)
Fixpoint connect_instances (blocks : gmap string wb_block.t) (ar : wb_area.t)
    (indices : list Z) (base nport : Z) (p : ports) : result ports :=
  match indices with
  | [] => Ok p
  | i :: rest =>
      let addresses := ar_addresses p ++ [base] in
      bl ← area_obj blocks ar;
      step ← obj_addr_size bl;
      let base := base + step in
      bits ← obj_adr_bits bl;
      let adr_bits := ar_adr_bits p ++ [bits] in
      name ← area_name ar;
      let dt := name +:+ "_wb_s_i(" +:+ py_str i +:+ ")  <= " +:+ "wb_s_o(" +:+
                py_str nport +:+ ");" +:+ nl in
      let self := add_templ (p_self p) "cont_assigns" dt 4 in
      connect_instances blocks ar rest base (nport + 1)
        (Ports self (n_ports p) addresses adr_bits)
  end.

(** One round of the loop [for ar in self.areas]; it returns the area with
    its port slots assigned. *)
Definition connect_area (blocks : gmap string wb_block.t) (ar : wb_area.t)
    (p : ports) : result (wb_area.t * ports) :=
  if wb_area.reps ar =? 1 then
    let ar := set_ports ar (n_ports p) (n_ports p) in
    let n := n_ports p + 1 in
    let addresses := ar_addresses p ++ [wb_area.adr ar] in
    bits ← area_adr_bits ar;
    let adr_bits := ar_adr_bits p ++ [bits] in
    self ← match wb_area.obj ar with
           | Some _ =>
               name ← area_name_left ar;
               let dt := name +:+ "_wb_s_o : out t_wishbone_slave_out;" +:+ nl in
               let dt := dt +:+ (name +:+ "_wb_s_i : in t_wishbone_slave_in;" +:+ nl) in
               Ok (add_templ (p_self p) "subblk_busses" dt 4)
           | None => Ok (p_self p)
           end;
    name ← area_name ar;
    let dt := "wb_s_o(" +:+ py_str (n_ports p) +:+ ") <= " +:+ name +:+ "_wb_s_i;" +:+ nl in
    let dt := dt +:+ (name +:+ "_wb_s_i  <= " +:+ "wb_s_o(" +:+ py_str (n_ports p) +:+
                      ");" +:+ nl) in
    let self := add_templ self "cont_assigns" dt 4 in
    Ok (ar, Ports self n addresses adr_bits)
  else
    let first := n_ports p in
    let last := n_ports p + wb_area.reps ar - 1 in
    let ar := set_ports ar first last in
    let n := n_ports p + wb_area.reps ar in
    name ← area_name_left ar;
    let dt := name +:+ "_wb_s_o : out t_wishbone_slave_out_array(" +:+ py_str first +:+
              " to " +:+ py_str last +:+ ");" +:+ nl in
    let dt := dt +:+ (name +:+ "_wb_s_i : in t_wishbone_slave_in_array(" +:+
                      py_str first +:+ " to " +:+ py_str last +:+ ");" +:+ nl) in
    let self := add_templ (p_self p) "subblk_busses" dt 4 in
    p' ← connect_instances blocks ar (seqZ 0 (wb_area.reps ar)) (wb_area.adr ar) first
           (Ports self n (ar_addresses p) (ar_adr_bits p));
    Ok (ar, p').

Fixpoint connect_areas (blocks : gmap string wb_block.t) (areas : list wb_area.t)
    (p : ports) : result (list wb_area.t * ports) :=
  match areas with
  | [] => Ok ([], p)
  | ar :: rest =>
      '(ar', p) ← connect_area blocks ar p;
      '(rest', p) ← connect_areas blocks rest p;
      Ok (ar' :: rest', p)
  end.

(** The loop [for i in range(0,n_ports)] that writes the two vectors;
    [ar_addresses[i]] and [ar_adr_bits[i]] fail beyond the end of the list.
    The stored [adr_bits] are results of [bit_length], never negative. *)
Fixpoint port_vectors (indices : list Z) (addresses bits : list Z)
    (adrs masks : string) : result (string * string) :=
  match indices with
  | [] => Ok (adrs, masks)
  | i :: rest =>
      let adrs := if 0 <? i then adrs +:+ "," else adrs in
      let masks := if 0 <? i then masks +:+ "," else masks in
      match addresses !! Z.to_nat i, bits !! Z.to_nat i with
      | Some a, Some b =>
          port_vectors rest addresses bits
            (adrs +:+ (dq +:+ py_format_032b a +:+ dq))
            (masks +:+ (dq +:+ py_format_032b (Z.shiftl 1 b - 1) +:+ dq))
      | _, _ => Raise IndexError
      end
  end.

(** The generated files: name and content. *)
Definition file : Type := string * string.

(** "First - generate code for registers": the empty declarations, then
    every register. *)
Definition gen_vhdl_regs (self : wb_block.t) : wb_block.t :=
  let self := add_templ self "p_package" "" 0 in
  let self := add_templ self "p_package_body" "" 0 in
  let self := add_templ self "signal_decls" "" 0 in
  let self := add_templ self "register_access" "" 0 in
  let self := add_templ self "subblk_busses" "" 0 in
  foldl (fun parent reg => wb_reg_gen_vhdl reg parent) self (wb_block.regs self).

(** The calls of [add_templ] that follow the loop over the ports. *)
Definition gen_vhdl_finish (self : wb_block.t) (adrs masks : string) (n_ports : Z)
    : result wb_block.t :=
  let adrs := adrs +:+ ");" in
  let masks := masks +:+ ");" in
  let self := add_templ self "block_id" ("x" +:+ dq +:+ "00001234" +:+ dq) 0 in
  let self := add_templ self "block_ver" ("x" +:+ dq +:+ "12344321" +:+ dq) 0 in
  let self := add_templ self "p_addresses" adrs 0 in
  let self := add_templ self "p_masks" masks 0 in
  let self := add_templ self "p_registered" "false" 0 in
  let self := add_templ self "nof_subblks" (py_str n_ports) 0 in
  let self := add_templ self "p_entity" (wb_block.name self +:+ "_wb") 0 in
  match wb_block.adr_bits self with
  | None => Raise (AttributeError "adr_bits")
  | Some bits => Ok (add_templ self "valid_bits" (py_str bits) 0)
  end.

(** Everything up to the point where the template dictionary is complete:
    the registers, the areas, the two vectors, the remaining entries. *)
Definition gen_vhdl_fill (blocks : gmap string wb_block.t) (self : wb_block.t)
    : result wb_block.t :=
  let self := gen_vhdl_regs self in
  '(areas, p) ← connect_areas blocks (wb_block.areas self) (Ports self 0 [] []);
  let self := set_areas (p_self p) areas in
  '(adrs, masks) ← port_vectors (seqZ 0 (n_ports p)) (ar_addresses p) (ar_adr_bits p) "(" "(";
  gen_vhdl_finish self adrs masks (n_ports p).

(** [gen_vhdl]: the block after the call and the two files it wrote.  The
    diagnostic [print(self.templ_dict)] leaves no trace in either. *)
Definition gen_vhdl (blocks : gmap string wb_block.t) (self : wb_block.t)
    : result (wb_block.t * list file) :=
  self ← gen_vhdl_fill blocks self;
  wb ← py_format templ_wb (wb_block.templ_dict self);
  pkg ← py_format templ_pkg (wb_block.templ_dict self);
  Ok (self, [(wb_block.name self +:+ "_wb.vhd", wb);
             (wb_block.name self +:+ "_pkg.vhd", pkg)]).

(** [blocks[key].gen_vhdl()]: the call on the registered object. *)
Definition gen_vhdl_at (key : string) (st : world) : result (world * list file) :=
  match blocks st !! key with
  | None => Raise (KeyError key)
  | Some self =>
      '(self', files) ← gen_vhdl (blocks st) self;
      Ok (store key self' st, files)
  end.

(* ===================================================================== *)
(** * Part VI: vocabulary of the properties                              *)
(* ===================================================================== *)

(** Sum of a list of integers. *)
Definition Zsum (l : list Z) : Z := foldr Z.add 0 l.

(** The declared widths of the fields of a register element. *)
Definition field_widths (el : xml_reg) : list Z := xf_width <$> xr_fields el.

(** The message of the field-width error. *)
Definition width_error (name : string) : py_error :=
  Exception ("Total width of fields in register " +:+ name +:+ " is above 32-bits").

(** A register whose three fields fill the 32 bits exactly. *)
Definition ex_reg32 : xml_reg :=
  {| xr_name := "ctrl"; xr_reps := None; xr_type := None;
     xr_ack := None; xr_stb := None;
     xr_fields := [ {| xf_name := "lo"; xf_width := 16; xf_type := None |};
                    {| xf_name := "mid"; xf_width := 8; xf_type := None |};
                    {| xf_name := "hi"; xf_width := 8; xf_type := Some "unsigned"%string |} ] |}.

(** ** States of a block during a run *)

(** A block as its constructor leaves it. *)
Definition fresh (b : wb_block.t) : Prop :=
  wb_block.areas b = [] /\ wb_block.reg_base b = None /\
  wb_block.addr_size b = None /\ wb_block.adr_bits b = None.

(** A block whose [analyze] has begun and not yet finished. *)
Definition in_progress (b : wb_block.t) : Prop :=
  wb_block.areas b <> [] /\ wb_block.addr_size b = None.

(** The area of the local registers, as [analyze] creates it. *)
Definition int_regs_area (b : wb_block.t) : wb_area.t :=
  wb_area_init (wb_block.free_reg_addr b) (Some "int_regs"%string) None 1.

(** The area [analyze] creates for one sub-block reference, given the
    registry in which the referenced block is analyzed. *)
Definition sub_area (bs : gmap string wb_block.t) (sblk : xml_subblock)
    (ar : wb_area.t) : Prop :=
  exists bl s,
    bs !! xs_type sblk = Some bl /\ wb_block.addr_size bl = Some s /\
    ar = wb_area_init (s * default 1 (xs_reps sblk)) (xs_name sblk)
           (Some (xs_type sblk)) (default 1 (xs_reps sblk)).

(** The areas of a block in construction order: the local registers, then
    one area per sub-block reference in declaration order. *)
Definition gathered (bs : gmap string wb_block.t) (b : wb_block.t)
    (l : list wb_area.t) : Prop :=
  exists subs, Forall2 (sub_area bs) (wb_block.subblks b) subs /\
               l = int_regs_area b :: subs.

(** A block whose [analyze] has finished: it is the layout of the areas
    gathered for a fresh block. *)
Definition completed (bs : gmap string wb_block.t) (b : wb_block.t) : Prop :=
  exists b0 l, fresh b0 /\ gathered bs b0 l /\ b = (layout (set_areas b0 l)).1.

Definition state_ok (bs : gmap string wb_block.t) (b : wb_block.t) : Prop :=
  fresh b \/ in_progress b \/ completed bs b.

Definition registry_ok (bs : gmap string wb_block.t) : Prop :=
  forall k b, bs !! k = Some b -> state_ok bs b.

(** The registry before any analysis: every block is fresh. *)
Definition registry_fresh (bs : gmap string wb_block.t) : Prop :=
  forall k b, bs !! k = Some b -> fresh b.

(** Analyzed blocks are left alone. *)
Definition grows (bs bs' : gmap string wb_block.t) : Prop :=
  forall k b, bs !! k = Some b -> wb_block.addr_size b <> None -> bs' !! k = Some b.

(** The part of a block that comes from its declaration. *)
Definition same_decl (b b' : wb_block.t) : Prop :=
  wb_block.name b' = wb_block.name b /\
  wb_block.regs b' = wb_block.regs b /\
  wb_block.free_reg_addr b' = wb_block.free_reg_addr b /\
  wb_block.subblks b' = wb_block.subblks b /\
  wb_block.templ_dict b' = wb_block.templ_dict b.

(** ** The placement loop, read off one result at a time *)

(** Rounded size of an area of raw size [size]. *)
Definition rounded (size : Z) : Z := Z.shiftl 1 (bit_length (size - 1)).

(** The areas the loop leaves behind when it starts at [cur_base]. *)
Fixpoint placed (areas : list wb_area.t) (cur_base : Z) : list wb_area.t :=
  match areas with
  | [] => []
  | ar :: rest =>
      place_area ar cur_base :: placed rest (cur_base + rounded (wb_area.size ar))
  end.

(** The register base the loop leaves behind. *)
Fixpoint placed_reg_base (areas : list wb_area.t) (cur_base : Z)
    (reg_base : option Z) : option Z :=
  match areas with
  | [] => reg_base
  | ar :: rest =>
      placed_reg_base rest (cur_base + rounded (wb_area.size ar))
        (match wb_area.obj ar with None => Some cur_base | Some _ => reg_base end)
  end.

(** The rounded sizes of a list of areas. *)
Definition rounded_sizes (areas : list wb_area.t) : list Z :=
  (fun ar => rounded (wb_area.size ar)) <$> areas.

(** ** What one call of [analyze] may change *)

(** Blocks whose analysis has begun are left alone. *)
Definition frame (bs bs' : gmap string wb_block.t) : Prop :=
  forall k b, bs !! k = Some b -> wb_block.areas b <> [] -> bs' !! k = Some b.

(** The same, apart from the block under [key]. *)
Definition frame_off (key : string) (bs bs' : gmap string wb_block.t) : Prop :=
  forall k b, k <> key -> bs !! k = Some b -> wb_block.areas b <> [] ->
              bs' !! k = Some b.

(** No block is left half analyzed that was not so before. *)
Definition quiet (bs bs' : gmap string wb_block.t) : Prop :=
  forall k b, bs' !! k = Some b -> in_progress b -> bs !! k = Some b.

Definition quiet_off (key : string) (bs bs' : gmap string wb_block.t) : Prop :=
  forall k b, k <> key -> bs' !! k = Some b -> in_progress b -> bs !! k = Some b.

(** What a finished call on a fresh block under [key] guarantees. *)
Definition analyze_post (key : string) (st st' : world) : Prop :=
  registry_ok (blocks st') /\
  frame (blocks st) (blocks st') /\
  (exists b', blocks st' !! key = Some b' /\ completed (blocks st') b') /\
  quiet (blocks st) (blocks st').

Definition rec_ok (rec : string -> world -> outcome world) : Prop :=
  forall key st st',
    rec key st = Done st' ->
    registry_ok (blocks st) ->
    (exists b, blocks st !! key = Some b /\ fresh b) ->
    analyze_post key st st'.

(** ** What every call of [analyze] keeps *)

(** The declaration of a block stays, and a block whose analysis has begun
    keeps a non-empty list of areas. *)
Definition evolves (b b' : wb_block.t) : Prop :=
  same_decl b b' /\ (wb_block.areas b <> [] -> wb_block.areas b' <> []).

Definition registry_evolves (bs bs' : gmap string wb_block.t) : Prop :=
  forall k, option_Forall2 evolves (bs !! k) (bs' !! k).

Definition rec_evolves (rec : string -> world -> outcome world) : Prop :=
  forall key st st', rec key st = Done st' ->
    registry_evolves (blocks st) (blocks st').

(** The keys of the blocks whose list of areas is empty: the blocks the
    guard [len(bl.areas)==0] sends into [analyze]. *)
Definition unanalyzed (bs : gmap string wb_block.t) : gset string :=
  dom (filter (fun kv => length (wb_block.areas kv.2) = 0%nat) bs).

(** The recursive call returns whenever the fuel covers the blocks that are
    still unanalyzed. *)
Definition rec_total (fuel : nat) (rec : string -> world -> outcome world) : Prop :=
  forall key st, key ∈ unanalyzed (blocks st) ->
    (size (unanalyzed (blocks st)) <= fuel)%nat ->
    rec key st <> OutOfFuel.

(** ** The printed trace *)

(** The names in the lines [analyze: <name> addr_size:<n>], one per finished
    call of [analyze], in the order they were printed. *)
Definition printed_names (evs : list print_event) : list string :=
  omap (fun ev => match ev with
                  | Print_analyze n _ => Some n
                  | _ => None
                  end) evs.

(** The registry is keyed by the names of the blocks. *)
Definition registry_named (bs : gmap string wb_block.t) : Prop :=
  forall k b, bs !! k = Some b -> wb_block.name b = k.

(** What a finished call on an unanalyzed block has printed: one line for
    each block that went from unanalyzed to analyzed, and no block twice. *)
Definition trace_post (st st' : world) : Prop :=
  exists (keys : list string) (evs : list print_event),
    stdout st' = stdout st ++ evs /\
    NoDup keys /\
    Forall2 (fun k n => exists b, blocks st !! k = Some b /\ wb_block.name b = n)
            keys (printed_names evs) /\
    (forall k, k ∈ keys <->
               k ∈ unanalyzed (blocks st) /\ k ∉ unanalyzed (blocks st')).

Definition rec_trace (rec : string -> world -> outcome world) : Prop :=
  forall key st st', rec key st = Done st' ->
    key ∈ unanalyzed (blocks st) -> trace_post st st'.

(** ** Declarations *)

(** The register children of a block element with their tags, and its
    sub-block children, both in declaration order. *)
Definition reg_children (children : list xml_child) : list (string * xml_reg) :=
  omap (fun child => match child with
                     | El_creg el => Some ("creg"%string, el)
                     | El_sreg el => Some ("sreg"%string, el)
                     | _ => None
                     end) children.

Definition subblock_children (children : list xml_child) : list xml_subblock :=
  omap (fun child => match child with
                     | El_subblock el => Some el
                     | _ => None
                     end) children.

(** The declared repeat counts of the registers: [int(el.get('reps',1))]. *)
Definition declared_reps (children : list xml_child) : list Z :=
  (fun d => default 1 (xr_reps d.2)) <$> reg_children children.

(** Every repeat count of the element is at least one. *)
Definition xml_reps_ok (el : xml_block) : Prop :=
  Forall (fun n => 1 <= n) (declared_reps (xb_children el)) /\
  Forall (fun sblk => 1 <= default 1 (xs_reps sblk)) (subblock_children (xb_children el)).

(** The registry as it stands after the constructors have run: every block
    is [wb_block(el)] for some element [el]. *)
Definition registry_built (bs : gmap string wb_block.t) : Prop :=
  forall k b, bs !! k = Some b -> exists el, wb_block_init el = Ok b.

(** The same, for elements whose repeat counts are all at least one. *)
Definition registry_built_ok (bs : gmap string wb_block.t) : Prop :=
  forall k b, bs !! k = Some b -> exists el, wb_block_init el = Ok b /\ xml_reps_ok el.

(** The addresses [self.base+i] that the loop of [wb_reg.gen_vhdl] decodes. *)
Definition decode_addresses (r : wb_reg.t) : list Z :=
  (fun i => wb_reg.base r + i) <$> seqZ 0 (wb_reg.size r).

(** A block after its analysis, in terms of the block before it. *)
Definition analyzed_from (bs : gmap string wb_block.t) (b b' : wb_block.t) : Prop :=
  exists l, gathered bs b l /\ b' = (layout (set_areas b l)).1.

(** The registry [bs'] after a run that began with the registry [bs]: each
    block is either untouched or the analysis of the block it was. *)
Definition registry_analyzed (bs bs' : gmap string wb_block.t) : Prop :=
  forall k, option_Forall2 (fun b b' => b' = b \/ analyzed_from bs' b b')
                           (bs !! k) (bs' !! k).

#[global] Instance xml_reps_ok_dec (el : xml_block) : Decision (xml_reps_ok el).
Proof. unfold xml_reps_ok. apply _. Defined.

(** Modelled from the spec: the script that fills the registry is not among
    the sources; the registry is a map from type name to block, populated
    once, before any analysis, with one constructed block per declaration. *)
Fixpoint build_registry (els : list xml_block) (bs : gmap string wb_block.t)
    : result (gmap string wb_block.t) :=
  match els with
  | [] => Ok bs
  | el :: rest =>
      bl ← wb_block_init el;
      build_registry rest (<[xb_name el := bl]> bs)
  end.

(** ** A small hierarchy used in the examples *)

Definition plain_reg (name : string) (reps : option Z) : xml_reg :=
  {| xr_name := name; xr_reps := reps; xr_type := None;
     xr_ack := None; xr_stb := None; xr_fields := [] |}.

(** Ten control registers: raw size 12, rounded size 16. *)
Definition ex_blkA : xml_block :=
  {| xb_name := "A"; xb_children := [El_creg (plain_reg "a" (Some 10))] |}.

(** One control register with two fields and one status register: raw and
    rounded size 4. *)
Definition ex_blkB : xml_block :=
  {| xb_name := "B";
     xb_children :=
       [El_creg {| xr_name := "b0"; xr_reps := None; xr_type := None;
                   xr_ack := None; xr_stb := None;
                   xr_fields := [ {| xf_name := "lo"; xf_width := 8; xf_type := None |};
                                  {| xf_name := "hi"; xf_width := 4;
                                     xf_type := Some "unsigned"%string |} ] |};
        El_sreg (plain_reg "b1" None)] |}.

(** Four status registers: raw size 6, rounded size 8. *)
Definition ex_blkC : xml_block :=
  {| xb_name := "C"; xb_children := [El_sreg (plain_reg "s" (Some 4))] |}.

(** Local registers of raw size 8 and two references, to [B] and to [A]. *)
Definition ex_top : xml_block :=
  {| xb_name := "T";
     xb_children :=
       [El_creg (plain_reg "c" (Some 6));
        El_subblock {| xs_type := "B"; xs_name := Some "sb"%string; xs_reps := None |};
        El_subblock {| xs_type := "A"; xs_name := Some "sa"%string; xs_reps := None |}] |}.

(** One status register and a vector of three blocks [C]. *)
Definition ex_vec : xml_block :=
  {| xb_name := "V";
     xb_children :=
       [El_sreg (plain_reg "v" None);
        El_subblock {| xs_type := "C"; xs_name := Some "sc"%string; xs_reps := Some 3 |}] |}.

(** A block that refers to [B] twice and to [T], which refers to [B] again. *)
Definition ex_diamond : xml_block :=
  {| xb_name := "D";
     xb_children :=
       [El_subblock {| xs_type := "B"; xs_name := Some "x"%string; xs_reps := None |};
        El_subblock {| xs_type := "T"; xs_name := Some "y"%string; xs_reps := None |};
        El_subblock {| xs_type := "B"; xs_name := Some "z"%string; xs_reps := None |}] |}.

Definition ex_decls : list xml_block :=
  [ex_diamond; ex_top; ex_vec; ex_blkA; ex_blkB; ex_blkC].

Definition ex_registry : gmap string wb_block.t :=
  match build_registry ex_decls ∅ with
  | Ok bs => bs
  | Raise _ => ∅
  end.

(** The world after [analyze] was called on [T] in the fresh registry. *)
Definition ex_after_top : world :=
  match analyze 6 "T" (World ex_registry []) with
  | Done st => st
  | _ => World ∅ []
  end.

(** The world after [analyze] was called on [D] in the fresh registry. *)
Definition ex_after_diamond : world :=
  match analyze 7 "D" (World ex_registry []) with
  | Done st => st
  | _ => World ∅ []
  end.

(** The world after [analyze] was called on [V] in the fresh registry. *)
Definition ex_after_vec : world :=
  match analyze 6 "V" (World ex_registry []) with
  | Done st => st
  | _ => World ∅ []
  end.

(** An area as it was constructed, before the placement loop wrote its
    address, its rounded size and their exponent. *)
Definition unplaced (ar : wb_area.t) : wb_area.t :=
  {| wb_area.name := wb_area.name ar;
     wb_area.size := wb_area.size ar;
     wb_area.obj := wb_area.obj ar;
     wb_area.adr := 0;
     wb_area.mask := wb_area.mask ar;
     wb_area.total_size := 0;
     wb_area.reps := wb_area.reps ar;
     wb_area.adr_bits := None;
     wb_area.first_port := wb_area.first_port ar;
     wb_area.last_port := wb_area.last_port ar |}.

(** ** The template dictionary as accumulated text *)

(** The text one call of [add_templ] appends to its section. *)
Definition templ_text (indent : Z) (value : string) : string :=
  foldl (fun acc ln => if String.eqb ln "" then acc
                       else acc +:+ (py_repeat indent " " +:+ ln))
        ""%string (templ_lines value).

(** Section by section, the text of [d] followed by the text of [delta]. *)
Definition dict_app (d delta : gmap string string) : gmap string string :=
  union_with (fun a b => Some (a +:+ b)) d delta.

(** The block with another dictionary. *)
Definition clear_dict (b : wb_block.t) : wb_block.t := set_templ_dict b ∅.

(** A step of the emitter only appends: it changes nothing but the
    dictionary, and there it puts, after the text the block already had, the
    text it writes when the dictionary is empty. *)
Definition appends (f : wb_block.t -> wb_block.t) : Prop :=
  forall b, f b = set_templ_dict b
                    (dict_app (wb_block.templ_dict b)
                              (wb_block.templ_dict (f (clear_dict b)))).

(** The same for the loops that carry the port counter and the lists. *)
Definition p_clear (p : ports) : ports :=
  Ports (clear_dict (p_self p)) (n_ports p) (ar_addresses p) (ar_adr_bits p).

Definition p_prepend (self : wb_block.t) (p' : ports) : ports :=
  Ports (set_templ_dict self
           (dict_app (wb_block.templ_dict self) (wb_block.templ_dict (p_self p'))))
        (n_ports p') (ar_addresses p') (ar_adr_bits p').

Definition p_appends {X : Type} (F : ports -> result (X * ports)) : Prop :=
  forall p, F p = match F (p_clear p) with
                  | Ok (x, p') => Ok (x, p_prepend (p_self p) p')
                  | Raise e => Raise e
                  end.

(** ** What emission leaves alone *)

(** [a'] is [a] with its port slots written. *)
Definition ported (a a' : wb_area.t) : Prop :=
  exists first last, a' = set_ports a first last.

(** Two blocks that differ at most in the dictionary and in the port slots
    of their areas. *)
Definition same_model (b b' : wb_block.t) : Prop :=
  wb_block.name b' = wb_block.name b /\
  wb_block.regs b' = wb_block.regs b /\
  wb_block.free_reg_addr b' = wb_block.free_reg_addr b /\
  wb_block.subblks b' = wb_block.subblks b /\
  wb_block.reg_base b' = wb_block.reg_base b /\
  wb_block.addr_size b' = wb_block.addr_size b /\
  wb_block.adr_bits b' = wb_block.adr_bits b /\
  Forall2 ported (wb_block.areas b) (wb_block.areas b').

(** A register array of three and a single register. *)
Definition ex_blkR : xml_block :=
  {| xb_name := "R";
     xb_children := [El_creg (plain_reg "ra" (Some 3)); El_sreg (plain_reg "rb" None)] |}.

(** ** The section of the case arms *)

(** Concatenation of a list of strings. *)
Definition strcat (l : list string) : string := foldr String.append ""%string l.

(** The case arms of a register as they are appended to the section
    [register_access], one per element, each indented by ten spaces. *)
Definition reg_arms (r : wb_reg.t) : list string :=
  (fun i => templ_text 10 (case_arm r i)) <$> seqZ 0 (wb_reg.size r).

(** The local registers of [T] alone, without its sub-blocks. *)
Definition ex_top_flat : xml_block :=
  {| xb_name := "T"; xb_children := [El_creg (plain_reg "c" (Some 6))] |}.

Definition ex_flat_registry : gmap string wb_block.t :=
  match build_registry [ex_top_flat] ∅ with
  | Ok bs => bs
  | Raise _ => ∅
  end.

Definition ex_after_flat : world :=
  match analyze 2 "T" (World ex_flat_registry []) with
  | Done st => st
  | _ => World ∅ []
  end.

(** ** The windows of the ports *)

(** The span of one instance behind an area: the [addr_size] of the block
    the area refers to; for the local registers, the rounded size of the
    area itself. *)
Definition instance_span (bs : gmap string wb_block.t) (ar : wb_area.t) : Z :=
  match wb_area.obj ar with
  | Some t => default 0 (bs !! t ≫= wb_block.addr_size)
  | None => wb_area.total_size ar
  end.

(** One window per instance, from the base address of the area upwards. *)
Definition area_windows (bs : gmap string wb_block.t) (ar : wb_area.t) : list Z :=
  (fun i => wb_area.adr ar + i * instance_span bs ar) <$> seqZ 0 (wb_area.reps ar).

Definition area_masks (bs : gmap string wb_block.t) (ar : wb_area.t) : list Z :=
  (fun _ => instance_span bs ar - 1) <$> seqZ 0 (wb_area.reps ar).

(** The number [(1<<ar_adr_bits[i])-1] written into the vector of masks. *)
Definition port_mask (bits : Z) : Z := Z.shiftl 1 bits - 1.

(** The first port of the area at position [idx]. *)
Definition first_ports (areas : list wb_area.t) (idx : nat) : Z :=
  Zsum (take idx (wb_area.reps <$> areas)).

(** The quoted 32-digit literals of a vector, separated by commas. *)
Fixpoint vector_items (first : bool) (l : list Z) : string :=
  match l with
  | [] => ""
  | a :: rest =>
      (if first then "" else ",") +:+ (dq +:+ py_format_032b a +:+ dq) +:+
      vector_items false rest
  end.

(** An area that the emitter can connect: it stands for at least one
    instance, the span of an instance is a power of two whose exponent is the
    [adr_bits] the emitter reads. *)
Definition area_ready (bs : gmap string wb_block.t) (ar : wb_area.t) : Prop :=
  1 <= wb_area.reps ar /\
  exists n, 0 <= n /\ instance_span bs ar = 2 ^ n /\
    (wb_area.reps ar = 1 -> wb_area.adr_bits ar = Some n) /\
    match wb_area.obj ar with
    | Some t => exists bt, bs !! t = Some bt /\ wb_block.addr_size bt = Some (2 ^ n) /\
                           wb_block.adr_bits bt = Some n
    | None => wb_area.reps ar = 1
    end.

(** ** The text of the conversion functions *)

(** The opening parentheses of a text less its closing ones. *)
Fixpoint paren_depth (s : string) : Z :=
  match s with
  | EmptyString => 0
  | String c rest =>
      (if Ascii.eqb c "(" then 1 else if Ascii.eqb c ")" then -1 else 0) +
      paren_depth rest
  end.

(** Fields laid end to end from bit [o] on. *)
Fixpoint packed (o : Z) (fields : list wb_field.t) : Prop :=
  match fields with
  | [] => True
  | fl :: rest =>
      wb_field.lsb fl = o /\ wb_field.msb fl = o + wb_field.size fl - 1 /\
      packed (o + wb_field.size fl) rest
  end.

(** The function bodies written for a register with fields. *)
Definition conversion_bodies (self : wb_reg.t) : string :=
  let tname := "t_" +:+ wb_reg.name self in
  ("function stlv2" +:+ tname +:+ "(x : std_logic_vector) return " +:+ tname +:+
   " is" +:+ nl) +:+
  ("variable res : " +:+ tname +:+ ";" +:+ nl) +:+
  ("begin" +:+ nl) +:+
  strcat (unpack_stmt <$> wb_reg.fields self) +:+
  ("  return res;" +:+ nl) +:+
  ("end stlv2" +:+ tname +:+ ";" +:+ nl +:+ nl) +:+
  ("function " +:+ tname +:+ "2stlv(x : " +:+ tname +:+
   ") return std_logic_vector is" +:+ nl) +:+
  ("variable res : std_logic_vector;" +:+ nl) +:+
  ("begin" +:+ nl) +:+
  ("  res := (others => '0');" +:+ nl) +:+
  strcat (pack_stmt <$> wb_reg.fields self) +:+
  ("  return res;" +:+ nl) +:+
  ("end " +:+ tname +:+ "2stlv;" +:+ nl +:+ nl).

(** The register [b0] of the example block [B]: fields [lo] of eight bits
    and [hi] of four. *)
Definition ex_reg_b0 : xml_reg :=
  {| xr_name := "b0"; xr_reps := None; xr_type := None;
     xr_ack := None; xr_stb := None;
     xr_fields := [ {| xf_name := "lo"; xf_width := 8; xf_type := None |};
                    {| xf_name := "hi"; xf_width := 4;
                       xf_type := Some "unsigned"%string |} ] |}.

(** ** What emission reads *)

(** Two registries whose blocks have the same spans under the same keys:
    [addr_size] and [adr_bits] are all the emitter reads of a referenced
    block. *)
Definition same_spans (bs bs' : gmap string wb_block.t) : Prop :=
  forall t, option_Forall2
              (fun b b' => wb_block.addr_size b' = wb_block.addr_size b /\
                           wb_block.adr_bits b' = wb_block.adr_bits b)
              (bs !! t) (bs' !! t).

(** The loop state with another list of areas in the block it carries. *)
Definition p_set_areas (p : ports) (l : list wb_area.t) : ports :=
  Ports (set_areas (p_self p) l) (n_ports p) (ar_addresses p) (ar_adr_bits p).

Definition result_map {A B : Type} (f : A -> B) (r : result A) : result B :=
  match r with
  | Ok a => Ok (f a)
  | Raise e => Raise e
  end.

(** The two files rendered from a dictionary for a block of name [name]. *)
Definition rendered (name : string) (d : gmap string string) (files : list file) : Prop :=
  exists wb pkg, py_format templ_wb d = Ok wb /\ py_format templ_pkg d = Ok pkg /\
                 files = [(name +:+ "_wb.vhd", wb); (name +:+ "_pkg.vhd", pkg)].

(** The world and the files after [gen_vhdl] was called on the analyzed
    block [T] of the flat example, and after it was called once more. *)
Definition ex_emit_once : world * list file :=
  match gen_vhdl_at "T" ex_after_flat with
  | Ok r => r
  | Raise _ => (World ∅ [], [])
  end.

Definition ex_emit_twice : world * list file :=
  match gen_vhdl_at "T" ex_emit_once.1 with
  | Ok r => r
  | Raise _ => (World ∅ [], [])
  end.

(** The text of an entry of the dictionary of the block under [key]. *)
Definition templ_entry (st : world) (key k : string) : option string :=
  blocks st !! key ≫= fun b => wb_block.templ_dict b !! k.

(** ** Vocabulary of the further properties *)

(** The exceptions [analyze] can end in: the attribute [addr_size] of a
    block that has none yet, or the key of a type the registry does not
    hold. *)
Definition analyze_error (bs : gmap string wb_block.t) (e : py_error) : Prop :=
  e = AttributeError "addr_size" \/ exists t, e = KeyError t /\ bs !! t = None.

(** [k] declares a sub-block of type [t]. *)
Definition refers (bs : gmap string wb_block.t) (k t : string) : Prop :=
  exists b sblk, bs !! k = Some b /\ sblk ∈ wb_block.subblks b /\ xs_type sblk = t.

(** A recursive call leaves alone every block that holds areas, the block
    it is called on apart. *)
Definition rec_frame (rec : string -> world -> outcome world) : Prop :=
  forall k st st', rec k st = Done st' -> frame_off k (blocks st) (blocks st').

Definition rec_raised (rec : string -> world -> outcome world) : Prop :=
  forall k st e, rec k st = Raised e -> analyze_error (blocks st) e.

(** A block with one register that refers to itself, and two blocks that
    refer to each other. *)
Definition ex_selfref : xml_block :=
  {| xb_name := "S";
     xb_children :=
       [El_creg (plain_reg "r" None);
        El_subblock {| xs_type := "S"; xs_name := Some "me"%string; xs_reps := None |}] |}.

Definition ex_ping : xml_block :=
  {| xb_name := "P";
     xb_children :=
       [El_subblock {| xs_type := "Q"; xs_name := Some "q"%string; xs_reps := None |}] |}.

Definition ex_pong : xml_block :=
  {| xb_name := "Q";
     xb_children :=
       [El_subblock {| xs_type := "P"; xs_name := Some "p"%string; xs_reps := None |}] |}.

(** A block that refers to a type nobody declared. *)
Definition ex_dangling : xml_block :=
  {| xb_name := "G";
     xb_children :=
       [El_subblock {| xs_type := "B"; xs_name := Some "b"%string; xs_reps := None |};
        El_subblock {| xs_type := "nowhere"; xs_name := Some "n"%string;
                       xs_reps := None |}] |}.

Definition ex_cyclic_registry : gmap string wb_block.t :=
  match build_registry [ex_selfref; ex_ping; ex_pong; ex_dangling; ex_blkB] ∅ with
  | Ok bs => bs
  | Raise _ => ∅
  end.

(** The block under [k] holds areas and spans [s] addresses. *)
Definition span_of (bs : gmap string wb_block.t) (k : string) (s : Z) : Prop :=
  exists b, bs !! k = Some b /\ wb_block.areas b <> [] /\ wb_block.addr_size b = Some s.

(** A recursive call leaves alone every block that cannot be reached from
    the block it is called on. *)
Definition rec_local (rec : string -> world -> outcome world) : Prop :=
  forall k st st', rec k st = Done st' ->
    forall x, ~ rtc (refers (blocks st)) k x -> blocks st' !! x = blocks st !! x.

(** ** Declarations that the constructors accept *)

(** The fields of a register fit: no running width exceeds 32 bits. *)
Definition reg_fits (el : xml_reg) : Prop :=
  forall k, (k < length (xr_fields el))%nat -> Zsum (take (S k) (field_widths el)) <= 32.

(** A child that the loop of [wb_block.__init__] gets past. *)
Definition child_ok (child : xml_child) : Prop :=
  match child with
  | El_creg el | El_sreg el => reg_fits el
  | El_subblock _ => True
  | El_other _ => False
  end.

(** The exception raised at a child the loop does not get past. *)
Definition child_error (child : xml_child) : py_error :=
  match child with
  | El_creg el | El_sreg el => width_error (xr_name el)
  | _ => AttributeError "name"
  end.

(** A block with a good register, a child of an unknown kind and a register
    that is too wide. *)
Definition ex_unknown_child : xml_block :=
  {| xb_name := "U";
     xb_children :=
       [El_creg (plain_reg "u" None);
        El_other "comment";
        El_creg {| xr_name := "wide"; xr_reps := None; xr_type := None;
                   xr_ack := None; xr_stb := None;
                   xr_fields := [ {| xf_name := "w"; xf_width := 33; xf_type := None |} ] |}] |}.

(** ** The text [add_templ] appends *)

(** [value] with [pad] put before every line that is not empty; [start]
    says whether a line begins here. *)
Fixpoint indent_lines (pad : string) (start : bool) (value : string) : string :=
  match value with
  | EmptyString => ""
  | String c rest =>
      (if start then pad else "") +:+
      String c (indent_lines pad (Ascii.eqb c (ascii_of_nat 10)) rest)
  end.

(** A block as the constructor leaves it for a declaration without children. *)
Definition ex_bare : wb_block.t :=
  {| wb_block.templ_dict := ∅;
     wb_block.name := "E";
     wb_block.areas := [];
     wb_block.regs := [];
     wb_block.free_reg_addr := 2;
     wb_block.subblks := [];
     wb_block.reg_base := None;
     wb_block.addr_size := None;
     wb_block.adr_bits := None |}.

(** ** The entries of the dictionary and the fields of the templates *)

(** The replacement fields of a format string in the order [str.format]
    looks them up, for a string whose braces pair up. *)
Fixpoint format_fields (t : string) (field : option string) : option (list string) :=
  match t with
  | EmptyString =>
      match field with
      | None => Some []
      | Some _ => None
      end
  | String c t' =>
      match field with
      | None =>
          if Ascii.eqb c "{" then format_fields t' (Some ""%string)
          else if Ascii.eqb c "}" then None
          else format_fields t' None
      | Some k =>
          if Ascii.eqb c "}" then cons k <$> format_fields t' None
          else format_fields t' (Some (k +:+ String c ""))
      end
  end.

(** The first of the keys [l] that [d] does not hold. *)
Fixpoint first_missing (d : gmap string string) (l : list string) : option string :=
  match l with
  | [] => None
  | k :: rest =>
      match d !! k with
      | Some _ => first_missing d rest
      | None => Some k
      end
  end.

(** The entries every call of [gen_vhdl] that gets to the files writes. *)
Definition fixed_keys : gset string :=
  list_to_set ["p_package"; "p_package_body"; "signal_decls"; "register_access";
               "subblk_busses"; "block_id"; "block_ver"; "p_addresses"; "p_masks";
               "p_registered"; "nof_subblks"; "p_entity"; "valid_bits"]%string.

(** An area that takes at least one port. *)
Definition takes_port (ar : wb_area.t) : Prop := 1 <= wb_area.reps ar.

(** The entries [gen_vhdl] writes for the block [b]: the fixed ones,
    [signal_ports] when there is a register, [cont_assigns] when an area
    takes a port. *)
Definition emitted_keys (b : wb_block.t) : gset string :=
  fixed_keys ∪
  (match wb_block.regs b with [] => ∅ | _ => {["signal_ports"%string]} end) ∪
  (if bool_decide (Exists takes_port (wb_block.areas b))
   then {["cont_assigns"%string]} else ∅).

(** The block [D] after [analyze] was called on it: three areas of
    sub-blocks and the area of the two identification registers, and no
    register of its own. *)
Definition ex_diamond_block : wb_block.t :=
  default ex_bare (blocks ex_after_diamond !! "D").

(*MARK-DEFS*)

(* ===================================================================== *)
(** * Part VII: properties                                               *)
(* ===================================================================== *)

(** ** Sums *)

Lemma Zsum_cons (x : Z) (l : list Z) : Zsum (x :: l) = x + Zsum l.
Proof. reflexivity. Qed.

Lemma Zsum_app (l1 l2 : list Z) : Zsum (l1 ++ l2) = Zsum l1 + Zsum l2.
Proof. induction l1 as [|x l1 IH]; simpl; [lia|]. rewrite IH. lia. Qed.

Lemma Zsum_take_S (l : list Z) (i : nat) (x : Z) :
  l !! i = Some x -> Zsum (take (S i) l) = Zsum (take i l) + x.
Proof.
  intros H. rewrite (take_S_r l i x H), Zsum_app. simpl. lia.
Qed.

Lemma Zsum_nonneg (l : list Z) : Forall (fun w => 0 <= w) l -> 0 <= Zsum l.
Proof. induction 1; simpl; lia. Qed.

Lemma Zsum_take_le (l : list Z) (k : nat) :
  Forall (fun w => 0 <= w) l -> Zsum (take k l) <= Zsum l.
Proof.
  intros H. rewrite <- (take_drop k l) at 2. rewrite Zsum_app.
  assert (0 <= Zsum (drop k l)); [|lia].
  apply Zsum_nonneg, Forall_drop, H.
Qed.

(** ** Register construction *)

(** The field loop either stops at the first field whose end passes bit 32,
    or lays every field at the running offset. *)
Lemma wb_reg_read_fields_spec (name : string) (fls : list xml_field) :
  forall (fields : list wb_field.t) (free_bit : Z),
  match wb_reg_read_fields name fls fields free_bit with
  | Ok (fields', free_bit') =>
      (forall k, (k <= length fls)%nat ->
                 k <> 0%nat -> free_bit + Zsum (take k (xf_width <$> fls)) <= 32) /\
      free_bit' = free_bit + Zsum (xf_width <$> fls) /\
      exists new, fields' = fields ++ new /\ length new = length fls /\
        forall (i : nat) fl, new !! i = Some fl ->
          exists xf, fls !! i = Some xf /\
            fl = wb_field_init xf (free_bit + Zsum (take i (xf_width <$> fls)))
  | Raise e =>
      e = width_error name /\
      exists k, (k < length fls)%nat /\
                32 < free_bit + Zsum (take (S k) (xf_width <$> fls))
  end.
Proof.
  induction fls as [|fl rest IH]; intros fields free_bit.
  - simpl. split; [intros k Hk Hk0; lia|]. split; [lia|].
    exists []. rewrite app_nil_r. split; [done|]. split; [done|].
    intros i f Hi. discriminate.
  - rewrite fmap_cons. cbn [wb_reg_read_fields wb_field_init wb_field.size].
    destruct (Z.ltb_spec 32 (free_bit + xf_width fl)) as [Hov|Hok].
    + split; [done|]. exists 0%nat. split; [simpl; lia|].
      rewrite firstn_cons, Zsum_cons. simpl. lia.
    + specialize (IH (fields ++ [wb_field_init fl free_bit]) (free_bit + xf_width fl)).
      destruct (wb_reg_read_fields name rest _ _) as [[fields' fb']|e].
      * destruct IH as (Hle & Hfb & new & Hnew & Hlen & Hat).
        split; [|split].
        -- intros [|k] Hk Hk0; [done|]. rewrite firstn_cons, Zsum_cons.
           destruct k as [|k]; [simpl; lia|].
           specialize (Hle (S k) ltac:(simpl in Hk; lia) ltac:(lia)). lia.
        -- rewrite Zsum_cons. lia.
        -- exists (wb_field_init fl free_bit :: new).
           rewrite Hnew, <- app_assoc. split; [done|]. split; [simpl; lia|].
           intros [|i] f Hi.
           ++ exists fl. split; [done|]. injection Hi as <-. f_equal. simpl. lia.
           ++ destruct (Hat i f Hi) as (xf & Hxf & ->).
              exists xf. split; [done|]. f_equal.
              rewrite firstn_cons, Zsum_cons. lia.
      * destruct IH as (-> & k & Hk & Hsum). split; [done|].
        exists (S k). split; [simpl; lia|].
        rewrite firstn_cons, Zsum_cons. lia.
Qed.

(** C4: fields are packed from bit 0 in declaration order, the constructor
    raises the width error exactly when the running offset after some field
    exceeds 32, and fields of non-negative width that sum to exactly 32
    construct. *)
Theorem C4_register_field_packing (tag : string) (el : xml_reg) (adr : Z) :
  (forall r, wb_reg_init tag el adr = Ok r ->
     length (wb_reg.fields r) = length (xr_fields el) /\
     wb_reg.free_bit r = Zsum (field_widths el) /\
     forall (i : nat) fl, wb_reg.fields r !! i = Some fl ->
       exists xf, xr_fields el !! i = Some xf /\
         wb_field.name fl = xf_name xf /\
         wb_field.size fl = xf_width xf /\
         wb_field.lsb fl = Zsum (take i (field_widths el)) /\
         wb_field.msb fl = wb_field.lsb fl + wb_field.size fl - 1) /\
  (wb_reg_init tag el adr = Raise (width_error (xr_name el)) <->
     exists k, (k < length (xr_fields el))%nat /\
               32 < Zsum (take (S k) (field_widths el))) /\
  (forall e, wb_reg_init tag el adr = Raise e -> e = width_error (xr_name el)) /\
  (Forall (fun w => 0 <= w) (field_widths el) ->
   Zsum (field_widths el) = 32 ->
   exists r, wb_reg_init tag el adr = Ok r).
Proof.
  unfold wb_reg_init, field_widths.
  pose proof (wb_reg_read_fields_spec (xr_name el) (xr_fields el) [] 0) as H.
  destruct (wb_reg_read_fields (xr_name el) (xr_fields el) [] 0)
    as [[fields fb]|e]; simpl.
  - destruct H as (Hle & Hfb & new & -> & Hlen & Hat). simpl in Hfb.
    split; [|split; [|split]].
    + intros r [= <-]. simpl. split; [lia|]. split; [lia|].
      intros i fl Hi. destruct (Hat i fl Hi) as (xf & Hxf & ->).
      exists xf. simpl. repeat split; try done; lia.
    + split; [discriminate|]. intros (k & Hk & Hsum).
      specialize (Hle (S k) ltac:(lia) ltac:(lia)). lia.
    + discriminate.
    + eauto.
  - destruct H as (-> & k & Hk & Hsum). split; [|split; [|split]].
    + discriminate.
    + split; [|done]. intros _. exists k. split; [done|lia].
    + intros e [= <-]. done.
    + intros Hpos Hsum32. exfalso.
      pose proof (Zsum_take_le (xf_width <$> xr_fields el) (S k) Hpos). lia.
Qed.
Lemma C4_register_field_packing_witness :
  Forall (fun w => 0 <= w) (field_widths ex_reg32) /\
  Zsum (field_widths ex_reg32) = 32 /\
  exists r, wb_reg_init "creg" ex_reg32 2 = Ok r.
Proof.
  assert (Hpos : Forall (fun w => 0 <= w) (field_widths ex_reg32))
    by (unfold field_widths, ex_reg32; simpl;
        repeat (apply Forall_cons_2; [lia|]); apply Forall_nil_2).
  assert (Hsum : Zsum (field_widths ex_reg32) = 32) by reflexivity.
  split; [exact Hpos|]. split; [exact Hsum|].
  exact (proj2 (proj2 (proj2 (C4_register_field_packing "creg" ex_reg32 2))) Hpos Hsum).
Defined.

(** ** Bit lengths and rounding to a power of two *)

Lemma bit_length_nonneg (n : Z) : 0 <= bit_length n.
Proof.
  unfold bit_length. destruct (Z.eqb_spec n 0); [lia|].
  pose proof (Z.log2_nonneg (Z.abs n)). lia.
Qed.

Lemma rounded_pow2 (s : Z) : rounded s = 2 ^ bit_length (s - 1).
Proof. unfold rounded. apply Z.shiftl_1_l. Qed.

Lemma rounded_pos (s : Z) : 0 < rounded s.
Proof.
  rewrite rounded_pow2. apply Z.pow_pos_nonneg; [lia|apply bit_length_nonneg].
Qed.

(** For a size of at least one, [(size-1).bit_length()] is the ceiling of
    the binary logarithm. *)
Lemma bit_length_log2_up (s : Z) : 1 <= s -> bit_length (s - 1) = Z.log2_up s.
Proof.
  intros Hs. unfold bit_length.
  destruct (Z.eqb_spec (s - 1) 0) as [H0|H0].
  - replace s with 1 by lia. reflexivity.
  - rewrite Z.log2_up_eqn by lia. rewrite Z.abs_eq by lia.
    unfold Z.succ, Z.pred. reflexivity.
Qed.

Lemma rounded_log2_up (s : Z) : 1 <= s -> rounded s = 2 ^ Z.log2_up s.
Proof. intros Hs. rewrite rounded_pow2, bit_length_log2_up by done. done. Qed.

Lemma rounded_ge (s : Z) : 1 <= s -> s <= rounded s.
Proof.
  intros Hs. rewrite rounded_log2_up by done.
  apply Z.log2_log2_up_spec. lia.
Qed.

Lemma bit_length_least (s j : Z) :
  1 <= s -> 0 <= j -> s <= 2 ^ j -> bit_length (s - 1) <= j.
Proof.
  intros Hs Hj Hle. rewrite bit_length_log2_up by done.
  apply Z.log2_up_le_pow2; [lia|done].
Qed.

Lemma bit_length_mono (s1 s2 : Z) :
  1 <= s1 -> s1 <= s2 -> bit_length (s1 - 1) <= bit_length (s2 - 1).
Proof.
  intros H1 H2. rewrite !bit_length_log2_up by lia.
  apply Z.log2_up_le_mono. done.
Qed.

(** A rounded size divides every rounded size of a larger area. *)
Lemma rounded_divide (s1 s2 : Z) :
  1 <= s1 -> s1 <= s2 -> (rounded s1 | rounded s2).
Proof.
  intros H1 H2. rewrite !rounded_pow2.
  pose proof (bit_length_mono s1 s2 H1 H2) as Hm.
  pose proof (bit_length_nonneg (s1 - 1)) as H0.
  exists (2 ^ (bit_length (s2 - 1) - bit_length (s1 - 1))).
  rewrite <- Z.pow_add_r by lia. f_equal. lia.
Qed.

(** A power of two is its own rounding. *)
Lemma rounded_of_pow2 (k : Z) : 0 <= k -> rounded (2 ^ k) = 2 ^ k.
Proof.
  intros Hk. assert (1 <= 2 ^ k) by (pose proof (Z.pow_pos_nonneg 2 k); lia).
  rewrite rounded_log2_up by done. rewrite Z.log2_up_pow2 by done. done.
Qed.

Lemma bit_length_of_pow2 (k : Z) : 0 <= k -> bit_length (2 ^ k - 1) = k.
Proof.
  intros Hk. assert (1 <= 2 ^ k) by (pose proof (Z.pow_pos_nonneg 2 k); lia).
  rewrite bit_length_log2_up by done. apply Z.log2_up_pow2. done.
Qed.

(** ** The stable descending sort *)

Section sort_facts.
Context {A : Type} (key : A -> Z).

Lemma insert_desc_perm (x : A) (l : list A) : Permutation (x :: l) (insert_desc key x l).
Proof.
  induction l as [|y l IH]; simpl; [done|].
  destruct (key x <? key y); [|done].
  rewrite perm_swap. by constructor.
Qed.

Lemma sort_desc_perm (l : list A) : Permutation l (sort_desc key l).
Proof.
  induction l as [|x l IH]; simpl; [done|].
  rewrite <- insert_desc_perm. by constructor.
Qed.

Lemma sort_desc_length (l : list A) : length (sort_desc key l) = length l.
Proof. symmetry. apply Permutation_length, sort_desc_perm. Qed.

Lemma insert_desc_sorted (x : A) (l : list A) :
  StronglySorted (fun a b => key b <= key a) l ->
  StronglySorted (fun a b => key b <= key a) (insert_desc key x l).
Proof.
  induction 1 as [|y l Hs IH Hall]; simpl.
  - constructor; constructor.
  - destruct (Z.ltb_spec (key x) (key y)) as [Hlt|Hge].
    + constructor; [done|].
      rewrite <- insert_desc_perm. constructor; [lia|done].
    + constructor; [by constructor|].
      constructor; [lia|].
      eapply Forall_impl; [exact Hall|]. simpl. intros z Hz. lia.
Qed.

Lemma sort_desc_sorted (l : list A) :
  StronglySorted (fun a b => key b <= key a) (sort_desc key l).
Proof.
  induction l as [|x l IH]; simpl; [constructor|].
  by apply insert_desc_sorted.
Qed.

(** Stability: among the elements with one key, the order is the original
    one. *)
Lemma insert_desc_filter (x : A) (l : list A) (k : Z) :
  StronglySorted (fun a b => key b <= key a) l ->
  filter (fun a => key a = k) (insert_desc key x l) =
  filter (fun a => key a = k) (x :: l).
Proof.
  induction 1 as [|y l Hs IH Hall]; simpl; [done|].
  destruct (Z.ltb_spec (key x) (key y)) as [Hlt|Hge]; [|done].
  rewrite (filter_cons _ y), IH, !filter_cons.
  repeat case_decide; try lia; done.
Qed.

Lemma sort_desc_filter (l : list A) (k : Z) :
  filter (fun a => key a = k) (sort_desc key l) = filter (fun a => key a = k) l.
Proof.
  induction l as [|x l IH]; simpl; [done|].
  rewrite insert_desc_filter by apply sort_desc_sorted.
  rewrite !filter_cons, IH. done.
Qed.
End sort_facts.

(** ** The placement loop *)

Lemma rounded_sizes_cons (ar : wb_area.t) (l : list wb_area.t) :
  rounded_sizes (ar :: l) = rounded (wb_area.size ar) :: rounded_sizes l.
Proof. reflexivity. Qed.

Lemma place_area_total_size (ar : wb_area.t) (c : Z) :
  wb_area.total_size (place_area ar c) = rounded (wb_area.size ar).
Proof. reflexivity. Qed.

(** The loop returns the placed areas, the cursor advanced by every rounded
    size, the register base and one line per area. *)
Lemma place_areas_eq (l : list wb_area.t) :
  forall (c : Z) (rb : option Z),
  place_areas l c rb =
  (placed l c, c + Zsum (rounded_sizes l), placed_reg_base l c rb,
   Print_added_size <$> rounded_sizes l).
Proof.
  induction l as [|ar l IH]; intros c rb.
  - simpl. rewrite Z.add_0_r. done.
  - cbn [place_areas placed placed_reg_base]. rewrite place_area_total_size, IH.
    rewrite rounded_sizes_cons, fmap_cons, Zsum_cons, Z.add_assoc. done.
Qed.

Lemma placed_length (l : list wb_area.t) (c : Z) : length (placed l c) = length l.
Proof. revert c. induction l as [|ar l IH]; intros c; simpl; [done|]. by rewrite IH. Qed.

(** The [i]-th placed area sits at the cursor advanced by the rounded sizes
    of the areas before it. *)
Lemma placed_lookup (l : list wb_area.t) (i : nat) :
  forall (c : Z),
  placed l c !! i =
  (fun ar => place_area ar (c + Zsum (take i (rounded_sizes l)))) <$> l !! i.
Proof.
  revert l. induction i as [|i IH]; intros [|ar l] c; try done.
  - simpl. do 2 f_equal. lia.
  - cbn [placed]. rewrite rounded_sizes_cons, firstn_cons, Zsum_cons.
    simpl. rewrite IH. destruct (l !! i); simpl; [|done].
    do 2 f_equal. lia.
Qed.

Lemma rounded_sizes_pos (l : list wb_area.t) : Forall (fun t => 0 < t) (rounded_sizes l).
Proof.
  unfold rounded_sizes. apply Forall_fmap, Forall_forall. intros ar _.
  apply rounded_pos.
Qed.

Lemma Zsum_pos_nonneg (l : list Z) : Forall (fun t => 0 < t) l -> 0 <= Zsum l.
Proof. intros H. apply Zsum_nonneg. eapply Forall_impl; [exact H|]. simpl. lia. Qed.

(** Prefix sums of non-negative numbers: the sum up to [j] covers the sum up
    to [i < j] and the [i]-th element. *)
Lemma Zsum_take_lt (l : list Z) (i j : nat) (x : Z) :
  Forall (fun t => 0 <= t) l -> (i < j)%nat -> l !! i = Some x ->
  Zsum (take i l) + x <= Zsum (take j l).
Proof.
  intros Hpos Hij Hi.
  rewrite <- (Zsum_take_S l i x Hi).
  replace j with (S i + (j - S i))%nat by lia.
  rewrite <- take_take_drop, Zsum_app.
  assert (0 <= Zsum (take (j - S i) (drop (S i) l))); [|lia].
  apply Zsum_nonneg, Forall_take, Forall_drop, Hpos.
Qed.

(** Alignment of a descending list: when the cursor is a multiple of the
    first rounded size, every placed area starts at a multiple of its own
    rounded size. *)
Lemma placed_aligned (l : list wb_area.t) :
  StronglySorted (fun a b => sort_key b <= sort_key a) l ->
  Forall (fun ar => 1 <= wb_area.size ar) l ->
  forall c,
  (forall ar, head l = Some ar -> (rounded (wb_area.size ar) | c)) ->
  Forall (fun ar => (wb_area.total_size ar | wb_area.adr ar)) (placed l c).
Proof.
  induction 1 as [|ar l Hs IH Hall]; intros Hsz c Hc; simpl; [constructor|].
  apply Forall_cons_1 in Hsz as [Har Hsz].
  constructor.
  - simpl. apply Hc. done.
  - apply IH; [done|]. intros ar2 Hhd.
    destruct l as [|ar2' l]; [done|]. injection Hhd as ->.
    apply Forall_cons_1 in Hall as [Hle _]. unfold sort_key in Hle.
    apply Forall_cons_1 in Hsz as [Har2 _].
    pose proof (rounded_divide (wb_area.size ar2) (wb_area.size ar) Har2 Hle) as Hd.
    apply Z.divide_add_r; [|done].
    etrans; [exact Hd|]. apply Hc. done.
Qed.

(** ** Blocks as records *)

Lemma set_areas_id (b : wb_block.t) : set_areas b (wb_block.areas b) = b.
Proof. by destruct b. Qed.

Lemma set_areas_twice (b : wb_block.t) (l1 l2 : list wb_area.t) :
  set_areas (set_areas b l1) l2 = set_areas b l2.
Proof. reflexivity. Qed.

(** The result of [layout], field by field. *)
Lemma layout_fst (b : wb_block.t) :
  let sorted := sort_desc sort_key (wb_block.areas b) in
  let cur := Zsum (rounded_sizes sorted) in
  (layout b).1 =
  set_layout b (placed sorted 0) (placed_reg_base sorted 0 (wb_block.reg_base b))
    (rounded cur) (bit_length (cur - 1)).
Proof. unfold layout. rewrite place_areas_eq. simpl. reflexivity. Qed.

Lemma layout_snd (b : wb_block.t) :
  let sorted := sort_desc sort_key (wb_block.areas b) in
  let cur := Zsum (rounded_sizes sorted) in
  (layout b).2 =
  (Print_added_size <$> rounded_sizes sorted) ++
  [Print_analyze (wb_block.name b) (rounded cur)].
Proof. unfold layout. rewrite place_areas_eq. simpl. reflexivity. Qed.

Lemma layout_areas_length (b : wb_block.t) :
  length (wb_block.areas (layout b).1) = length (wb_block.areas b).
Proof. rewrite layout_fst. simpl. by rewrite placed_length, sort_desc_length. Qed.

Lemma layout_same_decl (b : wb_block.t) : same_decl b (layout b).1.
Proof. rewrite layout_fst. by repeat split. Qed.

Lemma completed_areas (bs : gmap string wb_block.t) (b : wb_block.t) :
  completed bs b -> wb_block.areas b <> [].
Proof.
  intros (b0 & l & _ & (subs & _ & ->) & ->) Hnil.
  apply (f_equal length) in Hnil. rewrite layout_areas_length in Hnil.
  simpl in Hnil. lia.
Qed.

Lemma completed_addr_size (bs : gmap string wb_block.t) (b : wb_block.t) :
  completed bs b -> wb_block.addr_size b <> None.
Proof. intros (b0 & l & _ & _ & ->). by rewrite layout_fst. Qed.

(** What [state_ok] says about a block, read off two of its fields. *)
Lemma state_ok_unanalyzed (bs : gmap string wb_block.t) (b : wb_block.t) :
  state_ok bs b -> wb_block.areas b = [] -> fresh b.
Proof.
  intros [H|[[H _]|H]] Hnil; [done|done|].
  by apply completed_areas in H.
Qed.

Lemma state_ok_analyzed (bs : gmap string wb_block.t) (b : wb_block.t) :
  state_ok bs b -> wb_block.addr_size b <> None -> completed bs b.
Proof.
  intros [(_ & _ & H & _)|[[_ H]|H]] Hs; [done|done|done].
Qed.

(** ** Registries that grow *)

Lemma grows_refl (bs : gmap string wb_block.t) : grows bs bs.
Proof. by intros k b. Qed.

Lemma grows_trans (bs1 bs2 bs3 : gmap string wb_block.t) :
  grows bs1 bs2 -> grows bs2 bs3 -> grows bs1 bs3.
Proof. intros H12 H23 k b Hk Hs. eauto. Qed.

Lemma sub_area_grows (bs bs' : gmap string wb_block.t) (sblk : xml_subblock)
    (ar : wb_area.t) :
  grows bs bs' -> sub_area bs sblk ar -> sub_area bs' sblk ar.
Proof.
  intros Hg (bl & s & Hbl & Hs & ->). exists bl, s.
  split; [|done]. apply Hg; [done|]. by rewrite Hs.
Qed.

Lemma completed_grows (bs bs' : gmap string wb_block.t) (b : wb_block.t) :
  grows bs bs' -> completed bs b -> completed bs' b.
Proof.
  intros Hg (b0 & l & Hf & (subs & Hsubs & ->) & ->).
  exists b0, (int_regs_area b0 :: subs). split; [done|]. split; [|done].
  exists subs. split; [|done].
  eapply Forall2_impl; [exact Hsubs|]. intros sblk ar. by apply sub_area_grows.
Qed.

Lemma state_ok_grows (bs bs' : gmap string wb_block.t) (b : wb_block.t) :
  grows bs bs' -> state_ok bs b -> state_ok bs' b.
Proof.
  intros Hg [H|[H|H]]; [by left|by right; left|].
  right; right. by eapply completed_grows.
Qed.

(** Writing a block that was not yet analyzed keeps the others' facts. *)
Lemma grows_insert (bs : gmap string wb_block.t) (key : string)
    (old new : wb_block.t) :
  bs !! key = Some old -> wb_block.addr_size old = None ->
  grows bs (<[key := new]> bs).
Proof.
  intros Hold Hnone k b Hk Hs.
  destruct (decide (k = key)) as [->|Hne].
  - rewrite Hold in Hk. injection Hk as ->. done.
  - by rewrite lookup_insert_ne.
Qed.

Lemma registry_ok_insert (bs : gmap string wb_block.t) (key : string)
    (old new : wb_block.t) :
  registry_ok bs -> bs !! key = Some old -> wb_block.addr_size old = None ->
  state_ok (<[key := new]> bs) new ->
  registry_ok (<[key := new]> bs).
Proof.
  intros Hok Hold Hnone Hnew k b Hk.
  destruct (decide (k = key)) as [->|Hne].
  - rewrite lookup_insert_eq in Hk. injection Hk as <-. done.
  - rewrite lookup_insert_ne in Hk by done.
    eapply state_ok_grows; [by eapply grows_insert|]. by eapply Hok.
Qed.

Lemma frame_off_grows (bs bs' : gmap string wb_block.t) (key : string)
    (cur : wb_block.t) :
  registry_ok bs -> bs !! key = Some cur -> wb_block.addr_size cur = None ->
  frame_off key bs bs' -> grows bs bs'.
Proof.
  intros Hok Hcur Hnone Hfr k b Hk Hs.
  destruct (decide (k = key)) as [->|Hne].
  - rewrite Hcur in Hk. injection Hk as ->. done.
  - apply Hfr; [done|done|].
    eapply completed_areas, state_ok_analyzed; [by eapply Hok|done].
Qed.

(** ** The loop over the sub-blocks *)

Lemma scan_subblks_spec (rec : string -> world -> outcome world) (key : string) :
  rec_ok rec ->
  forall (sblks : list xml_subblock) (st st' : world) (cur : wb_block.t),
  scan_subblks rec key sblks st = Done st' ->
  registry_ok (blocks st) ->
  blocks st !! key = Some cur -> in_progress cur ->
  registry_ok (blocks st') /\
  frame_off key (blocks st) (blocks st') /\
  (exists subs, Forall2 (sub_area (blocks st')) sblks subs /\
     blocks st' !! key = Some (set_areas cur (wb_block.areas cur ++ subs))) /\
  quiet_off key (blocks st) (blocks st').
Proof.
  intros Hrec. induction sblks as [|sblk rest IH]; intros st st' cur Hrun Hok Hcur Hprog.
  - simpl in Hrun. injection Hrun as <-.
    split; [done|]. split; [by intros k b|]. split; [|by intros k b].
    exists []. split; [constructor|]. by rewrite app_nil_r, set_areas_id.
  - simpl in Hrun.
    destruct (blocks st !! xs_type sblk) as [bl|] eqn:Hbl; [|done].
    (* the state after the guarded recursive call *)
    assert (exists st1, (if decide (length (wb_block.areas bl) = 0%nat)
                          then rec (xs_type sblk) st else Done st) = Done st1 /\
              registry_ok (blocks st1) /\ frame (blocks st) (blocks st1) /\
              quiet (blocks st) (blocks st1)) as (st1 & Hst1 & Hok1 & Hfr1 & Hq1).
    { destruct (decide (length (wb_block.areas bl) = 0%nat)) as [Hlen|Hlen].
      - destruct (rec (xs_type sblk) st) as [st1| |] eqn:Hcall; [|done|done].
        exists st1. split; [done|].
        destruct (Hrec _ _ _ Hcall Hok) as (H1 & H2 & _ & H4).
        { exists bl. split; [done|].
          eapply state_ok_unanalyzed; [by eapply Hok|]. by apply nil_length_inv. }
        done.
      - exists st. split; [done|]. split; [done|]. split; by intros k b. }
    rewrite Hst1 in Hrun. clear Hst1.
    destruct Hprog as [Hne Hnone].
    assert (Hcur1 : blocks st1 !! key = Some cur) by (by apply Hfr1).
    cbn [print blocks stdout] in Hrun.
    destruct (blocks st1 !! xs_type sblk) as [bl'|] eqn:Hbl'; [|done].
    destruct (wb_block.addr_size bl') as [s|] eqn:Hs; [|done].
    rewrite Hcur1 in Hrun.
    set (ar := wb_area_init (s * default 1 (xs_reps sblk)) (xs_name sblk)
                 (Some (xs_type sblk)) (default 1 (xs_reps sblk))) in *.
    set (cur3 := set_areas cur (wb_block.areas cur ++ [ar])) in *.
    assert (Hprog3 : in_progress cur3).
    { split; [|done]. simpl. by destruct (wb_block.areas cur). }
    assert (Hg13 : grows (blocks st1) (<[key := cur3]> (blocks st1)))
      by (by eapply grows_insert).
    assert (Hok3 : registry_ok (<[key := cur3]> (blocks st1))).
    { eapply registry_ok_insert; [done|done|done|]. right; left. done. }
    edestruct (IH _ st' cur3 Hrun) as (Hok' & Hfr' & (subs & Hsubs & Hkey') & Hq');
      [exact Hok3|apply lookup_insert_eq|exact Hprog3|].
    cbn [store blocks] in *.
    assert (Hg3' : grows (<[key := cur3]> (blocks st1)) (blocks st')).
    { eapply frame_off_grows; [exact Hok3|apply lookup_insert_eq|done|done]. }
    split; [done|]. split; [|split].
    + intros k b Hk Hb Hbne. apply Hfr'; [done| |done].
      rewrite lookup_insert_ne by done. by apply Hfr1.
    + exists (ar :: subs). split.
      * constructor; [|done].
        eapply sub_area_grows; [exact Hg3'|]. eapply sub_area_grows; [exact Hg13|].
        exists bl', s. done.
      * rewrite Hkey'. unfold cur3. rewrite set_areas_twice. simpl.
        by rewrite <- app_assoc.
    + intros k b Hk Hb Hbp. apply Hq1; [|done].
      specialize (Hq' k b Hk Hb Hbp). by rewrite lookup_insert_ne in Hq'.
Qed.

(** ** The master property of [analyze] *)

Lemma analyze_rec_ok (fuel : nat) : rec_ok (analyze fuel).
Proof.
  induction fuel as [|fuel IH]; intros key st st' Hrun Hok (self & Hself & Hfresh);
    [done|].
  simpl in Hrun. rewrite Hself in Hrun.
  destruct Hfresh as (Hnil & Hrb & Has & Hab).
  rewrite Hnil in Hrun. simpl in Hrun.
  set (self1 := set_areas self [int_regs_area self]) in *.
  change (wb_area_init (wb_block.free_reg_addr self) (Some "int_regs"%string) None 1)
    with (int_regs_area self) in Hrun.
  fold self1 in Hrun.
  destruct (scan_subblks (analyze fuel) key (wb_block.subblks self)
              (store key self1 st)) as [st2| |] eqn:Hscan; [|done|done].
  assert (Hprog1 : in_progress self1) by (by split).
  assert (Hg01 : grows (blocks st) (<[key := self1]> (blocks st)))
    by (by eapply grows_insert).
  assert (Hok1 : registry_ok (<[key := self1]> (blocks st))).
  { eapply registry_ok_insert; [done|done|done|]. right; left. done. }
  edestruct (scan_subblks_spec (analyze fuel) key IH _ _ _ self1 Hscan)
    as (Hok2 & Hfr2 & (subs & Hsubs & Hkey2) & Hq2);
    [exact Hok1|apply lookup_insert_eq|exact Hprog1|].
  cbn [store blocks] in *.
  rewrite Hkey2 in Hrun. unfold self1 in Hkey2, Hrun.
  rewrite set_areas_twice in Hkey2, Hrun. simpl in Hkey2, Hrun.
  set (self2 := set_areas self (int_regs_area self :: subs)) in *.
  destruct (layout self2) as [self' out] eqn:Hlay.
  injection Hrun as <-. unfold analyze_post. cbn [print store blocks].
  assert (Hself' : self' = (layout self2).1) by (by rewrite Hlay).
  assert (Hg2' : grows (blocks st2) (<[key := self']> (blocks st2)))
    by (by eapply grows_insert).
  assert (Hcomp : completed (<[key := self']> (blocks st2)) self').
  { exists self, (int_regs_area self :: subs).
    split; [done|]. split; [|done].
    exists subs. split; [|done].
    eapply Forall2_impl; [exact Hsubs|]. intros sblk ar. by apply sub_area_grows. }
  split; [|split; [|split]].
  - eapply registry_ok_insert; [done|done|done|]. right; right. done.
  - intros k b Hk Hbne.
    assert (Hkne : k <> key).
    { intros ->. rewrite Hself in Hk. injection Hk as ->. done. }
    rewrite lookup_insert_ne by done. apply Hfr2; [done| |done].
    by rewrite lookup_insert_ne.
  - exists self'. split; [apply lookup_insert_eq|done].
  - intros k b Hk Hbp.
    destruct (decide (k = key)) as [->|Hkne].
    + rewrite lookup_insert_eq in Hk. injection Hk as <-.
      destruct Hbp as [_ Hbp]. by apply completed_addr_size in Hcomp.
    + rewrite lookup_insert_ne in Hk by done.
      specialize (Hq2 k b Hkne Hk Hbp). by rewrite lookup_insert_ne in Hq2.
Qed.

(** ** Declarations are kept *)

Lemma evolves_refl (b : wb_block.t) : evolves b b.
Proof. by repeat split. Qed.

Lemma evolves_trans (b1 b2 b3 : wb_block.t) :
  evolves b1 b2 -> evolves b2 b3 -> evolves b1 b3.
Proof.
  intros [(H1 & H2 & H3 & H4 & H5) Ha] [(K1 & K2 & K3 & K4 & K5) Ka].
  split; [|by auto]. repeat split; congruence.
Qed.

Lemma registry_evolves_refl (bs : gmap string wb_block.t) : registry_evolves bs bs.
Proof.
  intros k. destruct (bs !! k); constructor. apply evolves_refl.
Qed.

Lemma registry_evolves_trans (bs1 bs2 bs3 : gmap string wb_block.t) :
  registry_evolves bs1 bs2 -> registry_evolves bs2 bs3 -> registry_evolves bs1 bs3.
Proof.
  intros H12 H23 k. specialize (H12 k). specialize (H23 k).
  destruct H12 as [b1 b2 H12|]; inversion H23; subst; constructor.
  by eapply evolves_trans.
Qed.

Lemma registry_evolves_insert (bs : gmap string wb_block.t) (key : string)
    (b b' : wb_block.t) :
  bs !! key = Some b -> evolves b b' -> registry_evolves bs (<[key := b']> bs).
Proof.
  intros Hb He k. destruct (decide (k = key)) as [->|Hne].
  - rewrite lookup_insert_eq, Hb. by constructor.
  - rewrite lookup_insert_ne by done. apply registry_evolves_refl.
Qed.

Lemma registry_evolves_lookup (bs bs' : gmap string wb_block.t) (k : string)
    (b : wb_block.t) :
  registry_evolves bs bs' -> bs !! k = Some b ->
  exists b', bs' !! k = Some b' /\ evolves b b'.
Proof.
  intros He Hb. specialize (He k). rewrite Hb in He. inversion He; subst. eauto.
Qed.

Lemma registry_evolves_lookup_inv (bs bs' : gmap string wb_block.t) (k : string)
    (b' : wb_block.t) :
  registry_evolves bs bs' -> bs' !! k = Some b' ->
  exists b, bs !! k = Some b /\ evolves b b'.
Proof.
  intros He Hb. specialize (He k). rewrite Hb in He. inversion He; subst. eauto.
Qed.

Lemma evolves_append (b : wb_block.t) (l : list wb_area.t) :
  evolves b (set_areas b (wb_block.areas b ++ l)).
Proof.
  split; [by repeat split|]. simpl. intros Hne. by destruct (wb_block.areas b).
Qed.

Lemma evolves_layout (b : wb_block.t) : evolves b (layout b).1.
Proof.
  split; [apply layout_same_decl|]. intros Hne Hnil.
  apply (f_equal length) in Hnil. rewrite layout_areas_length in Hnil.
  destruct (wb_block.areas b); [done|]. simpl in Hnil. lia.
Qed.

Lemma scan_subblks_evolves (rec : string -> world -> outcome world) (key : string) :
  rec_evolves rec ->
  forall (sblks : list xml_subblock) (st st' : world),
  scan_subblks rec key sblks st = Done st' ->
  registry_evolves (blocks st) (blocks st').
Proof.
  intros Hrec. induction sblks as [|sblk rest IH]; intros st st' Hrun.
  - simpl in Hrun. injection Hrun as <-. apply registry_evolves_refl.
  - simpl in Hrun.
    destruct (blocks st !! xs_type sblk) as [bl|] eqn:Hbl; [|done].
    assert (exists st1, (if decide (length (wb_block.areas bl) = 0%nat)
                          then rec (xs_type sblk) st else Done st) = Done st1 /\
              registry_evolves (blocks st) (blocks st1)) as (st1 & Hst1 & He1).
    { destruct (decide (length (wb_block.areas bl) = 0%nat)).
      - destruct (rec (xs_type sblk) st) as [st1| |] eqn:Hcall; [|done|done].
        exists st1. split; [done|]. by eapply Hrec.
      - exists st. split; [done|]. apply registry_evolves_refl. }
    rewrite Hst1 in Hrun. clear Hst1. cbn [print blocks stdout] in Hrun.
    destruct (blocks st1 !! xs_type sblk) as [bl'|] eqn:Hbl'; [|done].
    destruct (wb_block.addr_size bl') as [s|] eqn:Hs; [|done].
    destruct (blocks st1 !! key) as [self|] eqn:Hself; [|done].
    apply IH in Hrun. cbn [store blocks] in Hrun.
    eapply registry_evolves_trans; [exact He1|].
    eapply registry_evolves_trans; [|exact Hrun].
    eapply registry_evolves_insert; [done|]. apply evolves_append.
Qed.

Lemma analyze_evolves (fuel : nat) : rec_evolves (analyze fuel).
Proof.
  induction fuel as [|fuel IH]; intros key st st' Hrun; [done|].
  simpl in Hrun.
  destruct (blocks st !! key) as [self|] eqn:Hself; [|done].
  destruct (scan_subblks (analyze fuel) key (wb_block.subblks self) _)
    as [st2| |] eqn:Hscan; [|done|done].
  apply (scan_subblks_evolves _ _ IH) in Hscan. cbn [store blocks] in Hscan.
  destruct (blocks st2 !! key) as [self2|] eqn:Hself2; [|done].
  destruct (layout self2) as [self' out] eqn:Hlay.
  injection Hrun as <-. cbn [print store blocks].
  eapply registry_evolves_trans;
    [eapply registry_evolves_insert; [exact Hself|apply evolves_append]|].
  eapply registry_evolves_trans; [exact Hscan|].
  eapply registry_evolves_insert; [exact Hself2|].
  replace self' with (layout self2).1 by (by rewrite Hlay). apply evolves_layout.
Qed.

(** ** The unanalyzed blocks *)

Lemma elem_of_unanalyzed (bs : gmap string wb_block.t) (k : string) :
  k ∈ unanalyzed bs <-> exists b, bs !! k = Some b /\ wb_block.areas b = [].
Proof.
  unfold unanalyzed. rewrite elem_of_dom. unfold is_Some. split.
  - intros (b & Hb). apply map_lookup_filter_Some in Hb as [Hb Hlen].
    exists b. split; [done|]. by apply nil_length_inv.
  - intros (b & Hb & Hnil). exists b. apply map_lookup_filter_Some.
    split; [done|]. simpl. by rewrite Hnil.
Qed.

Lemma unanalyzed_evolves (bs bs' : gmap string wb_block.t) :
  registry_evolves bs bs' -> unanalyzed bs' ⊆ unanalyzed bs.
Proof.
  intros He k. rewrite !elem_of_unanalyzed. intros (b' & Hb' & Hnil).
  destruct (registry_evolves_lookup_inv _ _ _ _ He Hb') as (b & Hb & _ & Hkeep).
  exists b. split; [done|].
  destruct (wb_block.areas b) eqn:E; [done|]. exfalso. by apply Hkeep.
Qed.

Lemma unanalyzed_insert (bs : gmap string wb_block.t) (key : string)
    (b' : wb_block.t) (k : string) :
  wb_block.areas b' <> [] ->
  k ∈ unanalyzed (<[key := b']> bs) <-> k ∈ unanalyzed bs /\ k <> key.
Proof.
  intros Hne. rewrite !elem_of_unanalyzed. split.
  - intros (b & Hb & Hnil). destruct (decide (k = key)) as [->|Hk].
    + rewrite lookup_insert_eq in Hb. injection Hb as <-. done.
    + rewrite lookup_insert_ne in Hb by done. eauto.
  - intros [(b & Hb & Hnil) Hk]. exists b. by rewrite lookup_insert_ne.
Qed.

Lemma unanalyzed_size (bs : gmap string wb_block.t) :
  (size (unanalyzed bs) <= size bs)%nat.
Proof.
  unfold unanalyzed. rewrite size_dom. apply map_subseteq_size, map_filter_subseteq.
Qed.

(** ** Enough fuel *)

Lemma scan_subblks_total (fuel : nat) (rec : string -> world -> outcome world)
    (key : string) :
  rec_total fuel rec -> rec_evolves rec ->
  forall (sblks : list xml_subblock) (st : world),
  (size (unanalyzed (blocks st)) <= fuel)%nat ->
  key ∉ unanalyzed (blocks st) ->
  scan_subblks rec key sblks st <> OutOfFuel.
Proof.
  intros Htot Hev. induction sblks as [|sblk rest IH]; intros st Hsize Hkey; [done|].
  simpl. destruct (blocks st !! xs_type sblk) as [bl|] eqn:Hbl; [|done].
  assert (forall st1, (if decide (length (wb_block.areas bl) = 0%nat)
                       then rec (xs_type sblk) st else Done st) = Done st1 ->
            registry_evolves (blocks st) (blocks st1)) as He1.
  { intros st1. case_decide; [by apply Hev|]. intros [= <-].
    apply registry_evolves_refl. }
  assert ((if decide (length (wb_block.areas bl) = 0%nat)
           then rec (xs_type sblk) st else Done st) <> OutOfFuel) as Hno.
  { case_decide as Hlen; [|done]. apply Htot; [|done].
    apply elem_of_unanalyzed. exists bl. split; [done|]. by apply nil_length_inv. }
  destruct (if decide (length (wb_block.areas bl) = 0%nat)
            then rec (xs_type sblk) st else Done st) as [st1| |]; [|done|done].
  specialize (He1 st1 eq_refl). cbn [print blocks stdout].
  destruct (blocks st1 !! xs_type sblk) as [bl'|]; [|done].
  destruct (wb_block.addr_size bl') as [s|]; [|done].
  destruct (blocks st1 !! key) as [self|] eqn:Hself; [|done].
  pose proof (unanalyzed_evolves _ _ He1) as Hsub.
  assert (Hne : wb_block.areas (set_areas self (wb_block.areas self ++
            [wb_area_init (s * default 1 (xs_reps sblk)) (xs_name sblk)
               (Some (xs_type sblk)) (default 1 (xs_reps sblk))])) <> []).
  { simpl. by destruct (wb_block.areas self). }
  apply IH; cbn [store blocks].
  - etrans; [|exact Hsize]. apply subseteq_size. intros k Hk.
    apply unanalyzed_insert in Hk as [Hk _]; [|done]. by apply Hsub.
  - intros Hk. apply unanalyzed_insert in Hk as [_ Hk]; done.
Qed.

(** The fuel that one call needs once its own block is marked. *)
Lemma analyze_body_total (fuel : nat) (key : string) (st : world) :
  rec_total fuel (analyze fuel) ->
  (forall self, blocks st !! key = Some self ->
     (size (unanalyzed (<[key := set_areas self (wb_block.areas self ++
                            [int_regs_area self])]> (blocks st))) <= fuel)%nat) ->
  analyze (S fuel) key st <> OutOfFuel.
Proof.
  intros IH Hsize. simpl.
  destruct (blocks st !! key) as [self|] eqn:Hself; [|done].
  specialize (Hsize self eq_refl).
  pose proof (scan_subblks_total fuel (analyze fuel) key IH (analyze_evolves fuel)
    (wb_block.subblks self)
    (store key (set_areas self (wb_block.areas self ++ [int_regs_area self])) st)
    Hsize) as Hscan.
  destruct (scan_subblks _ _ _ _) as [st2| |] eqn:E; [|done|].
  - destruct (blocks st2 !! key); [|done]. by destruct (layout _).
  - apply Hscan. cbn [store blocks]. intros Hk.
    apply unanalyzed_insert in Hk as [_ Hk]; [done|].
    simpl. by destruct (wb_block.areas self).
Qed.

Lemma analyze_rec_total (fuel : nat) : rec_total fuel (analyze fuel).
Proof.
  induction fuel as [|fuel IH]; intros key st Hkey Hsize.
  - exfalso. assert (size (unanalyzed (blocks st)) <> 0%nat); [|lia].
    apply size_non_empty_iff. intros Hempty. set_solver.
  - apply analyze_body_total; [done|]. intros self Hself.
    assert (size (unanalyzed (<[key := set_areas self (wb_block.areas self ++
               [int_regs_area self])]> (blocks st))) <
            size (unanalyzed (blocks st)))%nat; [|lia].
    apply subset_size. split.
    + intros k Hk. apply unanalyzed_insert in Hk as [Hk _]; [done|].
      simpl. by destruct (wb_block.areas self).
    + intros Hsub. specialize (Hsub key Hkey).
      apply unanalyzed_insert in Hsub as [_ Hne]; [done|].
      simpl. by destruct (wb_block.areas self).
Qed.

(** [analyze] returns for every registry: one unit of fuel per block and one
    for the call itself suffice, whatever block it is called on. *)
Lemma analyze_terminates (key : string) (st : world) :
  analyze (S (size (blocks st))) key st <> OutOfFuel.
Proof.
  apply analyze_body_total; [apply analyze_rec_total|]. intros self Hself.
  etrans; [|apply (unanalyzed_size (blocks st))].
  apply subseteq_size. intros k Hk.
  apply unanalyzed_insert in Hk as [Hk _]; [done|].
  simpl. by destruct (wb_block.areas self).
Qed.

(** ** The printed trace *)

Lemma Forall2_impl_elem {A B : Type} (P Q : A -> B -> Prop) (l : list A) (k : list B) :
  Forall2 P l k -> (forall x y, x ∈ l -> P x y -> Q x y) -> Forall2 Q l k.
Proof.
  induction 1 as [|x y l k Hxy Hlk IH]; intros Himp; constructor.
  - apply Himp; [left|done].
  - apply IH. intros x' y' Hin. apply Himp. by right.
Qed.

Lemma printed_names_app (evs1 evs2 : list print_event) :
  printed_names (evs1 ++ evs2) = printed_names evs1 ++ printed_names evs2.
Proof. apply omap_app. Qed.

Lemma printed_names_added (l : list Z) : printed_names (Print_added_size <$> l) = [].
Proof. induction l as [|x l IH]; [done|]. exact IH. Qed.

Lemma printed_names_layout (b : wb_block.t) :
  printed_names (layout b).2 = [wb_block.name b].
Proof.
  rewrite layout_snd, printed_names_app, printed_names_added. reflexivity.
Qed.

(** A step that prints no [analyze:] line and analyzes no block. *)
Lemma trace_post_silent (st st' : world) (evs : list print_event) :
  stdout st' = stdout st ++ evs -> printed_names evs = [] ->
  (forall k, k ∈ unanalyzed (blocks st') <-> k ∈ unanalyzed (blocks st)) ->
  trace_post st st'.
Proof.
  intros Hout Hnames Hsame. exists [], evs.
  split; [done|]. split; [constructor|]. split; [rewrite Hnames; constructor|].
  intros k. rewrite Hsame. split; [by intros ?%elem_of_nil|tauto].
Qed.

Lemma trace_post_trans (st1 st2 st3 : world) :
  registry_evolves (blocks st1) (blocks st2) ->
  registry_evolves (blocks st2) (blocks st3) ->
  trace_post st1 st2 -> trace_post st2 st3 -> trace_post st1 st3.
Proof.
  intros He12 He23 (k1 & e1 & Ho1 & Hnd1 & Hn1 & Hk1) (k2 & e2 & Ho2 & Hnd2 & Hn2 & Hk2).
  pose proof (unanalyzed_evolves _ _ He12) as H21.
  pose proof (unanalyzed_evolves _ _ He23) as H32.
  exists (k1 ++ k2), (e1 ++ e2). split; [|split; [|split]].
  - rewrite Ho2, Ho1. by rewrite app_assoc.
  - apply NoDup_app. split; [done|]. split; [|done].
    intros k Hin1 Hin2. apply Hk1 in Hin1 as [_ Hno]. apply Hk2 in Hin2 as [Hyes _].
    done.
  - rewrite printed_names_app. apply Forall2_app; [done|].
    eapply Forall2_impl; [exact Hn2|]. simpl. intros k n (b & Hb & Hname).
    destruct (registry_evolves_lookup_inv _ _ _ _ He12 Hb)
      as (b0 & Hb0 & (Hnm & _) & _).
    exists b0. split; [done|]. congruence.
  - intros k. rewrite elem_of_app, Hk1, Hk2. split.
    + intros [[Hin Hout]|[Hin Hout]].
      * split; [done|]. intros H3. by apply Hout, H32.
      * split; [|done]. by apply H21.
    + intros [Hin Hout].
      destruct (decide (k ∈ unanalyzed (blocks st2))); [by right|by left].
Qed.

Lemma trace_post_refl (st : world) : trace_post st st.
Proof.
  apply (trace_post_silent st st []); [by rewrite app_nil_r|done|done].
Qed.

Lemma scan_subblks_trace (rec : string -> world -> outcome world) (key : string) :
  rec_trace rec -> rec_evolves rec ->
  forall (sblks : list xml_subblock) (st st' : world),
  scan_subblks rec key sblks st = Done st' ->
  key ∉ unanalyzed (blocks st) ->
  trace_post st st'.
Proof.
  intros Htr Hev. induction sblks as [|sblk rest IH]; intros st st' Hrun Hkey.
  - simpl in Hrun. injection Hrun as <-. apply trace_post_refl.
  - pose proof (scan_subblks_evolves rec key Hev (sblk :: rest) st st' Hrun) as Hevall.
    simpl in Hrun.
    destruct (blocks st !! xs_type sblk) as [bl|] eqn:Hbl; [|done].
    assert (exists st1, (if decide (length (wb_block.areas bl) = 0%nat)
                          then rec (xs_type sblk) st else Done st) = Done st1 /\
              registry_evolves (blocks st) (blocks st1) /\
              trace_post st st1) as (st1 & Hst1 & He1 & Ht1).
    { destruct (decide (length (wb_block.areas bl) = 0%nat)) as [Hlen|Hlen].
      - destruct (rec (xs_type sblk) st) as [st1| |] eqn:Hcall; [|done|done].
        exists st1. split; [done|]. split; [by eapply Hev|].
        eapply Htr; [done|]. apply elem_of_unanalyzed.
        exists bl. split; [done|]. by apply nil_length_inv.
      - exists st. split; [done|]. split; [apply registry_evolves_refl|].
        apply trace_post_refl. }
    rewrite Hst1 in Hrun. clear Hst1. cbn [print blocks stdout] in Hrun.
    destruct (blocks st1 !! xs_type sblk) as [bl'|] eqn:Hbl'; [|done].
    destruct (wb_block.addr_size bl') as [s|] eqn:Hs; [|done].
    destruct (blocks st1 !! key) as [self|] eqn:Hself; [|done].
    set (cur3 := set_areas self _) in Hrun.
    set (st3 := store key cur3 _) in Hrun.
    assert (Hne3 : wb_block.areas cur3 <> []).
    { simpl. by destruct (wb_block.areas self). }
    assert (Hkey1 : key ∉ unanalyzed (blocks st1)).
    { intros Hk. by apply Hkey, (unanalyzed_evolves _ _ He1). }
    assert (He13 : registry_evolves (blocks st1) (blocks st3)).
    { cbn [st3 store blocks]. eapply registry_evolves_insert; [done|].
      apply evolves_append. }
    assert (Ht13 : trace_post st1 st3).
    { apply (trace_post_silent st1 st3 [Print_reps (default 1 (xs_reps sblk))]);
        [done|done|].
      intros k. cbn [st3 store blocks]. rewrite unanalyzed_insert by done.
      split; [tauto|]. intros Hk. split; [done|]. by intros ->. }
    pose proof (scan_subblks_evolves rec key Hev rest st3 st' Hrun) as He3'.
    eapply trace_post_trans; [exact He1| |exact Ht1|].
    { by eapply registry_evolves_trans. }
    eapply trace_post_trans; [exact He13|exact He3'|exact Ht13|].
    apply IH; [done|].
    cbn [st3 store blocks]. rewrite unanalyzed_insert by done. tauto.
Qed.

(** Every finished call prints one [analyze:] line for each block it took
    from unanalyzed to analyzed, and for no other. *)
Lemma analyze_rec_trace (fuel : nat) : rec_trace (analyze fuel).
Proof.
  induction fuel as [|fuel IH]; intros key st st' Hrun Hkey; [done|].
  simpl in Hrun.
  destruct (blocks st !! key) as [self|] eqn:Hself; [|done].
  set (self1 := set_areas self _) in Hrun.
  set (st1 := store key self1 st) in Hrun.
  assert (Hne1 : wb_block.areas self1 <> []).
  { simpl. by destruct (wb_block.areas self). }
  assert (HU1 : forall k, k ∈ unanalyzed (blocks st1) <->
                          k ∈ unanalyzed (blocks st) /\ k <> key).
  { intros k. cbn [st1 store blocks]. by rewrite unanalyzed_insert. }
  destruct (scan_subblks (analyze fuel) key (wb_block.subblks self) st1)
    as [st2| |] eqn:Hscan; [|done|done].
  pose proof (scan_subblks_evolves _ _ (analyze_evolves fuel) _ _ _ Hscan) as He12.
  assert (Hkey1 : key ∉ unanalyzed (blocks st1)) by (rewrite HU1; tauto).
  pose proof (scan_subblks_trace _ key IH (analyze_evolves fuel) _ _ _ Hscan Hkey1)
    as (keys & evs & Hout & Hnd & Hnames & Hkeys).
  destruct (blocks st2 !! key) as [self2|] eqn:Hself2; [|done].
  destruct (layout self2) as [self' out] eqn:Hlay.
  injection Hrun as <-.
  assert (Hname2 : wb_block.name self2 = wb_block.name self).
  { destruct (registry_evolves_lookup_inv _ _ _ _ He12 Hself2)
      as (b1 & Hb1 & (Hnm & _) & _).
    cbn [st1 store blocks] in Hb1. rewrite lookup_insert_eq in Hb1.
    injection Hb1 as <-. done. }
  assert (Hne' : wb_block.areas self' <> []).
  { replace self' with (layout self2).1 by (by rewrite Hlay).
    apply evolves_layout.
    intros Hnil. apply Hkey1, (unanalyzed_evolves _ _ He12), elem_of_unanalyzed.
    eauto. }
  exists (keys ++ [key]), (evs ++ out). cbn [print store blocks stdout].
  split; [|split; [|split]].
  - rewrite Hout. cbn [st1 store stdout]. by rewrite app_assoc.
  - apply NoDup_app. split; [done|]. split; [|apply NoDup_singleton].
    intros k Hin ->%list_elem_of_singleton. apply Hkeys in Hin as [Hin _].
    apply HU1 in Hin. tauto.
  - rewrite printed_names_app. apply Forall2_app.
    + eapply Forall2_impl_elem; [exact Hnames|].
      intros k n Hin (b & Hb & Hn).
      apply Hkeys in Hin as [Hin _]. apply HU1 in Hin as [_ Hk].
      cbn [st1 store blocks] in Hb. rewrite lookup_insert_ne in Hb by done. eauto.
    + replace out with (layout self2).2 by (by rewrite Hlay).
      rewrite printed_names_layout. constructor; [|constructor]. eauto.
  - intros k. rewrite elem_of_app, list_elem_of_singleton, Hkeys, HU1.
    rewrite unanalyzed_insert by done. split.
    + intros [[[Hin Hk] Hout2]|Heq]; [tauto|]. subst k. split; [done|]. tauto.
    + intros [Hin Hout2]. destruct (decide (k = key)) as [->|Hk]; [by right|].
      left. split; [done|]. intros H2. apply Hout2. done.
Qed.

(** ** Block construction *)

Lemma wb_reg_init_fields (tag : string) (el : xml_reg) (adr : Z) (r : wb_reg.t) :
  wb_reg_init tag el adr = Ok r ->
  wb_reg.regtype r = tag /\ wb_reg.base r = adr /\
  wb_reg.size r = default 1 (xr_reps el) /\ wb_reg.name r = xr_name el.
Proof.
  unfold wb_reg_init. 
  destruct (wb_reg_read_fields _ _ _ _) as [[fields fb]|e]; simpl; [|done].
  by intros [= <-].
Qed.

(** The loop over the children hands each register the running address and
    advances it by the register's repeat count. *)
Lemma wb_block_read_children_spec (children : list xml_child) :
  forall (regs : list wb_reg.t) (free : Z) (subblks : list xml_subblock)
         (regs' : list wb_reg.t) (free' : Z) (subblks' : list xml_subblock),
  wb_block_read_children children regs free subblks = Ok (regs', free', subblks') ->
  subblks' = subblks ++ subblock_children children /\
  free' = free + Zsum (declared_reps children) /\
  exists new, regs' = regs ++ new /\
    length new = length (reg_children children) /\
    forall (i : nat) r, new !! i = Some r ->
      exists d, reg_children children !! i = Some d /\
        wb_reg_init d.1 d.2 (free + Zsum (take i (declared_reps children))) = Ok r.
Proof.
  induction children as [|child rest IH]; intros regs free subblks regs' free' subblks' H.
  - injection H as <- <- <-. rewrite app_nil_r. split; [done|].
    split; [simpl; lia|]. exists []. by rewrite app_nil_r.
  - assert (Hreg : forall tag el,
      (reg ← wb_reg_init tag el free;
       wb_block_read_children rest (regs ++ [reg]) (free + wb_reg.size reg) subblks)
      = Ok (regs', free', subblks') ->
      subblks' = subblks ++ subblock_children rest /\
      free' = free + Zsum (default 1 (xr_reps el) :: declared_reps rest) /\
      exists new, regs' = regs ++ new /\
        length new = S (length (reg_children rest)) /\
        forall (i : nat) r, new !! i = Some r ->
          exists d, ((tag, el) :: reg_children rest) !! i = Some d /\
            wb_reg_init d.1 d.2
              (free + Zsum (take i (default 1 (xr_reps el) :: declared_reps rest))) = Ok r).
    { intros tag el Hrun.
      destruct (wb_reg_init tag el free) as [reg|e] eqn:Hinit; [|done].
      simpl in Hrun. apply IH in Hrun as (-> & -> & new & -> & Hlen & Hat).
      destruct (wb_reg_init_fields _ _ _ _ Hinit) as (_ & _ & Hsize & _).
      split; [done|]. split; [rewrite Zsum_cons, Hsize; lia|].
      exists (reg :: new). rewrite <- app_assoc. split; [done|].
      split; [simpl; lia|].
      intros [|i] r Hi.
      - injection Hi as <-. exists (tag, el). split; [done|].
        simpl. by rewrite Z.add_0_r.
      - destruct (Hat i r Hi) as (d & Hd & Hr). exists d. split; [done|].
        rewrite firstn_cons, Zsum_cons. rewrite <- Hr. f_equal. rewrite Hsize. lia. }
    destruct child as [el|el|el|tag]; simpl in H.
    + by apply Hreg in H.
    + by apply Hreg in H.
    + apply IH in H as (-> & -> & new & -> & Hlen & Hat).
      split; [by rewrite <- app_assoc|]. split; [done|]. by exists new.
    + done.
Qed.

(** A block as its constructor leaves it. *)
Lemma wb_block_init_spec (el : xml_block) (b : wb_block.t) :
  wb_block_init el = Ok b ->
  fresh b /\
  wb_block.name b = xb_name el /\
  wb_block.templ_dict b = ∅ /\
  wb_block.subblks b = subblock_children (xb_children el) /\
  wb_block.free_reg_addr b = 2 + Zsum (declared_reps (xb_children el)) /\
  length (wb_block.regs b) = length (reg_children (xb_children el)) /\
  forall (i : nat) r, wb_block.regs b !! i = Some r ->
    exists d, reg_children (xb_children el) !! i = Some d /\
      wb_reg_init d.1 d.2 (2 + Zsum (take i (declared_reps (xb_children el)))) = Ok r.
Proof.
  unfold wb_block_init.
  destruct (wb_block_read_children _ _ _ _) as [[[regs free] subblks]|e] eqn:H;
    simpl; [|done].
  intros [= <-]. simpl.
  apply wb_block_read_children_spec in H as (-> & -> & new & -> & Hlen & Hat).
  by repeat split.
Qed.

Lemma declared_reps_lookup (children : list xml_child) (i : nat) (d : string * xml_reg) :
  reg_children children !! i = Some d ->
  declared_reps children !! i = Some (default 1 (xr_reps d.2)).
Proof. intros H. unfold declared_reps. by rewrite list_lookup_fmap, H. Qed.

(** The registers of a block follow one another from address 2. *)
Lemma wb_block_init_bases (el : xml_block) (b : wb_block.t) :
  wb_block_init el = Ok b ->
  forall (i : nat) r, wb_block.regs b !! i = Some r ->
    declared_reps (xb_children el) !! i = Some (wb_reg.size r) /\
    wb_reg.base r = 2 + Zsum (take i (declared_reps (xb_children el))).
Proof.
  intros Hb i r Hr.
  destruct (wb_block_init_spec _ _ Hb) as (_ & _ & _ & _ & _ & _ & Hat).
  destruct (Hat i r Hr) as (d & Hd & Hinit).
  destruct (wb_reg_init_fields _ _ _ _ Hinit) as (_ & Hbase & Hsize & _).
  rewrite Hsize. split; [by apply declared_reps_lookup|done].
Qed.

Lemma registry_built_fresh (bs : gmap string wb_block.t) :
  registry_built bs -> registry_fresh bs.
Proof.
  intros Hb k b Hk. destruct (Hb k b Hk) as (el & Hel).
  by apply wb_block_init_spec in Hel as (Hf & _).
Qed.

Lemma registry_built_ok_built (bs : gmap string wb_block.t) :
  registry_built_ok bs -> registry_built bs.
Proof. intros Hb k b Hk. destruct (Hb k b Hk) as (el & Hel & _). eauto. Qed.

(** With repeat counts of at least one the local registers span at least
    two addresses and every reference stands for at least one instance. *)
Lemma registry_built_ok_sizes (bs : gmap string wb_block.t) (k : string)
    (b : wb_block.t) :
  registry_built_ok bs -> bs !! k = Some b ->
  2 <= wb_block.free_reg_addr b /\
  Forall (fun sblk => 1 <= default 1 (xs_reps sblk)) (wb_block.subblks b).
Proof.
  intros Hb Hk. destruct (Hb k b Hk) as (el & Hel & Hreps & Hsub).
  apply wb_block_init_spec in Hel as (_ & _ & _ & -> & -> & _).
  split; [|done].
  assert (0 <= Zsum (declared_reps (xb_children el))); [|lia].
  apply Zsum_nonneg. eapply Forall_impl; [exact Hreps|]. simpl. lia.
Qed.

(** ** A run from a fresh registry *)

Lemma same_decl_set_areas (b : wb_block.t) (l : list wb_area.t) :
  same_decl b (set_areas b l).
Proof. by repeat split. Qed.

Lemma same_decl_trans (b1 b2 b3 : wb_block.t) :
  same_decl b1 b2 -> same_decl b2 b3 -> same_decl b1 b3.
Proof.
  intros (H1 & H2 & H3 & H4 & H5) (K1 & K2 & K3 & K4 & K5). repeat split; congruence.
Qed.

Lemma fresh_same_decl_eq (b b0 b' : wb_block.t) :
  fresh b -> fresh b0 -> same_decl b b' -> same_decl b0 b' -> b0 = b.
Proof.
  intros (F1 & F2 & F3 & F4) (G1 & G2 & G3 & G4) (H1 & H2 & H3 & H4 & H5)
         (K1 & K2 & K3 & K4 & K5).
  destruct b, b0. simpl in *. congruence.
Qed.

Lemma analyze_done_lookup (fuel : nat) (key : string) (st st' : world) :
  analyze fuel key st = Done st' -> exists self, blocks st !! key = Some self.
Proof.
  destruct fuel as [|fuel]; [done|]. simpl.
  destruct (blocks st !! key) as [self|]; [eauto|done].
Qed.

(** After a run from a fresh registry every block is untouched or
    analyzed. *)
Lemma analyze_fresh (bs : gmap string wb_block.t) (fuel : nat) (key : string)
    (out : list print_event) (st' : world) :
  registry_fresh bs ->
  analyze fuel key (World bs out) = Done st' ->
  registry_analyzed bs (blocks st').
Proof.
  intros Hfresh Hrun.
  destruct (analyze_done_lookup _ _ _ _ Hrun) as (self & Hself).
  assert (Hok : registry_ok bs) by (intros k b Hk; left; by eapply Hfresh).
  destruct (analyze_rec_ok fuel key _ _ Hrun Hok) as (Hok' & _ & _ & Hq).
  { exists self. split; [done|]. by eapply Hfresh. }
  pose proof (analyze_evolves fuel key _ _ Hrun) as Hev.
  intros k. specialize (Hev k). cbn [blocks] in *.
  destruct (bs !! k) as [b|] eqn:Hb; destruct (blocks st' !! k) as [b'|] eqn:Hb';
    inversion Hev as [? ? [Hdecl _]|]; subst; constructor.
  destruct (Hok' k b' Hb') as [Hf|[Hp|(b0 & l & Hf0 & Hg & ->)]].
  - left. symmetry. eapply (fresh_same_decl_eq b' b b'); [done|by eapply Hfresh| |done].
    by repeat split.
  - exfalso. specialize (Hq k b' Hb' Hp). cbn [blocks] in Hq.
    destruct Hp as [Hne _]. apply Hne. by eapply Hfresh.
  - right. 
    assert (b0 = b) as ->.
    { eapply fresh_same_decl_eq; [by eapply Hfresh|done|exact Hdecl|].
      eapply same_decl_trans; [apply (same_decl_set_areas b0 l)|].
      apply layout_same_decl. }
    by exists l.
Qed.

(** What an analyzed block looks like. *)
Lemma analyzed_from_fields (bs : gmap string wb_block.t) (b b' : wb_block.t) :
  analyzed_from bs b b' ->
  exists subs,
    Forall2 (sub_area bs) (wb_block.subblks b) subs /\
    same_decl b b' /\
    let sorted := sort_desc sort_key (int_regs_area b :: subs) in
    let cur := Zsum (rounded_sizes sorted) in
    wb_block.areas b' = placed sorted 0 /\
    wb_block.reg_base b' = placed_reg_base sorted 0 (wb_block.reg_base b) /\
    wb_block.addr_size b' = Some (rounded cur) /\
    wb_block.adr_bits b' = Some (bit_length (cur - 1)).
Proof.
  intros (l & (subs & Hsubs & ->) & ->). exists subs. split; [done|].
  split.
  { eapply same_decl_trans; [apply same_decl_set_areas|apply layout_same_decl]. }
  rewrite layout_fst. simpl. done.
Qed.

Lemma registry_analyzed_lookup (bs bs' : gmap string wb_block.t) (k : string)
    (b' : wb_block.t) :
  registry_analyzed bs bs' -> bs' !! k = Some b' ->
  exists b, bs !! k = Some b /\ (b' = b \/ analyzed_from bs' b b').
Proof.
  intros Ha Hb'. specialize (Ha k). rewrite Hb' in Ha. inversion Ha; subst. eauto.
Qed.

(** The span of an analyzed block is a power of two, and [adr_bits] is its
    exponent. *)
Lemma registry_analyzed_addr_size (bs bs' : gmap string wb_block.t) (k : string)
    (b' : wb_block.t) (s : Z) :
  registry_fresh bs -> registry_analyzed bs bs' ->
  bs' !! k = Some b' -> wb_block.addr_size b' = Some s ->
  exists n, 0 <= n /\ s = 2 ^ n /\ wb_block.adr_bits b' = Some n.
Proof.
  intros Hfresh Ha Hb' Hs.
  destruct (registry_analyzed_lookup _ _ _ _ Ha Hb') as (b & Hb & [->|Hfrom]).
  - destruct (Hfresh k b Hb) as (_ & _ & Hnone & _). congruence.
  - apply analyzed_from_fields in Hfrom as (subs & _ & _ & _ & _ & Hsz & Hbits).
    rewrite Hsz in Hs. injection Hs as <-.
    eexists. split; [apply bit_length_nonneg|]. split; [apply rounded_pow2|done].
Qed.

Lemma placed_elem (l : list wb_area.t) (c : Z) (ar : wb_area.t) :
  ar ∈ placed l c -> exists ar0 c0, ar0 ∈ l /\ ar = place_area ar0 c0.
Proof.
  revert c. induction l as [|a l IH]; intros c Hin; [by apply elem_of_nil in Hin|].
  simpl in Hin. apply elem_of_cons in Hin as [->|Hin].
  - exists a, c. split; [left|done].
  - destruct (IH _ Hin) as (ar0 & c0 & H0 & ->). exists ar0, c0. split; [by right|done].
Qed.

(** The raw sizes of the areas gathered for a block when every repeat count
    is at least one. *)
Lemma gathered_sizes (bs0 bs : gmap string wb_block.t) (b : wb_block.t)
    (subs : list wb_area.t) :
  registry_fresh bs0 -> registry_analyzed bs0 bs ->
  1 <= wb_block.free_reg_addr b ->
  Forall (fun sblk => 1 <= default 1 (xs_reps sblk)) (wb_block.subblks b) ->
  Forall2 (sub_area bs) (wb_block.subblks b) subs ->
  Forall (fun ar => 1 <= wb_area.size ar) (int_regs_area b :: subs).
Proof.
  intros Hfresh Ha Hfree Hreps Hsubs. constructor; [done|].
  induction Hsubs as [|sblk ar sblks subs (bl & s & Hbl & Hs & ->) _ IH]; [constructor|].
  apply Forall_cons_1 in Hreps as [Hr Hreps]. constructor; [|by apply IH].
  destruct (registry_analyzed_addr_size _ _ _ _ _ Hfresh Ha Hbl Hs) as (n & Hn & -> & _).
  simpl. pose proof (Z.pow_pos_nonneg 2 n). nia.
Qed.

(** C1: after [analyze], every area of every block starts at a multiple of
    its rounded size, the rounded size being two to the ceiling of the
    binary logarithm of the raw size. *)
Theorem C1_alignment (bs : gmap string wb_block.t) (fuel : nat) (top : string)
    (out : list print_event) (st' : world) :
  registry_built_ok bs ->
  analyze fuel top (World bs out) = Done st' ->
  forall k b ar, blocks st' !! k = Some b -> ar ∈ wb_block.areas b ->
    1 <= wb_area.size ar /\
    wb_area.adr_bits ar = Some (Z.log2_up (wb_area.size ar)) /\
    wb_area.total_size ar = Z.shiftl 1 (Z.log2_up (wb_area.size ar)) /\
    wb_area.adr ar mod wb_area.total_size ar = 0.
Proof.
  intros Hbuilt Hrun k b' ar Hb' Har.
  assert (Hfresh : registry_fresh bs)
    by (by apply registry_built_fresh, registry_built_ok_built).
  pose proof (analyze_fresh _ _ _ _ _ Hfresh Hrun) as Ha.
  destruct (registry_analyzed_lookup _ _ _ _ Ha Hb') as (b & Hb & [->|Hfrom]).
  { destruct (Hfresh k b Hb) as (Hnil & _). rewrite Hnil in Har.
    by apply elem_of_nil in Har. }
  apply analyzed_from_fields in Hfrom as (subs & Hsubs & _ & Hareas & _).
  destruct (registry_built_ok_sizes _ _ _ Hbuilt Hb) as (Hfree & Hreps).
  assert (Hfree1 : 1 <= wb_block.free_reg_addr b) by lia.
  pose proof (gathered_sizes _ _ _ _ Hfresh Ha Hfree1 Hreps Hsubs) as Hsizes.
  set (sorted := sort_desc sort_key (int_regs_area b :: subs)) in *.
  assert (Hsorted_sizes : Forall (fun ar => 1 <= wb_area.size ar) sorted).
  { unfold sorted. by rewrite <- sort_desc_perm. }
  rewrite Hareas in Har.
  pose proof (placed_aligned sorted (sort_desc_sorted sort_key _) Hsorted_sizes 0) as Hal.
  rewrite Forall_forall in Hal. specialize (Hal ltac:(intros; apply Z.divide_0_r) ar Har).
  destruct (placed_elem _ _ _ Har) as (ar0 & c0 & Hin0 & ->).
  rewrite Forall_forall in Hsorted_sizes. specialize (Hsorted_sizes ar0 Hin0).
  cbn [place_area wb_area.size wb_area.adr_bits wb_area.total_size wb_area.adr] in *.
  rewrite (bit_length_log2_up _ Hsorted_sizes) in *.
  split; [done|]. split; [done|]. split; [done|].
  apply Z.mod_divide in Hal; [done|].
  rewrite Z.shiftl_1_l. apply Z.pow_nonzero; [lia|apply Z.log2_up_nonneg].
Qed.

(** ** The example hierarchy *)

Lemma build_registry_built_ok (els : list xml_block) :
  forall bs0 bs : gmap string wb_block.t,
  build_registry els bs0 = Ok bs -> Forall xml_reps_ok els ->
  registry_built_ok bs0 -> registry_built_ok bs.
Proof.
  induction els as [|el els IH]; intros bs0 bs Hrun Hall Hok0.
  - by injection Hrun as <-.
  - simpl in Hrun. destruct (wb_block_init el) as [bl|e] eqn:Hinit; [|done].
    simpl in Hrun. apply Forall_cons_1 in Hall as [Hel Hall].
    eapply IH; [exact Hrun|done|].
    intros k b Hk. destruct (decide (k = xb_name el)) as [->|Hne].
    + rewrite lookup_insert_eq in Hk. injection Hk as <-. eauto.
    + rewrite lookup_insert_ne in Hk by done. by eapply Hok0.
Qed.

Lemma ex_registry_built_ok : registry_built_ok ex_registry.
Proof.
  apply (build_registry_built_ok ex_decls ∅).
  - vm_compute. reflexivity.
  - apply (bool_decide_unpack _). vm_compute. exact I.
  - intros k b Hk. by rewrite lookup_empty in Hk.
Qed.

Lemma ex_after_top_run : analyze 6 "T" (World ex_registry []) = Done ex_after_top.
Proof. vm_compute. reflexivity. Qed.

Lemma ex_after_vec_run : analyze 6 "V" (World ex_registry []) = Done ex_after_vec.
Proof. vm_compute. reflexivity. Qed.

Lemma C1_alignment_witness :
  registry_built_ok ex_registry /\
  analyze 6 "T" (World ex_registry []) = Done ex_after_top /\
  exists b ar,
    blocks ex_after_top !! "T" = Some b /\ wb_block.areas b !! 1%nat = Some ar /\
    wb_area.size ar = 8 /\ wb_area.adr ar = 16 /\ wb_area.total_size ar = 8 /\
    wb_area.adr ar mod wb_area.total_size ar = 0.
Proof.
  split; [exact ex_registry_built_ok|]. split; [exact ex_after_top_run|].
  destruct (blocks ex_after_top !! "T") as [b|] eqn:Hb; [|by vm_compute in Hb].
  destruct (wb_block.areas b !! 1%nat) as [ar|] eqn:Har;
    [|by (vm_compute in Hb; injection Hb as <-; vm_compute in Har)].
  exists b, ar. split; [done|]. split; [done|].
  assert (Hin : ar ∈ wb_block.areas b) by (by eapply list_elem_of_lookup_2).
  pose proof (C1_alignment ex_registry 6 "T" [] ex_after_top
                ex_registry_built_ok ex_after_top_run "T" b ar Hb Hin)
    as (_ & _ & _ & Hmod).
  vm_compute in Hb. injection Hb as <-. vm_compute in Har. injection Har as <-.
  split; [reflexivity|]. split; [reflexivity|]. split; [reflexivity|]. exact Hmod.
Defined.

(** ** Disjoint ranges *)

Lemma rounded_sizes_lookup (l : list wb_area.t) (i : nat) :
  rounded_sizes l !! i = (fun ar => rounded (wb_area.size ar)) <$> l !! i.
Proof. unfold rounded_sizes. apply list_lookup_fmap. Qed.

Lemma rounded_sizes_nonneg (l : list wb_area.t) :
  Forall (fun t => 0 <= t) (rounded_sizes l).
Proof.
  eapply Forall_impl; [apply rounded_sizes_pos|]. simpl. lia.
Qed.

(** An area placed earlier ends before an area placed later begins. *)
Lemma placed_ordered (l : list wb_area.t) (c : Z) (i j : nat) (ai aj : wb_area.t) :
  (i < j)%nat -> placed l c !! i = Some ai -> placed l c !! j = Some aj ->
  wb_area.adr ai + wb_area.total_size ai <= wb_area.adr aj.
Proof.
  intros Hij Hi Hj. rewrite placed_lookup in Hi, Hj.
  destruct (l !! i) as [a|] eqn:Hai; [|done].
  destruct (l !! j) as [a'|] eqn:Haj; [|done].
  injection Hi as <-. injection Hj as <-. simpl.
  assert (Hri : rounded_sizes l !! i = Some (rounded (wb_area.size a)))
    by (by rewrite rounded_sizes_lookup, Hai).
  pose proof (Zsum_take_lt _ i j _ (rounded_sizes_nonneg l) Hij Hri).
  unfold rounded in *. lia.
Qed.

(** The repeat counts a block was declared with are the sizes of its
    registers. *)
Lemma wb_block_init_sizes (el : xml_block) (b : wb_block.t) :
  wb_block_init el = Ok b ->
  declared_reps (xb_children el) = wb_reg.size <$> wb_block.regs b.
Proof.
  intros Hb. apply list_eq. intros i. rewrite list_lookup_fmap.
  destruct (wb_block.regs b !! i) as [r|] eqn:Hr.
  - by destruct (wb_block_init_bases _ _ Hb i r Hr) as [-> _].
  - apply lookup_ge_None. apply lookup_ge_None in Hr.
    destruct (wb_block_init_spec _ _ Hb) as (_ & _ & _ & _ & _ & Hlen & _).
    unfold declared_reps. rewrite length_fmap. lia.
Qed.

(** A register declared earlier ends before a register declared later
    begins, when no repeat count is negative. *)
Lemma wb_block_init_ordered (el : xml_block) (b : wb_block.t) (i j : nat)
    (ri rj : wb_reg.t) :
  wb_block_init el = Ok b ->
  Forall (fun r => 0 <= wb_reg.size r) (wb_block.regs b) ->
  (i < j)%nat -> wb_block.regs b !! i = Some ri -> wb_block.regs b !! j = Some rj ->
  wb_reg.base ri + wb_reg.size ri <= wb_reg.base rj.
Proof.
  intros Hb Hpos Hij Hi Hj.
  destruct (wb_block_init_bases _ _ Hb i ri Hi) as [Hsi ->].
  destruct (wb_block_init_bases _ _ Hb j rj Hj) as [_ ->].
  assert (Hnn : Forall (fun t => 0 <= t) (declared_reps (xb_children el))).
  { rewrite (wb_block_init_sizes _ _ Hb). by apply Forall_fmap. }
  pose proof (Zsum_take_lt _ i j _ Hnn Hij Hsi). lia.
Qed.

(** Every register lies between address 2 and the end of the local
    registers. *)
Lemma wb_block_init_within (el : xml_block) (b : wb_block.t) (i : nat) (r : wb_reg.t) :
  wb_block_init el = Ok b ->
  Forall (fun r => 0 <= wb_reg.size r) (wb_block.regs b) ->
  wb_block.regs b !! i = Some r ->
  2 <= wb_reg.base r /\ wb_reg.base r + wb_reg.size r <= wb_block.free_reg_addr b.
Proof.
  intros Hb Hpos Hi.
  destruct (wb_block_init_bases _ _ Hb i r Hi) as [Hsi ->].
  destruct (wb_block_init_spec _ _ Hb) as (_ & _ & _ & _ & -> & _).
  assert (Hnn : Forall (fun t => 0 <= t) (declared_reps (xb_children el))).
  { rewrite (wb_block_init_sizes _ _ Hb). by apply Forall_fmap. }
  split.
  - assert (0 <= Zsum (take i (declared_reps (xb_children el)))); [|lia].
    by apply Zsum_nonneg, Forall_take.
  - rewrite <- Z.add_assoc, <- (Zsum_take_S _ _ _ Hsi).
    pose proof (Zsum_take_le _ (S i) Hnn). lia.
Qed.

(** The declaration of a block is the same before and after a run. *)
Lemma registry_analyzed_decl (bs bs' : gmap string wb_block.t) (k : string)
    (b' : wb_block.t) :
  registry_analyzed bs bs' -> bs' !! k = Some b' ->
  exists b, bs !! k = Some b /\ same_decl b b'.
Proof.
  intros Ha Hb'.
  destruct (registry_analyzed_lookup _ _ _ _ Ha Hb') as (b & Hb & [->|Hfrom]).
  - exists b. split; [done|]. by repeat split.
  - exists b. split; [done|].
    by apply analyzed_from_fields in Hfrom as (_ & _ & Hd & _).
Qed.

(** C2: after [analyze], two distinct areas of a block cover disjoint
    address ranges; two distinct registers of a block cover disjoint ranges
    inside the raw span of the local registers, which is the raw size of the
    one area without a target. *)
Theorem C2_no_overlap (bs : gmap string wb_block.t) (fuel : nat) (top : string)
    (out : list print_event) (st' : world) :
  registry_built bs ->
  analyze fuel top (World bs out) = Done st' ->
  forall k b, blocks st' !! k = Some b ->
    (forall (i j : nat) ai aj, i <> j ->
       wb_block.areas b !! i = Some ai -> wb_block.areas b !! j = Some aj ->
       forall x, ~ (wb_area.adr ai <= x < wb_area.adr ai + wb_area.total_size ai /\
                    wb_area.adr aj <= x < wb_area.adr aj + wb_area.total_size aj)) /\
    (Forall (fun r => 0 <= wb_reg.size r) (wb_block.regs b) ->
     (forall (i j : nat) ri rj, i <> j ->
        wb_block.regs b !! i = Some ri -> wb_block.regs b !! j = Some rj ->
        forall x, ~ (wb_reg.base ri <= x < wb_reg.base ri + wb_reg.size ri /\
                     wb_reg.base rj <= x < wb_reg.base rj + wb_reg.size rj)) /\
     (forall (i : nat) r, wb_block.regs b !! i = Some r ->
        2 <= wb_reg.base r /\
        wb_reg.base r + wb_reg.size r <= wb_block.free_reg_addr b) /\
     (forall ar, ar ∈ wb_block.areas b -> wb_area.obj ar = None ->
        wb_area.size ar = wb_block.free_reg_addr b)).
Proof.
  intros Hbuilt Hrun k b' Hb'.
  pose proof (registry_built_fresh _ Hbuilt) as Hfresh.
  pose proof (analyze_fresh _ _ _ _ _ Hfresh Hrun) as Ha.
  destruct (registry_analyzed_decl _ _ _ _ Ha Hb') as (b & Hb & Hdecl).
  destruct (Hbuilt k b Hb) as (el & Hel).
  destruct Hdecl as (_ & Hregs & Hfree & _).
  split.
  - destruct (registry_analyzed_lookup _ _ _ _ Ha Hb') as (b1 & Hb1 & [->|Hfrom]).
    { destruct (Hfresh k b1 Hb1) as (-> & _). intros i j ai aj _ Hi. done. }
    apply analyzed_from_fields in Hfrom as (subs & _ & _ & Hareas & _).
    rewrite Hareas. intros i j ai aj Hij Hi Hj x.
    destruct (Nat.lt_total i j) as [Hlt|[->|Hlt]]; [|done|].
    + pose proof (placed_ordered _ _ _ _ _ _ Hlt Hi Hj). lia.
    + pose proof (placed_ordered _ _ _ _ _ _ Hlt Hj Hi). lia.
  - rewrite Hregs, Hfree. intros Hpos. split; [|split].
    + intros i j ri rj Hij Hi Hj x.
      destruct (Nat.lt_total i j) as [Hlt|[->|Hlt]]; [|done|].
      * pose proof (wb_block_init_ordered _ _ _ _ _ _ Hel Hpos Hlt Hi Hj). lia.
      * pose proof (wb_block_init_ordered _ _ _ _ _ _ Hel Hpos Hlt Hj Hi). lia.
    + intros i r Hi. by eapply wb_block_init_within.
    + intros ar Har Hobj.
      destruct (registry_analyzed_lookup _ _ _ _ Ha Hb') as (b1 & Hb1 & [->|Hfrom]).
      { destruct (Hfresh k b1 Hb1) as (Hnil & _). rewrite Hnil in Har.
        by apply elem_of_nil in Har. }
      assert (b1 = b) as -> by congruence.
      apply analyzed_from_fields in Hfrom as (subs & Hsubs & _ & Hareas & _).
      rewrite Hareas in Har. apply placed_elem in Har as (ar0 & c0 & Hin & ->).
      rewrite <- sort_desc_perm in Hin. cbn [place_area wb_area.obj wb_area.size] in *.
      apply elem_of_cons in Hin as [->|Hin]; [done|].
      apply list_elem_of_lookup in Hin as (n & Hn).
      destruct (Forall2_lookup_r _ _ _ n ar0 Hsubs Hn)
        as (sblk & _ & (bl & s & _ & _ & ->)). done.
Qed.

Lemma C2_no_overlap_witness :
  registry_built ex_registry /\
  analyze 6 "T" (World ex_registry []) = Done ex_after_top /\
  (exists b a0 a1,
     blocks ex_after_top !! "T" = Some b /\
     wb_block.areas b !! 0%nat = Some a0 /\ wb_block.areas b !! 1%nat = Some a1 /\
     forall x, ~ (wb_area.adr a0 <= x < wb_area.adr a0 + wb_area.total_size a0 /\
                  wb_area.adr a1 <= x < wb_area.adr a1 + wb_area.total_size a1)) /\
  (exists b r0 r1,
     blocks ex_after_top !! "B" = Some b /\
     Forall (fun r => 0 <= wb_reg.size r) (wb_block.regs b) /\
     wb_block.regs b !! 0%nat = Some r0 /\ wb_block.regs b !! 1%nat = Some r1 /\
     forall x, ~ (wb_reg.base r0 <= x < wb_reg.base r0 + wb_reg.size r0 /\
                  wb_reg.base r1 <= x < wb_reg.base r1 + wb_reg.size r1)).
Proof.
  assert (Hbuilt : registry_built ex_registry)
    by exact (registry_built_ok_built _ ex_registry_built_ok).
  split; [exact Hbuilt|]. split; [exact ex_after_top_run|]. split.
  - destruct (blocks ex_after_top !! "T") as [b|] eqn:Hb; [|by vm_compute in Hb].
    destruct (C2_no_overlap ex_registry 6 "T" [] ex_after_top Hbuilt
                ex_after_top_run "T" b Hb) as [Hareas _].
    vm_compute in Hb. injection Hb as <-.
    eexists _, _, _. split; [reflexivity|]. split; [reflexivity|]. split; [reflexivity|].
    apply (Hareas 0%nat 1%nat); [lia|reflexivity|reflexivity].
  - destruct (blocks ex_after_top !! "B") as [b|] eqn:Hb; [|by vm_compute in Hb].
    destruct (C2_no_overlap ex_registry 6 "T" [] ex_after_top Hbuilt
                ex_after_top_run "B" b Hb) as [_ Hregs].
    vm_compute in Hb. injection Hb as <-.
    match type of Hregs with
    | ?P -> _ =>
        assert (Hpos : P)
          by (vm_compute; repeat (apply Forall_cons_2; [discriminate|]);
              apply Forall_nil_2)
    end.
    eexists _, _, _. split; [reflexivity|].
    split; [exact Hpos|].
    split; [reflexivity|]. split; [reflexivity|].
    destruct (Hregs Hpos) as (Hdis & _).
    apply (Hdis 0%nat 1%nat); [lia|reflexivity|reflexivity].
Defined.

(** ** The allocator, step by step *)

Lemma unplaced_place_area (ar : wb_area.t) (c : Z) :
  unplaced (place_area ar c) = unplaced ar.
Proof. reflexivity. Qed.

Lemma unplaced_placed (l : list wb_area.t) (c : Z) :
  unplaced <$> placed l c = unplaced <$> l.
Proof.
  revert c. induction l as [|ar l IH]; intros c; [done|].
  cbn [placed]. rewrite !fmap_cons, IH. done.
Qed.

Lemma unplaced_sub_area (bs : gmap string wb_block.t) (sblks : list xml_subblock)
    (subs : list wb_area.t) :
  Forall2 (sub_area bs) sblks subs -> unplaced <$> subs = subs.
Proof.
  induction 1 as [|sblk ar sblks subs (bl & s & _ & _ & ->) _ IH]; [done|].
  rewrite fmap_cons, IH. done.
Qed.

Lemma total_size_placed (l : list wb_area.t) (c : Z) :
  wb_area.total_size <$> placed l c = rounded_sizes l.
Proof.
  revert c. induction l as [|ar l IH]; intros c; [done|].
  cbn [placed]. rewrite fmap_cons, IH. done.
Qed.

Lemma sort_desc_fmap_unplaced (l : list wb_area.t) :
  unplaced <$> sort_desc sort_key l = sort_desc sort_key (unplaced <$> l).
Proof.
  induction l as [|x l IH]; [done|]. cbn [sort_desc]. rewrite fmap_cons.
  cbn [sort_desc]. rewrite <- IH. clear IH.
  induction (sort_desc sort_key l) as [|y l' IH']; [done|].
  cbn [insert_desc]. rewrite !fmap_cons. cbn [insert_desc].
  change (sort_key (unplaced x)) with (sort_key x).
  change (sort_key (unplaced y)) with (sort_key y).
  destruct (sort_key x <? sort_key y); [|done].
  rewrite fmap_cons, IH'. done.
Qed.

Lemma Zsum_rounded_sizes_pos (l : list wb_area.t) :
  l <> [] -> 1 <= Zsum (rounded_sizes l).
Proof.
  destruct l as [|ar l]; [done|]. intros _.
  rewrite rounded_sizes_cons, Zsum_cons.
  pose proof (rounded_pos (wb_area.size ar)).
  pose proof (Zsum_pos_nonneg _ (rounded_sizes_pos l)). lia.
Qed.

(** The allocator of an analyzed block, in the words of its description:
    the areas in construction order, their stable descending sort, the
    running cursor, and the rounding of the final cursor. *)
Lemma allocator_steps (bs : gmap string wb_block.t) (b b' : wb_block.t) :
  analyzed_from bs b b' ->
  exists subs bits,
    Forall2 (sub_area bs) (wb_block.subblks b) subs /\
    let constructed := int_regs_area b :: subs in
    let cursor := Zsum (wb_area.total_size <$> wb_block.areas b') in
    unplaced <$> wb_block.areas b' = sort_desc sort_key constructed /\
    (forall (i : nat) ar, wb_block.areas b' !! i = Some ar ->
       wb_area.adr ar = Zsum (take i (wb_area.total_size <$> wb_block.areas b')) /\
       wb_area.adr_bits ar = Some (bit_length (wb_area.size ar - 1)) /\
       wb_area.total_size ar = Z.shiftl 1 (bit_length (wb_area.size ar - 1))) /\
    wb_block.addr_size b' = Some (2 ^ bits) /\
    wb_block.adr_bits b' = Some bits /\
    0 <= bits /\ cursor <= 2 ^ bits /\
    (forall j, 0 <= j -> cursor <= 2 ^ j -> bits <= j).
Proof.
  intros Hfrom.
  apply analyzed_from_fields in Hfrom as (subs & Hsubs & _ & Hareas & _ & Hsz & Hbits).
  set (sorted := sort_desc sort_key (int_regs_area b :: subs)) in *.
  exists subs, (bit_length (Zsum (rounded_sizes sorted) - 1)).
  split; [done|]. cbn zeta. rewrite Hareas, total_size_placed.
  assert (Hne : sorted <> []).
  { intros Hnil. apply (f_equal length) in Hnil. unfold sorted in Hnil.
    rewrite sort_desc_length in Hnil. done. }
  pose proof (Zsum_rounded_sizes_pos _ Hne) as Hcur.
  split; [|split; [|split; [|split; [|split; [|split]]]]].
  - rewrite unplaced_placed. unfold sorted. rewrite sort_desc_fmap_unplaced.
    rewrite fmap_cons, (unplaced_sub_area _ _ _ Hsubs). done.
  - intros i ar Hi. rewrite placed_lookup in Hi.
    destruct (sorted !! i) as [ar0|]; [|done]. injection Hi as <-.
    simpl. split; [lia|done].
  - by rewrite Hsz, rounded_pow2.
  - done.
  - apply bit_length_nonneg.
  - rewrite <- rounded_pow2. by apply rounded_ge.
  - intros j Hj Hle. by apply bit_length_least.
Qed.

(** C3: the allocator sorts the areas by raw size, descending and stable,
    places each at the running cursor, which starts at 0 and advances by the
    rounded size, and rounds the final cursor up to the least power of two;
    with local registers of raw size 8 and two references of rounded sizes 16
    and 4 the areas are 16, 8, 4 at 0, 16, 24, the cursor ends at 28, the
    span is 32 and its exponent 5. *)
Theorem C3_allocator (bs : gmap string wb_block.t) (fuel : nat) (top : string)
    (out : list print_event) (st' : world) :
  registry_fresh bs ->
  analyze fuel top (World bs out) = Done st' ->
  forall k b b', bs !! k = Some b -> blocks st' !! k = Some b' ->
    wb_block.areas b' <> [] ->
    exists subs bits,
      Forall2 (sub_area (blocks st')) (wb_block.subblks b) subs /\
      let constructed := int_regs_area b :: subs in
      let sorted := unplaced <$> wb_block.areas b' in
      let cursor := Zsum (wb_area.total_size <$> wb_block.areas b') in
      (* the sort *)
      Permutation sorted constructed /\
      StronglySorted (fun a a' => wb_area.size a' <= wb_area.size a) sorted /\
      (forall s, filter (fun a => wb_area.size a = s) sorted =
                 filter (fun a => wb_area.size a = s) constructed) /\
      (* the cursor *)
      (forall (i : nat) ar, wb_block.areas b' !! i = Some ar ->
         wb_area.adr ar = Zsum (take i (wb_area.total_size <$> wb_block.areas b')) /\
         wb_area.adr_bits ar = Some (bit_length (wb_area.size ar - 1)) /\
         wb_area.total_size ar = Z.shiftl 1 (bit_length (wb_area.size ar - 1))) /\
      (* the span of the block *)
      wb_block.addr_size b' = Some (2 ^ bits) /\
      wb_block.adr_bits b' = Some bits /\
      0 <= bits /\ cursor <= 2 ^ bits /\
      (forall j, 0 <= j -> cursor <= 2 ^ j -> bits <= j) /\
      (* the scenario *)
      (wb_block.free_reg_addr b = 8 ->
       wb_area.reps <$> subs = [1; 1] ->
       wb_area.size <$> subs = [16; 4] \/ wb_area.size <$> subs = [4; 16] ->
       wb_area.size <$> wb_block.areas b' = [16; 8; 4] /\
       wb_area.adr <$> wb_block.areas b' = [0; 16; 24] /\
       cursor = 28 /\ bits = 5).
Proof.
  intros Hfresh Hrun k b b' Hb Hb' Hne.
  pose proof (analyze_fresh _ _ _ _ _ Hfresh Hrun) as Ha.
  destruct (registry_analyzed_lookup _ _ _ _ Ha Hb') as (b1 & Hb1 & [->|Hfrom]).
  { destruct (Hfresh k b1 Hb1) as (Hnil & _). done. }
  assert (b1 = b) as -> by congruence.
  pose proof (analyzed_from_fields _ _ _ Hfrom) as (subs0 & Hsubs0 & _ & Hareas & _).
  destruct (allocator_steps _ _ _ Hfrom)
    as (subs & bits & Hsubs & Hsort & Hcur & Hsz & Hbits & H0 & Hle & Hleast).
  exists subs, bits. split; [done|]. cbn zeta.
  rewrite Hsort.
  split; [symmetry; apply sort_desc_perm|].
  split; [apply (sort_desc_sorted sort_key)|].
  split; [intros s; apply (sort_desc_filter sort_key)|].
  split; [done|]. split; [done|]. split; [done|]. split; [done|].
  split; [done|]. split; [done|].
  intros Hfree _ Hsizes.
  (* the sizes decide the order, whatever the names *)
  assert (Hsz3 : wb_area.size <$> wb_block.areas b' = [16; 8; 4] /\
                 wb_area.total_size <$> wb_block.areas b' = [16; 8; 4]).
  { assert (Hsz' : wb_area.size <$> wb_block.areas b' =
                   wb_area.size <$> (unplaced <$> wb_block.areas b')).
    { rewrite <- list_fmap_compose. done. }
    assert (Hts : wb_area.total_size <$> wb_block.areas b' =
                  rounded <$> (wb_area.size <$> wb_block.areas b')).
    { rewrite <- list_fmap_compose. apply list_eq. intros i.
      rewrite !list_lookup_fmap.
      destruct (wb_block.areas b' !! i) as [ar|] eqn:Hi; [|done].
      destruct (Hcur i ar Hi) as (_ & _ & Ht). simpl. by rewrite Ht. }
    rewrite Hts, Hsz', Hsort.
    unfold int_regs_area. rewrite Hfree.
    destruct subs as [|s1 [|s2 [|s3 subs]]]; destruct Hsizes as [Hs|Hs]; try done;
      injection Hs as Hs1 Hs2; destruct s1, s2; simpl in Hs1, Hs2; subst;
      vm_compute; done. }
  destruct Hsz3 as [Hsz3 Hts3]. split; [done|].
  assert (Hcursor : Zsum (wb_area.total_size <$> wb_block.areas b') = 28)
    by (by rewrite Hts3).
  split; [|split; [done|]].
  - apply list_eq. intros i. rewrite list_lookup_fmap.
    destruct (wb_block.areas b' !! i) as [ar|] eqn:Hi.
    + destruct (Hcur i ar Hi) as (Hadr & _). simpl. rewrite Hadr, Hts3.
      apply lookup_lt_Some in Hi.
      assert (Hlen : length (wb_block.areas b') = 3%nat).
      { apply (f_equal length) in Hsz3. by rewrite length_fmap in Hsz3. }
      destruct i as [|[|[|i]]]; [done|done|done|lia].
    + apply lookup_ge_None in Hi. symmetry. apply lookup_ge_None.
      apply (f_equal length) in Hsz3. rewrite length_fmap in Hsz3. simpl in *. lia.
  - rewrite Hcursor in Hle, Hleast.
    assert (bits <= 5) by (apply Hleast; lia).
    destruct (decide (bits = 5)) as [->|Hn]; [done|]. exfalso.
    assert (2 ^ bits <= 2 ^ 4) by (apply Z.pow_le_mono_r; lia). lia.
Qed.

Lemma C3_allocator_witness :
  registry_fresh ex_registry /\
  analyze 6 "T" (World ex_registry []) = Done ex_after_top /\
  exists b b',
    ex_registry !! "T" = Some b /\ blocks ex_after_top !! "T" = Some b' /\
    wb_block.areas b' <> [] /\ wb_block.free_reg_addr b = 8 /\
    wb_area.size <$> wb_block.areas b' = [16; 8; 4] /\
    wb_area.adr <$> wb_block.areas b' = [0; 16; 24] /\
    Zsum (wb_area.total_size <$> wb_block.areas b') = 28 /\
    wb_block.addr_size b' = Some 32 /\ wb_block.adr_bits b' = Some 5.
Proof.
  assert (Hfresh : registry_fresh ex_registry)
    by exact (registry_built_fresh _ (registry_built_ok_built _ ex_registry_built_ok)).
  split; [exact Hfresh|]. split; [exact ex_after_top_run|].
  destruct (ex_registry !! "T") as [b|] eqn:Hb; [|by vm_compute in Hb].
  destruct (blocks ex_after_top !! "T") as [b'|] eqn:Hb'; [|by vm_compute in Hb'].
  assert (Hne : wb_block.areas b' <> []).
  { vm_compute in Hb'. injection Hb' as <-. discriminate. }
  assert (Hfree : wb_block.free_reg_addr b = 8).
  { vm_compute in Hb. injection Hb as <-. reflexivity. }
  destruct (C3_allocator ex_registry 6 "T" [] ex_after_top Hfresh ex_after_top_run
              "T" b b' Hb Hb' Hne)
    as (subs & bits & Hsubs & _ & _ & _ & _ & Hsz & Hbits & _ & _ & _ & Hscen).
  assert (Hsubs' : wb_area.reps <$> subs = [1; 1] /\ wb_area.size <$> subs = [4; 16]).
  { vm_compute in Hb. injection Hb as <-. cbn [wb_block.subblks] in Hsubs.
    apply Forall2_cons_inv_l in Hsubs as (a1 & subs1 & (bl1 & s1 & Hl1 & Hs1 & ->) & Hsubs & ->).
    apply Forall2_cons_inv_l in Hsubs as (a2 & subs2 & (bl2 & s2 & Hl2 & Hs2 & ->) & Hsubs & ->).
    apply Forall2_nil_inv_l in Hsubs as ->.
    vm_compute in Hl1. injection Hl1 as <-. vm_compute in Hs1. injection Hs1 as <-.
    vm_compute in Hl2. injection Hl2 as <-. vm_compute in Hs2. injection Hs2 as <-.
    split; reflexivity. }
  destruct Hsubs' as [Hreps Hsizes].
  destruct (Hscen Hfree Hreps (or_intror Hsizes)) as (H1 & H2 & H3 & ->).
  exists b, b'. repeat (split; [done|]). done.
Defined.

(** ** At most one analysis per block *)

(** C8: in a run from a fresh registry keyed by block names, no block's
    analysis is printed twice; a block has areas exactly when its analysis
    was printed, and then it has one area for the local registers and one
    per reference, each sized from the one analysis of the block it refers
    to. *)
Theorem C8_analyzed_once (bs : gmap string wb_block.t) (fuel : nat) (top : string)
    (out : list print_event) (st' : world) :
  registry_fresh bs -> registry_named bs ->
  analyze fuel top (World bs out) = Done st' ->
  exists evs,
    stdout st' = out ++ evs /\
    NoDup (printed_names evs) /\
    forall k b', blocks st' !! k = Some b' ->
      (wb_block.areas b' <> [] <-> k ∈ printed_names evs) /\
      (wb_block.areas b' <> [] ->
       length (wb_block.areas b') = S (length (wb_block.subblks b')) /\
       exists subs,
         Forall2 (sub_area (blocks st')) (wb_block.subblks b') subs /\
         Permutation (unplaced <$> wb_block.areas b') (int_regs_area b' :: subs)).
Proof.
  intros Hfresh Hnamed Hrun.
  destruct (analyze_done_lookup _ _ _ _ Hrun) as (self & Hself).
  assert (Htop : top ∈ unanalyzed bs).
  { apply elem_of_unanalyzed. exists self. split; [done|]. by apply (Hfresh top). }
  destruct (analyze_rec_trace fuel top _ _ Hrun Htop)
    as (keys & evs & Hout & Hnd & Hnames & Hkeys).
  cbn [blocks stdout] in *.
  assert (Heq : keys = printed_names evs).
  { apply list_eq_Forall2. eapply Forall2_impl; [exact Hnames|].
    simpl. intros k n (b & Hb & <-). symmetry. by apply Hnamed. }
  subst keys.
  pose proof (analyze_fresh _ _ _ _ _ Hfresh Hrun) as Ha.
  exists evs. split; [done|]. split; [done|].
  intros k b' Hb'.
  destruct (registry_analyzed_lookup _ _ _ _ Ha Hb') as (b & Hb & Hcase).
  split.
  - rewrite Hkeys, !elem_of_unanalyzed. split.
    + intros Hne. split.
      * exists b. split; [done|]. by apply (Hfresh k).
      * intros (b1 & Hb1 & Hnil). congruence.
    + intros [_ Hno] Hnil. apply Hno. eauto.
  - intros Hne. destruct Hcase as [->|Hfrom].
    { exfalso. apply Hne. by apply (Hfresh k). }
    destruct (allocator_steps _ _ _ Hfrom) as (subs & bits & Hsubs & Hsort & _).
    apply analyzed_from_fields in Hfrom as (_ & _ & (_ & _ & Hfree & Hsub & _) & _).
    cbn zeta in Hsort.
    assert (Hperm : Permutation (unplaced <$> wb_block.areas b') (int_regs_area b :: subs)).
    { rewrite Hsort. symmetry. apply sort_desc_perm. }
    split.
    + apply Permutation_length in Hperm. rewrite length_fmap in Hperm.
      rewrite Hperm, Hsub. simpl. f_equal. symmetry. by eapply Forall2_length.
    + exists subs. rewrite Hsub. split; [done|].
      unfold int_regs_area in *. by rewrite Hfree.
Qed.

Lemma ex_after_diamond_run : analyze 7 "D" (World ex_registry []) = Done ex_after_diamond.
Proof. vm_compute. reflexivity. Qed.

Lemma ex_registry_named : registry_named ex_registry.
Proof.
  change (map_Forall (fun k b => wb_block.name b = k) ex_registry).
  apply (bool_decide_unpack _). vm_compute. exact I.
Qed.

Lemma C8_analyzed_once_witness :
  registry_fresh ex_registry /\ registry_named ex_registry /\
  analyze 7 "D" (World ex_registry []) = Done ex_after_diamond /\
  printed_names (stdout ex_after_diamond) = ["B"; "A"; "T"; "D"]%string /\
  NoDup (printed_names (stdout ex_after_diamond)) /\
  exists b', blocks ex_after_diamond !! "B" = Some b' /\
             length (wb_block.areas b') = S (length (wb_block.subblks b')).
Proof.
  assert (Hfresh : registry_fresh ex_registry)
    by exact (registry_built_fresh _ (registry_built_ok_built _ ex_registry_built_ok)).
  split; [exact Hfresh|]. split; [exact ex_registry_named|].
  split; [exact ex_after_diamond_run|]. split; [vm_compute; reflexivity|].
  destruct (C8_analyzed_once ex_registry 7 "D" [] ex_after_diamond Hfresh
              ex_registry_named ex_after_diamond_run) as (evs & Hout & Hnd & Hall).
  simpl in Hout. subst evs. split; [exact Hnd|].
  destruct (blocks ex_after_diamond !! "B") as [b'|] eqn:Hb'; [|by vm_compute in Hb'].
  exists b'. split; [done|].
  apply (Hall "B" b' Hb'). vm_compute in Hb'. injection Hb' as <-. discriminate.
Defined.

(** ** Strings *)

Lemma append_assoc (s1 s2 s3 : string) : (s1 +:+ s2) +:+ s3 = s1 +:+ (s2 +:+ s3).
Proof.
  induction s1 as [|c s1 IH]; [done|].
  change (String c ((s1 +:+ s2) +:+ s3) = String c (s1 +:+ (s2 +:+ s3))).
  by rewrite IH.
Qed.

Lemma append_nil_r (s : string) : s +:+ "" = s.
Proof.
  induction s as [|c s IH]; [done|].
  change (String c (s +:+ "") = String c s). by rewrite IH.
Qed.

Lemma length_append (s1 s2 : string) :
  String.length (s1 +:+ s2) = (String.length s1 + String.length s2)%nat.
Proof.
  induction s1 as [|c s1 IH]; [done|].
  change (S (String.length (s1 +:+ s2)) = S (String.length s1 + String.length s2)).
  by rewrite IH.
Qed.

(** ** Dictionaries of accumulated text *)

Lemma lookup_dict_app (d delta : gmap string string) (k : string) :
  dict_app d delta !! k =
  match d !! k, delta !! k with
  | Some a, Some b => Some (a +:+ b)
  | Some a, None => Some a
  | None, Some b => Some b
  | None, None => None
  end.
Proof.
  unfold dict_app. rewrite lookup_union_with.
  by destruct (d !! k), (delta !! k).
Qed.

Lemma dict_app_empty_r (d : gmap string string) : dict_app d ∅ = d.
Proof.
  apply map_eq. intros k. rewrite lookup_dict_app, lookup_empty. by destruct (d !! k).
Qed.

Lemma dict_app_empty_l (d : gmap string string) : dict_app ∅ d = d.
Proof.
  apply map_eq. intros k. rewrite lookup_dict_app, lookup_empty. by destruct (d !! k).
Qed.

Lemma dict_app_assoc (d1 d2 d3 : gmap string string) :
  dict_app (dict_app d1 d2) d3 = dict_app d1 (dict_app d2 d3).
Proof.
  apply map_eq. intros k. rewrite !lookup_dict_app.
  destruct (d1 !! k), (d2 !! k), (d3 !! k); try done. by rewrite append_assoc.
Qed.

Lemma dict_app_singleton (d : gmap string string) (k t : string) :
  dict_app d {[k := t]} = <[k := default ""%string (d !! k) +:+ t]> d.
Proof.
  apply map_eq. intros k'. rewrite lookup_dict_app.
  destruct (decide (k = k')) as [<-|Hne].
  - rewrite lookup_singleton_eq, lookup_insert_eq. by destruct (d !! k).
  - rewrite lookup_singleton_ne, lookup_insert_ne by done. by destruct (d !! k').
Qed.

(** ** [add_templ] *)

(** The loop of [add_templ] appends the text of the lines to the section. *)
Lemma add_line_foldl (key : string) (indent : Z) (lines : list string) :
  forall (d : gmap string string) (v acc : string),
  d !! key = Some (v +:+ acc) ->
  foldl (add_line key indent) d lines =
  <[key := v +:+ foldl (fun acc ln => if String.eqb ln "" then acc
                                      else acc +:+ (py_repeat indent " " +:+ ln))
                       acc lines]> d.
Proof.
  induction lines as [|ln lines IH]; intros d v acc Hd.
  - simpl. symmetry. by apply insert_id.
  - cbn [foldl]. unfold add_line at 2.
    destruct (String.eqb ln "") eqn:Hln.
    + by apply IH.
    + rewrite Hd. cbn [default from_option id]. rewrite append_assoc.
      erewrite IH; [|by rewrite lookup_insert_eq].
      by rewrite insert_insert_eq.
Qed.

Lemma add_templ_eq (self : wb_block.t) (key value : string) (indent : Z) :
  add_templ self key value indent =
  set_templ_dict self
    (<[key := default ""%string (wb_block.templ_dict self !! key) +:+
              templ_text indent value]> (wb_block.templ_dict self)).
Proof.
  unfold add_templ, templ_text. f_equal.
  destruct (wb_block.templ_dict self !! key) as [v|] eqn:Hv; cbn [default from_option id].
  - apply add_line_foldl. by rewrite append_nil_r.
  - erewrite (add_line_foldl _ _ _ _ ""%string ""%string);
      [|by rewrite lookup_insert_eq].
    by rewrite insert_insert_eq.
Qed.

(** ** Steps that only append *)

Lemma set_templ_dict_twice (b : wb_block.t) (d1 d2 : gmap string string) :
  set_templ_dict (set_templ_dict b d1) d2 = set_templ_dict b d2.
Proof. reflexivity. Qed.

Lemma set_templ_dict_id (b : wb_block.t) : set_templ_dict b (wb_block.templ_dict b) = b.
Proof. by destruct b. Qed.

Lemma appends_id : appends (fun b => b).
Proof.
  intros b. simpl. rewrite dict_app_empty_r. symmetry. apply set_templ_dict_id.
Qed.

Lemma appends_add_templ (key value : string) (indent : Z) :
  appends (fun b => add_templ b key value indent).
Proof.
  intros b. rewrite !add_templ_eq. unfold clear_dict. simpl.
  rewrite lookup_empty. cbn [default from_option id]. f_equal.
  rewrite insert_empty. by rewrite dict_app_singleton.
Qed.

(** An appending step leaves the block as it is, the dictionary apart. *)
Lemma appends_clear (f : wb_block.t -> wb_block.t) (b : wb_block.t) :
  appends f -> clear_dict (f b) = clear_dict b.
Proof. intros Hf. by rewrite (Hf b). Qed.

Lemma appends_set (f : wb_block.t -> wb_block.t) (b : wb_block.t)
    (d : gmap string string) :
  appends f -> set_templ_dict (f b) d = set_templ_dict b d.
Proof. intros Hf. by rewrite (Hf b). Qed.

Lemma appends_dict (f : wb_block.t -> wb_block.t) (b : wb_block.t) :
  appends f ->
  wb_block.templ_dict (f b) =
  dict_app (wb_block.templ_dict b) (wb_block.templ_dict (f (clear_dict b))).
Proof. intros Hf. by rewrite (Hf b) at 1. Qed.

Lemma appends_compose (f g : wb_block.t -> wb_block.t) :
  appends f -> appends g -> appends (fun b => g (f b)).
Proof.
  intros Hf Hg b.
  rewrite (Hg (f b)), (appends_clear f b Hf), (appends_dict f b Hf).
  rewrite (Hf b) at 1. rewrite set_templ_dict_twice, dict_app_assoc.
  do 2 f_equal.
  rewrite (appends_dict g (f (clear_dict b)) Hg).
  by rewrite (appends_clear f (clear_dict b) Hf).
Qed.

Lemma appends_foldl {X : Type} (step : X -> wb_block.t -> wb_block.t) (l : list X) :
  (forall x, appends (step x)) ->
  appends (fun b => foldl (fun b x => step x b) b l).
Proof.
  intros Hstep. induction l as [|x l IH]; [apply appends_id|].
  cbn [foldl]. apply (appends_compose (step x) _ (Hstep x) IH).
Qed.

Lemma appends_wb_reg_gen_vhdl (reg : wb_reg.t) : appends (wb_reg_gen_vhdl reg).
Proof.
  unfold wb_reg_gen_vhdl. destruct (wb_reg_package reg) as [dt dtb].
  pose proof (appends_add_templ "p_package" dt 0) as H1.
  pose proof (appends_add_templ "p_package_body" dtb 0) as H2.
  pose proof (appends_add_templ "signal_ports" (wb_reg_port reg) 4) as H3.
  pose proof (appends_foldl
                (fun i b => add_templ b "register_access" (case_arm reg i) 10)
                (seqZ 0 (wb_reg.size reg))
                (fun i => appends_add_templ _ _ _)) as H4.
  exact (appends_compose _ _ (appends_compose _ _ (appends_compose _ _ H1 H2) H3) H4).
Qed.

(** ** The loops over the areas only append *)

Lemma p_prepend_clear (p : ports) : p_prepend (p_self p) (p_clear p) = p.
Proof.
  destruct p as [self n a b]. unfold p_prepend, p_clear. simpl.
  by rewrite dict_app_empty_r, set_templ_dict_id.
Qed.

(** Entering a loop after an appending step. *)
Lemma p_appends_after {X : Type} (F : ports -> result (X * ports))
    (f : wb_block.t -> wb_block.t) (n : Z) (a b : list Z) (self : wb_block.t) :
  p_appends F -> appends f ->
  F (Ports (f self) n a b) =
  match F (Ports (f (clear_dict self)) n a b) with
  | Ok (x, p') => Ok (x, p_prepend self p')
  | Raise e => Raise e
  end.
Proof.
  intros HF Hf.
  rewrite (HF (Ports (f self) n a b)), (HF (Ports (f (clear_dict self)) n a b)).
  unfold p_clear. cbn [p_self n_ports ar_addresses ar_adr_bits].
  rewrite (appends_clear f self Hf), (appends_clear f (clear_dict self) Hf).
  change (clear_dict (clear_dict self)) with (clear_dict self).
  destruct (F (Ports (clear_dict self) n a b)) as [[x p']|e]; [|done].
  unfold p_prepend. cbn [p_self n_ports ar_addresses ar_adr_bits].
  rewrite (appends_set f self _ Hf), (appends_dict f self Hf).
  cbn [set_templ_dict wb_block.templ_dict].
  by rewrite dict_app_assoc.
Qed.

Lemma connect_instances_appends {X : Type} (x : X) (blocks : gmap string wb_block.t)
    (ar : wb_area.t) (indices : list Z) :
  forall base nport,
  p_appends (fun p => p' ← connect_instances blocks ar indices base nport p; Ok (x, p')).
Proof.
  induction indices as [|i rest IH]; intros base nport p.
  - simpl. by rewrite p_prepend_clear.
  - cbn [connect_instances]. cbn [p_clear p_self n_ports ar_addresses ar_adr_bits].
    destruct (area_obj blocks ar) as [bl|e]; [|done]. cbn [mbind result_bind].
    destruct (obj_addr_size bl) as [step|e]; [|done]. cbn [mbind result_bind].
    destruct (obj_adr_bits bl) as [bits|e]; [|done]. cbn [mbind result_bind].
    destruct (area_name ar) as [name|e]; [|done]. cbn [mbind result_bind].
    exact (p_appends_after
             (fun p => p' ← connect_instances blocks ar rest (base + step) (nport + 1) p;
                       Ok (x, p'))
             (fun b => add_templ b "cont_assigns"
                         (name +:+ "_wb_s_i(" +:+ py_str i +:+ ")  <= " +:+ "wb_s_o(" +:+
                          py_str nport +:+ ");" +:+ nl) 4)
             (n_ports p) (ar_addresses p ++ [base]) (ar_adr_bits p ++ [bits]) (p_self p)
             (IH _ _) (appends_add_templ _ _ _)).
Qed.

(** A loop that only appends returns the block it was given, the
    dictionary apart. *)
Lemma p_appends_clear {X : Type} (F : ports -> result (X * ports)) (p : ports)
    (x : X) (p1 : ports) :
  p_appends F -> F (p_clear p) = Ok (x, p1) ->
  clear_dict (p_self p1) = clear_dict (p_self p).
Proof.
  intros HF Hrun. pose proof (HF (p_clear p)) as Hlaw.
  change (p_clear (p_clear p)) with (p_clear p) in Hlaw.
  rewrite Hrun in Hlaw. injection Hlaw as Hp1. by rewrite Hp1.
Qed.

Lemma p_appends_bind {X Y : Type} (F : ports -> result (X * ports))
    (G : X -> ports -> result (Y * ports)) :
  p_appends F -> (forall x, p_appends (G x)) ->
  p_appends (fun p => '(x, p1) ← F p; G x p1).
Proof.
  intros HF HG p. rewrite (HF p).
  destruct (F (p_clear p)) as [[x p1]|e] eqn:HFp; [|done]. cbn [mbind result_bind].
  rewrite (HG x (p_prepend (p_self p) p1)), (HG x p1).
  pose proof (p_appends_clear F p x p1 HF HFp) as Hcl.
  assert (Heq : p_clear (p_prepend (p_self p) p1) = p_clear p1).
  { unfold p_clear, p_prepend. cbn [p_self n_ports ar_addresses ar_adr_bits].
    f_equal. by rewrite Hcl. }
  rewrite Heq. destruct (G x (p_clear p1)) as [[y p2]|e]; [|done].
  unfold p_prepend. cbn [p_self n_ports ar_addresses ar_adr_bits].
  cbn [set_templ_dict wb_block.templ_dict].
  by rewrite dict_app_assoc.
Qed.

Lemma p_appends_ret {X : Type} (x : X) : p_appends (fun p => Ok (x, p)).
Proof. intros p. by rewrite p_prepend_clear. Qed.

Lemma connect_area_appends (blocks : gmap string wb_block.t) (ar : wb_area.t) :
  p_appends (connect_area blocks ar).
Proof.
  intros p. unfold connect_area.
  cbn [p_clear p_self n_ports ar_addresses ar_adr_bits].
  destruct (wb_area.reps ar =? 1).
  - destruct (area_adr_bits _) as [bits|e]; [|done]. cbn [mbind result_bind].
    cbn [set_ports wb_area.obj wb_area.adr].
    unfold area_name, area_name_left. cbn [set_ports wb_area.name].
    destruct (wb_area.obj ar) as [key|].
    + destruct (wb_area.name ar) as [name|]; [|done]. cbn [mbind result_bind].
      unfold p_prepend. cbn [p_self n_ports ar_addresses ar_adr_bits].
      do 3 f_equal.
      exact (appends_compose _ _ (appends_add_templ "subblk_busses" _ 4)
               (appends_add_templ "cont_assigns" _ 4) (p_self p)).
    + cbn [mbind result_bind].
      destruct (wb_area.name ar) as [name|]; [|done]. cbn [mbind result_bind].
      unfold p_prepend. cbn [p_self n_ports ar_addresses ar_adr_bits].
      do 3 f_equal.
      exact (appends_add_templ "cont_assigns" _ 4 (p_self p)).
  - unfold area_name_left. cbn [set_ports wb_area.name].
    destruct (wb_area.name ar) as [name|]; [|done]. cbn [mbind result_bind].
    exact (p_appends_after
             (fun p0 => p' ← connect_instances blocks
                              (set_ports ar (n_ports p) (n_ports p + wb_area.reps ar - 1))
                              (seqZ 0 (wb_area.reps ar)) (wb_area.adr ar) (n_ports p) p0;
                        Ok (set_ports ar (n_ports p) (n_ports p + wb_area.reps ar - 1), p'))
             (fun b => add_templ b "subblk_busses" _ 4)
             (n_ports p + wb_area.reps ar) (ar_addresses p) (ar_adr_bits p) (p_self p)
             (connect_instances_appends _ _ _ _ _ _) (appends_add_templ _ _ _)).
Qed.

Lemma connect_areas_appends (blocks : gmap string wb_block.t) (areas : list wb_area.t) :
  p_appends (connect_areas blocks areas).
Proof.
  induction areas as [|ar rest IH]; [apply p_appends_ret|].
  cbn [connect_areas].
  apply (p_appends_bind (connect_area blocks ar)
           (fun ar' p1 => '(rest', p2) ← connect_areas blocks rest p1;
                          Ok (ar' :: rest', p2))).
  - apply connect_area_appends.
  - intros ar'.
    apply (p_appends_bind (connect_areas blocks rest)
             (fun rest' p2 => Ok (ar' :: rest', p2))); [exact IH|].
    intros rest'. apply p_appends_ret.
Qed.

Lemma appends_gen_vhdl_regs (regs : list wb_reg.t) :
  appends (fun b =>
    foldl (fun parent reg => wb_reg_gen_vhdl reg parent)
      (add_templ (add_templ (add_templ (add_templ (add_templ b
         "p_package" "" 0) "p_package_body" "" 0) "signal_decls" "" 0)
         "register_access" "" 0) "subblk_busses" "" 0) regs).
Proof.
  pose proof (appends_add_templ "p_package" "" 0) as H1.
  pose proof (appends_add_templ "p_package_body" "" 0) as H2.
  pose proof (appends_add_templ "signal_decls" "" 0) as H3.
  pose proof (appends_add_templ "register_access" "" 0) as H4.
  pose proof (appends_add_templ "subblk_busses" "" 0) as H5.
  pose proof (appends_foldl wb_reg_gen_vhdl regs appends_wb_reg_gen_vhdl) as H6.
  exact (appends_compose _ _ (appends_compose _ _ (appends_compose _ _
           (appends_compose _ _ (appends_compose _ _ H1 H2) H3) H4) H5) H6).
Qed.

(** The first phase changes the dictionary and nothing else. *)
Lemma gen_vhdl_regs_eq (b : wb_block.t) :
  gen_vhdl_regs b =
  set_templ_dict b (dict_app (wb_block.templ_dict b)
                      (wb_block.templ_dict (gen_vhdl_regs (clear_dict b)))).
Proof. exact (appends_gen_vhdl_regs (wb_block.regs b) b). Qed.

Lemma appends_gen_vhdl_tail (name adrs masks : string) (n : Z) :
  appends (fun b =>
    add_templ (add_templ (add_templ (add_templ (add_templ (add_templ (add_templ b
      "block_id" ("x" +:+ dq +:+ "00001234" +:+ dq) 0)
      "block_ver" ("x" +:+ dq +:+ "12344321" +:+ dq) 0)
      "p_addresses" (adrs +:+ ");") 0)
      "p_masks" (masks +:+ ");") 0)
      "p_registered" "false" 0)
      "nof_subblks" (py_str n) 0)
      "p_entity" (name +:+ "_wb") 0).
Proof.
  exact (appends_compose _ _ (appends_compose _ _ (appends_compose _ _
           (appends_compose _ _ (appends_compose _ _ (appends_compose _ _
              (appends_add_templ _ _ _) (appends_add_templ _ _ _))
              (appends_add_templ _ _ _)) (appends_add_templ _ _ _))
              (appends_add_templ _ _ _)) (appends_add_templ _ _ _))
              (appends_add_templ _ _ _)).
Qed.

(** The last phase fails only for want of [adr_bits]; otherwise it changes
    the dictionary and nothing else. *)
Lemma gen_vhdl_finish_eq (b : wb_block.t) (adrs masks : string) (n : Z) :
  gen_vhdl_finish b adrs masks n =
  match gen_vhdl_finish (clear_dict b) adrs masks n with
  | Ok b' => Ok (set_templ_dict b (dict_app (wb_block.templ_dict b)
                                     (wb_block.templ_dict b')))
  | Raise e => Raise e
  end.
Proof.
  unfold gen_vhdl_finish. cbn [wb_block.adr_bits wb_block.name add_templ set_templ_dict
    clear_dict].
  destruct (wb_block.adr_bits b) as [bits|]; [|done]. f_equal.
  pose proof (appends_compose _ _
    (appends_gen_vhdl_tail (wb_block.name b) adrs masks n)
    (appends_add_templ "valid_bits" (py_str bits) 0) b) as H.
  exact H.
Qed.

Lemma p_appends_self {X : Type} (F : ports -> result (X * ports)) (p : ports)
    (x : X) (p1 : ports) :
  p_appends F -> F p = Ok (x, p1) ->
  clear_dict (p_self p1) = clear_dict (p_self p).
Proof.
  intros HF Hrun. rewrite (HF p) in Hrun.
  destruct (F (p_clear p)) as [[x' p']|e]; [|done]. by injection Hrun as <- <-.
Qed.

Lemma clear_dict_eq (b1 b2 : wb_block.t) :
  clear_dict b1 = clear_dict b2 -> b1 = set_templ_dict b2 (wb_block.templ_dict b1).
Proof.
  intros H. rewrite <- (set_templ_dict_id b1) at 1.
  change (set_templ_dict (clear_dict b1) (wb_block.templ_dict b1) =
          set_templ_dict (clear_dict b2) (wb_block.templ_dict b1)).
  by rewrite H.
Qed.

Lemma gen_vhdl_regs_areas (b : wb_block.t) :
  wb_block.areas (gen_vhdl_regs b) = wb_block.areas b.
Proof. by rewrite gen_vhdl_regs_eq. Qed.

(** The whole filling of the dictionary only appends: on a block with text
    in its dictionary it gives what it gives on the block with an empty
    dictionary, after that text. *)
Lemma gen_vhdl_fill_eq (blocks : gmap string wb_block.t) (b : wb_block.t) :
  gen_vhdl_fill blocks b =
  match gen_vhdl_fill blocks (clear_dict b) with
  | Ok b' => Ok (set_templ_dict b' (dict_app (wb_block.templ_dict b)
                                      (wb_block.templ_dict b')))
  | Raise e => Raise e
  end.
Proof.
  unfold gen_vhdl_fill. cbv zeta. rewrite !gen_vhdl_regs_areas.
  change (wb_block.areas (clear_dict b)) with (wb_block.areas b).
  rewrite (p_appends_after (connect_areas blocks (wb_block.areas b)) gen_vhdl_regs
             0 [] [] b (connect_areas_appends _ _) gen_vhdl_regs_eq).
  destruct (connect_areas blocks (wb_block.areas b)
              (Ports (gen_vhdl_regs (clear_dict b)) 0 [] []))
    as [[areas' p']|e] eqn:Hc; [|done].
  cbn [mbind result_bind p_prepend p_self n_ports ar_addresses ar_adr_bits].
  destruct (port_vectors _ _ _ _ _) as [[adrs masks]|e]; [|done].
  cbn [mbind result_bind].
  assert (Hself : p_self p' = set_templ_dict b (wb_block.templ_dict (p_self p'))).
  { rewrite (clear_dict_eq (p_self p') b) at 1; [done|].
    rewrite (p_appends_self _ _ _ _ (connect_areas_appends _ _) Hc).
    cbn [p_self]. by rewrite gen_vhdl_regs_eq. }
  rewrite Hself.
  set (d' := wb_block.templ_dict (p_self p')).
  rewrite (gen_vhdl_finish_eq (set_areas (set_templ_dict b (dict_app _ d')) areas')).
  rewrite (gen_vhdl_finish_eq (set_areas (set_templ_dict b d') areas')).
  change (clear_dict (set_areas (set_templ_dict b (dict_app (wb_block.templ_dict b) d')) areas'))
    with (clear_dict (set_areas (set_templ_dict b d') areas')).
  destruct (gen_vhdl_finish (clear_dict (set_areas (set_templ_dict b d') areas')) _ _ _)
    as [bf|e]; [|done].
  cbn [set_templ_dict set_areas wb_block.templ_dict]. by rewrite dict_app_assoc.
Qed.

(** ** What emission leaves alone *)

Lemma connect_area_ported (blocks : gmap string wb_block.t) (ar ar' : wb_area.t)
    (p p' : ports) :
  connect_area blocks ar p = Ok (ar', p') -> ported ar ar'.
Proof.
  unfold connect_area. destruct (wb_area.reps ar =? 1).
  - destruct (area_adr_bits _) as [bits|e]; [|done]. cbn [mbind result_bind].
    destruct (match wb_area.obj _ with Some _ => _ | None => _ end) as [self|e]; [|done].
    cbn [mbind result_bind].
    destruct (area_name _) as [name|e]; [|done]. cbn [mbind result_bind].
    intros [= <- _]. by eexists _, _.
  - destruct (area_name_left _) as [name|e]; [|done]. cbn [mbind result_bind].
    destruct (connect_instances _ _ _ _ _ _) as [p1|e]; [|done].
    cbn [mbind result_bind]. intros [= <- _]. by eexists _, _.
Qed.

Lemma connect_areas_ported (blocks : gmap string wb_block.t) (areas : list wb_area.t) :
  forall (areas' : list wb_area.t) (p p' : ports),
  connect_areas blocks areas p = Ok (areas', p') -> Forall2 ported areas areas'.
Proof.
  induction areas as [|ar rest IH]; intros areas' p p' H.
  - injection H as <- _. constructor.
  - cbn [connect_areas] in H.
    destruct (connect_area blocks ar p) as [[ar1 p1]|e] eqn:H1; [|done].
    cbn [mbind result_bind] in H.
    destruct (connect_areas blocks rest p1) as [[rest1 p2]|e] eqn:H2; [|done].
    cbn [mbind result_bind] in H. injection H as <- _.
    constructor; [by eapply connect_area_ported|by eapply IH].
Qed.

Lemma gen_vhdl_finish_self (b b' : wb_block.t) (adrs masks : string) (n : Z) :
  gen_vhdl_finish b adrs masks n = Ok b' ->
  b' = set_templ_dict b (wb_block.templ_dict b').
Proof.
  rewrite gen_vhdl_finish_eq.
  destruct (gen_vhdl_finish (clear_dict b) adrs masks n) as [bf|e]; [|done].
  by intros [= <-].
Qed.

(** Filling the dictionary keeps the model: only the dictionary and the
    port slots of the areas are written. *)
Lemma gen_vhdl_fill_same_model (blocks : gmap string wb_block.t) (b b' : wb_block.t) :
  gen_vhdl_fill blocks b = Ok b' -> same_model b b'.
Proof.
  unfold gen_vhdl_fill. cbv zeta. rewrite gen_vhdl_regs_areas.
  destruct (connect_areas _ _ _) as [[areas' p']|e] eqn:Hc; [|done].
  cbn [mbind result_bind].
  destruct (port_vectors _ _ _ _ _) as [[adrs masks]|e]; [|done].
  cbn [mbind result_bind]. intros Hfin.
  apply gen_vhdl_finish_self in Hfin.
  pose proof (p_appends_self _ _ _ _ (connect_areas_appends _ _) Hc) as Hcl.
  cbn [p_self] in Hcl. rewrite gen_vhdl_regs_eq in Hcl.
  apply clear_dict_eq in Hcl. rewrite Hcl in Hfin. rewrite Hfin.
  repeat split; try reflexivity.
  by eapply connect_areas_ported.
Qed.

Lemma gen_vhdl_same_model (blocks : gmap string wb_block.t) (b b' : wb_block.t)
    (files : list file) :
  gen_vhdl blocks b = Ok (b', files) -> same_model b b'.
Proof.
  unfold gen_vhdl.
  destruct (gen_vhdl_fill blocks b) as [b1|e] eqn:Hfill; [|done].
  cbn [mbind result_bind].
  destruct (py_format templ_wb _) as [wb|e]; [|done]. cbn [mbind result_bind].
  destruct (py_format templ_pkg _) as [pkg|e]; [|done]. cbn [mbind result_bind].
  intros [= <- _]. by eapply gen_vhdl_fill_same_model.
Qed.

(** ** Register addresses *)

Lemma decode_addresses_seqZ (r : wb_reg.t) :
  decode_addresses r = seqZ (wb_reg.base r) (wb_reg.size r).
Proof.
  unfold decode_addresses.
  change (fun i => wb_reg.base r + i) with (Z.add (wb_reg.base r)).
  rewrite (fmap_add_seqZ (wb_reg.base r) 0 (wb_reg.size r)). by rewrite Z.add_0_r.
Qed.

(** C5: the constructor hands out register addresses in declaration order
    from address 2, each register taking as many consecutive addresses as its
    repeat count; neither [analyze] nor [gen_vhdl] changes them. *)
Theorem C5_register_addresses (el : xml_block) (b : wb_block.t) :
  wb_block_init el = Ok b ->
  (length (wb_block.regs b) = length (declared_reps (xb_children el)) /\
   forall (i : nat) r, wb_block.regs b !! i = Some r ->
     declared_reps (xb_children el) !! i = Some (wb_reg.size r) /\
     wb_reg.base r = 2 + Zsum (take i (declared_reps (xb_children el))) /\
     decode_addresses r = seqZ (wb_reg.base r) (wb_reg.size r) /\
     forall a, a ∈ decode_addresses r <->
               wb_reg.base r <= a < wb_reg.base r + wb_reg.size r) /\
  (forall fuel top st st' k b1,
     analyze fuel top st = Done st' -> blocks st !! k = Some b1 ->
     exists b2, blocks st' !! k = Some b2 /\ wb_block.regs b2 = wb_block.regs b1) /\
  (forall bs b1 b2 files,
     gen_vhdl bs b1 = Ok (b2, files) -> wb_block.regs b2 = wb_block.regs b1).
Proof.
  intros Hb. split; [|split].
  - split.
    { rewrite (wb_block_init_sizes _ _ Hb). by rewrite length_fmap. }
    intros i r Hr. destruct (wb_block_init_bases _ _ Hb i r Hr) as [Hsz Hbase].
    split; [done|]. split; [done|]. split; [apply decode_addresses_seqZ|].
    intros a. rewrite decode_addresses_seqZ. apply elem_of_seqZ.
  - intros fuel top st st' k b1 Hrun Hb1.
    destruct (registry_evolves_lookup _ _ _ _ (analyze_evolves fuel top st st' Hrun) Hb1)
      as (b2 & Hb2 & (_ & Hregs & _) & _).
    eauto.
  - intros bs b1 b2 files Hgen.
    by destruct (gen_vhdl_same_model _ _ _ _ Hgen) as (_ & Hregs & _).
Qed.

Lemma C5_register_addresses_witness :
  exists b r0 r1,
    wb_block_init ex_blkR = Ok b /\
    wb_block.regs b = [r0; r1] /\
    wb_reg.base r0 = 2 /\ wb_reg.size r0 = 3 /\ decode_addresses r0 = [2; 3; 4] /\
    wb_reg.base r1 = 5 /\ wb_reg.size r1 = 1 /\ decode_addresses r1 = [5].
Proof.
  destruct (wb_block_init ex_blkR) as [b|e] eqn:Hb; [|by vm_compute in Hb].
  destruct (C5_register_addresses ex_blkR b Hb) as ((Hlen & Hat) & _ & _).
  destruct (wb_block.regs b) as [|r0 [|r1 [|r2 rest]]] eqn:Hregs;
    try (vm_compute in Hlen; discriminate).
  exists b, r0, r1. split; [done|]. split; [done|].
  destruct (Hat 0%nat r0 eq_refl) as (Hs0 & Hb0 & Hd0 & _).
  destruct (Hat 1%nat r1 eq_refl) as (Hs1 & Hb1 & Hd1 & _).
  assert (Hs0' : wb_reg.size r0 = 3).
  { assert (Some (wb_reg.size r0) = Some 3) by (rewrite <- Hs0; reflexivity).
    congruence. }
  assert (Hs1' : wb_reg.size r1 = 1).
  { assert (Some (wb_reg.size r1) = Some 1) by (rewrite <- Hs1; reflexivity).
    congruence. }
  assert (Hb0' : wb_reg.base r0 = 2) by (rewrite Hb0; reflexivity).
  assert (Hb1' : wb_reg.base r1 = 5) by (rewrite Hb1; reflexivity).
  rewrite Hd0, Hd1, Hb0', Hb1', Hs0', Hs1'. repeat split; reflexivity.
Defined.

(** ** Where the case arms go *)

Lemma add_templ_lookup_ne (b : wb_block.t) (key value k : string) (indent : Z) :
  key <> k ->
  wb_block.templ_dict (add_templ b key value indent) !! k = wb_block.templ_dict b !! k.
Proof. intros Hne. rewrite add_templ_eq. simpl. by rewrite lookup_insert_ne. Qed.

Lemma add_templ_lookup_eq (b : wb_block.t) (key value : string) (indent : Z) :
  wb_block.templ_dict (add_templ b key value indent) !! key =
  Some (default ""%string (wb_block.templ_dict b !! key) +:+ templ_text indent value).
Proof. rewrite add_templ_eq. simpl. by rewrite lookup_insert_eq. Qed.

Lemma strcat_app (l1 l2 : list string) : strcat (l1 ++ l2) = strcat l1 +:+ strcat l2.
Proof.
  induction l1 as [|s l1 IH]; [done|].
  change (s +:+ strcat (l1 ++ l2) = (s +:+ strcat l1) +:+ strcat l2).
  by rewrite IH, append_assoc.
Qed.

(** The loop over the elements of a register appends its arms in order. *)
Lemma register_access_arms (r : wb_reg.t) (indices : list Z) :
  forall (b : wb_block.t) (old : string),
  wb_block.templ_dict b !! "register_access" = Some old ->
  wb_block.templ_dict
    (foldl (fun parent i => add_templ parent "register_access" (case_arm r i) 10)
           b indices) !! "register_access" =
  Some (old +:+ strcat ((fun i => templ_text 10 (case_arm r i)) <$> indices)).
Proof.
  induction indices as [|i rest IH]; intros b old Hold.
  - simpl. by rewrite append_nil_r.
  - cbn [foldl]. erewrite IH; [|by rewrite add_templ_lookup_eq, Hold].
    cbn [default from_option id]. by rewrite append_assoc.
Qed.

Lemma wb_reg_gen_vhdl_register_access (r : wb_reg.t) (b : wb_block.t) (old : string) :
  wb_block.templ_dict b !! "register_access" = Some old ->
  wb_block.templ_dict (wb_reg_gen_vhdl r b) !! "register_access" =
  Some (old +:+ strcat (reg_arms r)).
Proof.
  intros Hold. unfold wb_reg_gen_vhdl. destruct (wb_reg_package r) as [dt dtb].
  apply register_access_arms. by rewrite !add_templ_lookup_ne.
Qed.

Lemma regs_register_access (regs : list wb_reg.t) :
  forall (b : wb_block.t) (old : string),
  wb_block.templ_dict b !! "register_access" = Some old ->
  wb_block.templ_dict (foldl (fun parent reg => wb_reg_gen_vhdl reg parent) b regs)
    !! "register_access" =
  Some (old +:+ strcat (regs ≫= reg_arms)).
Proof.
  induction regs as [|r regs IH]; intros b old Hold.
  - simpl. by rewrite append_nil_r.
  - cbn [foldl]. erewrite IH; [|by apply wb_reg_gen_vhdl_register_access].
    rewrite bind_cons, strcat_app. by rewrite append_assoc.
Qed.

Lemma gen_vhdl_regs_register_access (b : wb_block.t) :
  wb_block.templ_dict (gen_vhdl_regs b) !! "register_access" =
  Some (default ""%string (wb_block.templ_dict b !! "register_access") +:+
        strcat (wb_block.regs b ≫= reg_arms)).
Proof.
  unfold gen_vhdl_regs. cbv zeta.
  erewrite regs_register_access; [done|].
  rewrite add_templ_lookup_ne by done. rewrite add_templ_lookup_eq.
  rewrite !add_templ_lookup_ne by done.
  by rewrite append_nil_r.
Qed.

(** The loops over the areas write to other sections. *)
Lemma connect_instances_keeps (blocks : gmap string wb_block.t) (ar : wb_area.t)
    (k : string) (indices : list Z) :
  k <> "cont_assigns"%string ->
  forall base nport p p',
  connect_instances blocks ar indices base nport p = Ok p' ->
  wb_block.templ_dict (p_self p') !! k = wb_block.templ_dict (p_self p) !! k.
Proof.
  intros Hk. induction indices as [|i rest IH]; intros base nport p p' H.
  - by injection H as <-.
  - cbn [connect_instances] in H.
    destruct (area_obj blocks ar) as [bl|e]; [|done]. cbn [mbind result_bind] in H.
    destruct (obj_addr_size bl) as [step|e]; [|done]. cbn [mbind result_bind] in H.
    destruct (obj_adr_bits bl) as [bits|e]; [|done]. cbn [mbind result_bind] in H.
    destruct (area_name ar) as [name|e]; [|done]. cbn [mbind result_bind] in H.
    apply IH in H. cbn [p_self] in H. by rewrite add_templ_lookup_ne in H.
Qed.

Lemma connect_area_keeps (blocks : gmap string wb_block.t) (ar ar' : wb_area.t)
    (k : string) (p p' : ports) :
  k <> "cont_assigns"%string -> k <> "subblk_busses"%string ->
  connect_area blocks ar p = Ok (ar', p') ->
  wb_block.templ_dict (p_self p') !! k = wb_block.templ_dict (p_self p) !! k.
Proof.
  intros Hk1 Hk2. unfold connect_area. destruct (wb_area.reps ar =? 1).
  - destruct (area_adr_bits _) as [bits|e]; [|done]. cbn [mbind result_bind].
    cbn [set_ports wb_area.obj].
    unfold area_name, area_name_left. cbn [set_ports wb_area.name].
    destruct (wb_area.obj ar) as [key|].
    + destruct (wb_area.name ar) as [name|]; [|done]. cbn [mbind result_bind].
      intros [= _ <-]. cbn [p_self]. by rewrite !add_templ_lookup_ne.
    + cbn [mbind result_bind].
      destruct (wb_area.name ar) as [name|]; [|done]. cbn [mbind result_bind].
      intros [= _ <-]. cbn [p_self]. by rewrite !add_templ_lookup_ne.
  - destruct (area_name_left _) as [name|e]; [|done]. cbn [mbind result_bind].
    destruct (connect_instances _ _ _ _ _ _) as [p1|e] eqn:Hci; [|done].
    cbn [mbind result_bind]. intros [= _ <-].
    apply (connect_instances_keeps _ _ k) in Hci; [|done].
    cbn [p_self] in Hci. by rewrite add_templ_lookup_ne in Hci.
Qed.

Lemma connect_areas_keeps (blocks : gmap string wb_block.t) (k : string)
    (areas : list wb_area.t) :
  k <> "cont_assigns"%string -> k <> "subblk_busses"%string ->
  forall areas' p p',
  connect_areas blocks areas p = Ok (areas', p') ->
  wb_block.templ_dict (p_self p') !! k = wb_block.templ_dict (p_self p) !! k.
Proof.
  intros Hk1 Hk2. induction areas as [|ar rest IH]; intros areas' p p' H.
  - by injection H as _ <-.
  - cbn [connect_areas] in H.
    destruct (connect_area blocks ar p) as [[ar1 p1]|e] eqn:H1; [|done].
    cbn [mbind result_bind] in H.
    destruct (connect_areas blocks rest p1) as [[rest1 p2]|e] eqn:H2; [|done].
    cbn [mbind result_bind] in H. injection H as _ <-.
    rewrite (IH _ _ _ H2). by eapply connect_area_keeps.
Qed.

Lemma gen_vhdl_finish_keeps (b b' : wb_block.t) (adrs masks : string) (n : Z) :
  gen_vhdl_finish b adrs masks n = Ok b' ->
  wb_block.templ_dict b' !! "register_access" = wb_block.templ_dict b !! "register_access".
Proof.
  unfold gen_vhdl_finish. cbv zeta.
  destruct (wb_block.adr_bits _) as [bits|]; [|done].
  intros [= <-]. by rewrite !add_templ_lookup_ne.
Qed.

(** After [gen_vhdl] the section [register_access] holds what it held
    before, then the arms of every register in order. *)
Lemma gen_vhdl_fill_register_access (blocks : gmap string wb_block.t)
    (b b' : wb_block.t) :
  gen_vhdl_fill blocks b = Ok b' ->
  wb_block.templ_dict b' !! "register_access" =
  Some (default ""%string (wb_block.templ_dict b !! "register_access") +:+
        strcat (wb_block.regs b ≫= reg_arms)).
Proof.
  unfold gen_vhdl_fill. cbv zeta.
  destruct (connect_areas _ _ _) as [[areas' p']|e] eqn:Hc; [|done].
  cbn [mbind result_bind].
  destruct (port_vectors _ _ _ _ _) as [[adrs masks]|e]; [|done].
  cbn [mbind result_bind]. intros Hfin.
  apply gen_vhdl_finish_keeps in Hfin. rewrite Hfin.
  cbn [set_areas wb_block.templ_dict].
  rewrite (connect_areas_keeps _ "register_access" _ ltac:(done) ltac:(done) _ _ _ Hc).
  cbn [p_self]. apply gen_vhdl_regs_register_access.
Qed.

(** ** Binary literals *)

Lemma pos_bin_acc (p : positive) (acc : string) : pos_bin p acc = pos_bin p "" +:+ acc.
Proof.
  revert acc. induction p as [p IH|p IH|]; intros acc; cbn [pos_bin].
  - rewrite (IH (String "1" acc)), (IH (String "1" "")).
    by rewrite append_assoc.
  - rewrite (IH (String "0" acc)), (IH (String "0" "")).
    by rewrite append_assoc.
  - done.
Qed.

Lemma pos_bin_length (p : positive) :
  String.length (pos_bin p "") = Pos.size_nat p.
Proof.
  induction p as [p IH|p IH|]; cbn [pos_bin Pos.size_nat]; [| |done].
  - rewrite pos_bin_acc, length_append, IH. simpl. lia.
  - rewrite pos_bin_acc, length_append, IH. simpl. lia.
Qed.

Lemma pos_size_nat_bound (p : positive) :
  forall n : nat, Zpos p < 2 ^ Z.of_nat n -> (Pos.size_nat p <= n)%nat.
Proof.
  induction p as [p IH|p IH|]; intros n Hn; cbn [Pos.size_nat].
  - destruct n as [|n]; [simpl in Hn; lia|].
    rewrite Nat2Z.inj_succ, Z.pow_succ_r in Hn by lia.
    specialize (IH n). lia.
  - destruct n as [|n]; [simpl in Hn; lia|].
    rewrite Nat2Z.inj_succ, Z.pow_succ_r in Hn by lia.
    specialize (IH n). lia.
  - destruct n as [|n]; [simpl in Hn; lia|]. lia.
Qed.

Lemma bin_value_aux_pos_bin (p : positive) :
  forall (rest : string) (a : Z),
  bin_value_aux (pos_bin p rest) a =
  bin_value_aux rest (a * 2 ^ Z.of_nat (Pos.size_nat p) + Zpos p).
Proof.
  induction p as [p IH|p IH|]; intros rest a; cbn [pos_bin Pos.size_nat].
  - rewrite IH. cbn [bin_value_aux]. simpl Ascii.eqb. cbv iota. f_equal.
    rewrite Nat2Z.inj_succ, Z.pow_succ_r by lia. lia.
  - rewrite IH. cbn [bin_value_aux]. simpl Ascii.eqb. cbv iota. f_equal.
    rewrite Nat2Z.inj_succ, Z.pow_succ_r by lia. lia.
  - cbn [bin_value_aux]. simpl Ascii.eqb. cbv iota. f_equal.
    change (Z.of_nat 1) with 1. lia.
Qed.

Lemma py_repeat_succ (n : nat) (s : string) :
  py_repeat (Z.of_nat (S n)) s = s +:+ py_repeat (Z.of_nat n) s.
Proof.
  unfold py_repeat. rewrite !Nat2Z.id. destruct n as [|n]; simpl.
  - by rewrite append_nil_r.
  - done.
Qed.

Lemma py_repeat_zeros_length (n : nat) :
  String.length (py_repeat (Z.of_nat n) "0") = n.
Proof.
  induction n as [|n IH]; [done|].
  rewrite py_repeat_succ, length_append, IH. done.
Qed.

Lemma bin_value_aux_zeros (n : nat) (rest : string) :
  bin_value_aux (py_repeat (Z.of_nat n) "0" +:+ rest) 0 = bin_value_aux rest 0.
Proof.
  induction n as [|n IH]; [done|].
  rewrite py_repeat_succ, append_assoc.
  change (bin_value_aux (py_repeat (Z.of_nat n) "0" +:+ rest) (2 * 0) =
          bin_value_aux rest 0).
  exact IH.
Qed.

(** For an address that fits 32 bits, [format(n, "032b")] is a numeral of
    exactly 32 binary digits that denotes the address. *)
Lemma py_format_032b_spec (n : Z) :
  0 <= n < 2 ^ 32 ->
  String.length (py_format_032b n) = 32%nat /\ bin_value (py_format_032b n) = Some n.
Proof.
  intros Hn. unfold py_format_032b, bin_value.
  destruct (Z.ltb_spec n 0) as [?|_]; [lia|].
  change ("" +:+ ?s) with s. change (Z.of_nat (String.length "")) with 0.
  destruct n as [|p|p]; [by vm_compute| |lia].
  cbn [bin_digits]. rewrite pos_bin_length.
  pose proof (pos_size_nat_bound p 32 ltac:(simpl; lia)) as Hsz.
  replace (32 - 0 - Z.of_nat (Pos.size_nat p))
    with (Z.of_nat (32 - Pos.size_nat p)) by lia.
  split.
  - rewrite length_append, py_repeat_zeros_length, pos_bin_length. lia.
  - rewrite bin_value_aux_zeros, bin_value_aux_pos_bin. simpl. done.
Qed.

(** ** The decode keys of the case arms *)

Lemma gen_vhdl_fill_of_gen_vhdl (blocks : gmap string wb_block.t) (b b' : wb_block.t)
    (files : list file) :
  gen_vhdl blocks b = Ok (b', files) -> gen_vhdl_fill blocks b = Ok b'.
Proof.
  unfold gen_vhdl.
  destruct (gen_vhdl_fill blocks b) as [b1|e]; [|done]. cbn [mbind result_bind].
  destruct (py_format templ_wb _) as [wb|e]; [|done]. cbn [mbind result_bind].
  destruct (py_format templ_pkg _) as [pkg|e]; [|done]. cbn [mbind result_bind].
  by intros [= <- _].
Qed.

(** C10: the case arm of element [i] of a register is keyed by the
    register's own address [base + i], written as 32 binary digits; the
    section of the arms is built from the registers alone, so it is the same
    wherever the allocator placed the area of the local registers. *)
Theorem C10_case_keys :
  (forall (r : wb_reg.t) (i : Z), exists rest,
     case_arm r i =
     "when " +:+ dq +:+ py_format_032b (wb_reg.base r + i) +:+ dq +:+ " => -- " +:+
     py_hex (wb_reg.base r + i) +:+ nl +:+ rest) /\
  (forall (r : wb_reg.t) (i : Z), 0 <= wb_reg.base r + i < 2 ^ 32 ->
     String.length (py_format_032b (wb_reg.base r + i)) = 32%nat /\
     bin_value (py_format_032b (wb_reg.base r + i)) = Some (wb_reg.base r + i)) /\
  (forall blocks b b' files, gen_vhdl blocks b = Ok (b', files) ->
     wb_block.templ_dict b' !! "register_access" =
     Some (default ""%string (wb_block.templ_dict b !! "register_access") +:+
           strcat (wb_block.regs b ≫= reg_arms))) /\
  (forall blocks1 blocks2 b1 b2 b1' b2' files1 files2,
     wb_block.regs b1 = wb_block.regs b2 ->
     wb_block.templ_dict b1 !! "register_access" =
       wb_block.templ_dict b2 !! "register_access" ->
     gen_vhdl blocks1 b1 = Ok (b1', files1) ->
     gen_vhdl blocks2 b2 = Ok (b2', files2) ->
     wb_block.templ_dict b1' !! "register_access" =
       wb_block.templ_dict b2' !! "register_access").
Proof.
  split; [|split; [|split]].
  - intros r i. unfold case_arm. cbv zeta.
    destruct (decide (length (wb_reg.fields r) = 0%nat));
      destruct (String.eqb (wb_reg.regtype r) "sreg");
      destruct (String.eqb (wb_reg.regtype r) "creg");
      rewrite !append_assoc; eexists; reflexivity.
  - intros r i Hi. by apply py_format_032b_spec.
  - intros blocks b b' files Hgen.
    by apply gen_vhdl_fill_of_gen_vhdl, gen_vhdl_fill_register_access in Hgen.
  - intros blocks1 blocks2 b1 b2 b1' b2' files1 files2 Hregs Hdict H1 H2.
    apply gen_vhdl_fill_of_gen_vhdl, gen_vhdl_fill_register_access in H1, H2.
    by rewrite H1, H2, Hregs, Hdict.
Qed.

Lemma ex_after_flat_run : analyze 2 "T" (World ex_flat_registry []) = Done ex_after_flat.
Proof. vm_compute. reflexivity. Qed.

Lemma C10_case_keys_witness :
  exists bT bF bT' bF' filesT filesF,
    blocks ex_after_top !! "T" = Some bT /\
    blocks ex_after_flat !! "T" = Some bF /\
    wb_block.reg_base bT = Some 16 /\ wb_block.reg_base bF = Some 0 /\
    wb_block.regs bT = wb_block.regs bF /\
    gen_vhdl (blocks ex_after_top) bT = Ok (bT', filesT) /\
    gen_vhdl (blocks ex_after_flat) bF = Ok (bF', filesF) /\
    wb_block.templ_dict bT' !! "register_access" =
      wb_block.templ_dict bF' !! "register_access" /\
    (forall r, r ∈ wb_block.regs bT ->
       bin_value (py_format_032b (wb_reg.base r + 0)) = Some 2).
Proof.
  destruct (blocks ex_after_top !! "T") as [bT|] eqn:HbT; [|by vm_compute in HbT].
  destruct (blocks ex_after_flat !! "T") as [bF|] eqn:HbF; [|by vm_compute in HbF].
  destruct (gen_vhdl (blocks ex_after_top) bT) as [[bT' filesT]|e] eqn:HgT;
    [|by (vm_compute in HbT; injection HbT as <-; vm_compute in HgT)].
  destruct (gen_vhdl (blocks ex_after_flat) bF) as [[bF' filesF]|e] eqn:HgF;
    [|by (vm_compute in HbF; injection HbF as <-; vm_compute in HgF)].
  assert (Hregs : wb_block.regs bT = wb_block.regs bF).
  { vm_compute in HbT, HbF. injection HbT as <-. injection HbF as <-. reflexivity. }
  assert (Hdict : wb_block.templ_dict bT !! "register_access" =
                  wb_block.templ_dict bF !! "register_access").
  { vm_compute in HbT, HbF. injection HbT as <-. injection HbF as <-. reflexivity. }
  destruct C10_case_keys as (_ & Hkey & _ & Hsame).
  exists bT, bF, bT', bF', filesT, filesF.
  split; [done|]. split; [done|].
  split; [vm_compute in HbT; injection HbT as <-; reflexivity|].
  split; [vm_compute in HbF; injection HbF as <-; reflexivity|].
  split; [done|]. split; [done|]. split; [done|].
  split; [exact (Hsame _ _ _ _ _ _ _ _ Hregs Hdict HgT HgF)|].
  intros r Hr.
  assert (Hbase : wb_reg.base r = 2).
  { vm_compute in HbT. injection HbT as <-. cbn [wb_block.regs] in Hr.
    apply list_elem_of_singleton in Hr as ->. reflexivity. }
  rewrite Hbase. apply (Hkey {| wb_reg.regtype := ""; wb_reg.type := ""; wb_reg.base := 2;
                                wb_reg.size := 1; wb_reg.name := ""; wb_reg.ack := 0;
                                wb_reg.stb := 0; wb_reg.fields := [];
                                wb_reg.free_bit := 0 |} 0).
  simpl. lia.
Defined.

(** ** The windows of the ports *)

Lemma fmap_seqZ_0 {B : Type} (f : Z -> B) (n : Z) :
  f <$> seqZ 0 n = (fun j : nat => f (Z.of_nat j)) <$> seq 0 (Z.to_nat n).
Proof.
  unfold seqZ. rewrite <- list_fmap_compose. apply list_fmap_ext.
  intros i j _. simpl. f_equal. lia.
Qed.

(** The inner loop appends one address per instance, each a span above the
    one before, and the exponent of the referenced block every time. *)
Lemma connect_instances_lists (bs : gmap string wb_block.t) (ar : wb_area.t)
    (bt : wb_block.t) (w n : Z) (indices : list Z) :
  area_obj bs ar = Ok bt -> wb_block.addr_size bt = Some w ->
  wb_block.adr_bits bt = Some n ->
  forall (base nport : Z) (p p' : ports),
  connect_instances bs ar indices base nport p = Ok p' ->
  n_ports p' = n_ports p /\
  ar_addresses p' =
    ar_addresses p ++ ((fun j : nat => base + Z.of_nat j * w) <$> seq 0 (length indices)) /\
  ar_adr_bits p' = ar_adr_bits p ++ replicate (length indices) n.
Proof.
  intros Hobj Hw Hn.
  induction indices as [|i rest IH]; intros base nport p p' H.
  - injection H as <-. by rewrite !app_nil_r.
  - cbn [connect_instances] in H. rewrite Hobj in H. cbn [mbind result_bind] in H.
    unfold obj_addr_size, obj_adr_bits in H. rewrite Hw, Hn in H.
    cbn [mbind result_bind] in H.
    destruct (area_name ar) as [name|e]; [|done]. cbn [mbind result_bind] in H.
    apply IH in H as (Hports & Hadr & Hbits).
    cbn [n_ports ar_addresses ar_adr_bits] in *.
    split; [done|]. rewrite Hadr, Hbits, <- !app_assoc.
    split; [|done]. f_equal. cbn [length seq fmap list_fmap app].
    f_equal; [lia|]. rewrite <- seq_shift, <- list_fmap_compose.
    apply list_fmap_ext. intros k j _. simpl. lia.
Qed.

Lemma area_ready_windows (bs : gmap string wb_block.t) (ar : wb_area.t) :
  wb_area.reps ar = 1 -> area_windows bs ar = [wb_area.adr ar].
Proof.
  intros H. unfold area_windows. rewrite H. simpl. f_equal. lia.
Qed.

Lemma port_mask_pow2 (n : Z) : 0 <= n -> port_mask n = 2 ^ n - 1.
Proof. intros Hn. unfold port_mask. by rewrite Z.shiftl_1_l. Qed.

(** One round of the loop over the areas: the area takes the next [reps]
    ports, and its windows and masks are appended. *)
Lemma connect_area_lists (bs : gmap string wb_block.t) (ar ar' : wb_area.t)
    (p p' : ports) :
  area_ready bs ar ->
  connect_area bs ar p = Ok (ar', p') ->
  ar' = set_ports ar (n_ports p) (n_ports p + wb_area.reps ar - 1) /\
  n_ports p' = n_ports p + wb_area.reps ar /\
  ar_addresses p' = ar_addresses p ++ area_windows bs ar /\
  port_mask <$> ar_adr_bits p' = (port_mask <$> ar_adr_bits p) ++ area_masks bs ar.
Proof.
  intros (Hreps & n & Hn & Hspan & Hbits1 & Hobj). unfold connect_area.
  destruct (wb_area.reps ar =? 1) eqn:Hone.
  - apply Z.eqb_eq in Hone. specialize (Hbits1 Hone).
    unfold area_adr_bits. cbn [set_ports wb_area.adr_bits wb_area.obj wb_area.adr].
    rewrite Hbits1. cbn [mbind result_bind].
    destruct (match wb_area.obj ar with Some _ => _ | None => _ end) as [self|e]; [|done].
    cbn [mbind result_bind].
    destruct (area_name _) as [name|e]; [|done]. cbn [mbind result_bind].
    intros [= <- <-]. cbn [n_ports ar_addresses ar_adr_bits].
    rewrite Hone. split; [f_equal; f_equal; lia|]. split; [done|].
    rewrite (area_ready_windows _ _ Hone). split; [done|].
    rewrite fmap_app. f_equal. unfold area_masks. rewrite Hone, Hspan.
    simpl. by rewrite port_mask_pow2.
  - apply Z.eqb_neq in Hone.
    destruct (wb_area.obj ar) as [t|] eqn:Ht; [|done].
    destruct Hobj as (bt & Hbt & Hw & Hb).
    destruct (area_name_left _) as [name|e]; [|done]. cbn [mbind result_bind].
    destruct (connect_instances _ _ _ _ _ _) as [p1|e] eqn:Hci; [|done].
    cbn [mbind result_bind]. intros [= <- <-].
    eapply (connect_instances_lists bs _ bt (2 ^ n) n) in Hci; [| |done|done]; cycle 1.
    { unfold area_obj. cbn [set_ports wb_area.obj]. by rewrite Ht, Hbt. }
    destruct Hci as (Hports & Hadr & Hbits).
    cbn [n_ports ar_addresses ar_adr_bits set_ports wb_area.adr wb_area.reps] in *.
    split; [done|]. split; [done|].
    rewrite Hadr, Hbits, fmap_app. rewrite length_seqZ.
    unfold area_windows, area_masks. rewrite Hspan, !fmap_seqZ_0. split; [done|].
    f_equal. rewrite fmap_replicate, port_mask_pow2 by done.
    generalize (Z.to_nat (wb_area.reps ar)). intros m. generalize 0%nat.
    induction m as [|m IH]; intros s; [done|]. simpl. by rewrite <- IH.
Qed.

Lemma first_ports_0 (areas : list wb_area.t) : first_ports areas 0 = 0.
Proof. reflexivity. Qed.

Lemma first_ports_S (ar : wb_area.t) (areas : list wb_area.t) (idx : nat) :
  first_ports (ar :: areas) (S idx) = wb_area.reps ar + first_ports areas idx.
Proof. unfold first_ports. by rewrite fmap_cons, firstn_cons, Zsum_cons. Qed.

(** The whole loop: the ports are dealt out in the order of the areas, and
    the two lists are the windows and the masks of the areas in that order. *)
Lemma connect_areas_lists (bs : gmap string wb_block.t) (areas : list wb_area.t) :
  Forall (area_ready bs) areas ->
  forall (areas' : list wb_area.t) (p p' : ports),
  connect_areas bs areas p = Ok (areas', p') ->
  n_ports p' = n_ports p + Zsum (wb_area.reps <$> areas) /\
  ar_addresses p' = ar_addresses p ++ (areas ≫= area_windows bs) /\
  port_mask <$> ar_adr_bits p' = (port_mask <$> ar_adr_bits p) ++ (areas ≫= area_masks bs) /\
  forall (idx : nat) (ar : wb_area.t), areas !! idx = Some ar ->
    areas' !! idx =
    Some (set_ports ar (n_ports p + first_ports areas idx)
                       (n_ports p + first_ports areas idx + wb_area.reps ar - 1)).
Proof.
  induction 1 as [|ar rest Hready Hrest IH]; intros areas' p p' H.
  - injection H as <- <-. rewrite !app_nil_r. cbn. split; [lia|]. done.
  - cbn [connect_areas] in H.
    destruct (connect_area bs ar p) as [[ar1 p1]|e] eqn:H1; [|done].
    cbn [mbind result_bind] in H.
    destruct (connect_areas bs rest p1) as [[rest1 p2]|e] eqn:H2; [|done].
    cbn [mbind result_bind] in H. injection H as <- <-.
    apply (connect_area_lists _ _ _ _ _ Hready) in H1 as (-> & Hn1 & Ha1 & Hm1).
    apply IH in H2 as (Hn2 & Ha2 & Hm2 & Hidx).
    rewrite fmap_cons, Zsum_cons, !bind_cons, Hn2, Ha2, Hm2, Hn1, Ha1, Hm1, <- !app_assoc.
    split; [lia|]. split; [done|]. split; [done|].
    intros [|idx] a Ha.
    + injection Ha as <-. rewrite first_ports_0, Z.add_0_r. done.
    + change (rest !! idx = Some a) in Ha.
      change (rest1 !! idx = Some (set_ports a (n_ports p + first_ports (ar :: rest) (S idx))
                (n_ports p + first_ports (ar :: rest) (S idx) + wb_area.reps a - 1))).
      rewrite (Hidx idx a Ha), first_ports_S, Hn1.
      do 2 f_equal; lia.
Qed.

(** The element of a concatenation, counted from the start of its part. *)
Lemma bind_lookup_offset {A B : Type} (f : A -> list B) (size : A -> Z) (l : list A) :
  (forall a, length (f a) = Z.to_nat (size a)) ->
  Forall (fun a => 0 <= size a) l ->
  forall (idx : nat) (a : A) (i : Z),
  l !! idx = Some a -> 0 <= i < size a ->
  (l ≫= f) !! Z.to_nat (Zsum (take idx (size <$> l)) + i) = f a !! Z.to_nat i.
Proof.
  intros Hlen. induction 1 as [|x l Hx Hl IH]; intros idx a i Hidx Hi; [done|].
  rewrite bind_cons. destruct idx as [|idx].
  - injection Hidx as ->. cbn [take fmap]. rewrite lookup_app_l; [done|].
    rewrite Hlen. cbn. lia.
  - cbn [lookup list_lookup] in Hidx.
    rewrite fmap_cons, firstn_cons, Zsum_cons.
    assert (0 <= Zsum (take idx (size <$> l))).
    { apply Zsum_nonneg, Forall_take, Forall_fmap. done. }
    cbv beta in Hx. rewrite lookup_app_r; rewrite Hlen; [|lia]. rewrite <- (IH idx a i Hidx Hi). f_equal.
    lia.
Qed.

Lemma area_windows_lookup (bs : gmap string wb_block.t) (ar : wb_area.t) (i : Z) :
  0 <= i < wb_area.reps ar ->
  area_windows bs ar !! Z.to_nat i = Some (wb_area.adr ar + i * instance_span bs ar) /\
  area_masks bs ar !! Z.to_nat i = Some (instance_span bs ar - 1).
Proof.
  intros Hi. unfold area_windows, area_masks. rewrite !list_lookup_fmap.
  rewrite (lookup_seqZ_lt 0 (wb_area.reps ar) (Z.to_nat i)) by lia.
  simpl. rewrite Z2Nat.id by lia. done.
Qed.

(** The window and the mask of instance [i] of the area at position [idx]
    stand at the port [first_ports areas idx + i]. *)
Lemma windows_at_port (bs : gmap string wb_block.t) (areas : list wb_area.t)
    (idx : nat) (ar : wb_area.t) (i : Z) :
  Forall (area_ready bs) areas ->
  areas !! idx = Some ar -> 0 <= i < wb_area.reps ar ->
  (areas ≫= area_windows bs) !! Z.to_nat (first_ports areas idx + i) =
    Some (wb_area.adr ar + i * instance_span bs ar) /\
  (areas ≫= area_masks bs) !! Z.to_nat (first_ports areas idx + i) =
    Some (instance_span bs ar - 1).
Proof.
  intros Hready Hidx Hi.
  assert (Hnn : Forall (fun a => 0 <= wb_area.reps a) areas).
  { eapply Forall_impl; [exact Hready|]. intros a (Ha & _). simpl. lia. }
  destruct (area_windows_lookup bs ar i Hi) as (Hw & Hm).
  unfold first_ports. split.
  - rewrite (fun Hlen => bind_lookup_offset (area_windows bs) wb_area.reps areas
                           Hlen Hnn idx ar i Hidx Hi); [done|].
    intros a. unfold area_windows. by rewrite length_fmap, length_seqZ.
  - rewrite (fun Hlen => bind_lookup_offset (area_masks bs) wb_area.reps areas
                           Hlen Hnn idx ar i Hidx Hi); [done|].
    intros a. unfold area_masks. by rewrite length_fmap, length_seqZ.
Qed.

(** ** The two vectors *)

(** The loop over the ports writes the literals of the addresses and of the
    masks, the first without a comma before it. *)
Lemma port_vectors_eq (addresses bits : list Z) :
  length bits = length addresses ->
  forall (n k : nat) (adrs masks : string),
  (k + n)%nat = length addresses ->
  port_vectors (seqZ (Z.of_nat k) (Z.of_nat n)) addresses bits adrs masks =
  Ok (adrs +:+ vector_items (negb (0 <? Z.of_nat k)) (drop k addresses),
      masks +:+ vector_items (negb (0 <? Z.of_nat k)) (port_mask <$> drop k bits)).
Proof.
  intros Hlen. induction n as [|n IH]; intros k adrs masks Hk.
  - rewrite !drop_ge by lia. simpl. by rewrite !append_nil_r.
  - rewrite seqZ_cons by lia. cbn [port_vectors]. rewrite Nat2Z.id.
    destruct (lookup_lt_is_Some_2 addresses k ltac:(lia)) as [a Ha].
    destruct (lookup_lt_is_Some_2 bits k ltac:(lia)) as [b Hb].
    rewrite Ha, Hb.
    replace (Z.succ (Z.of_nat k)) with (Z.of_nat (S k)) by lia.
    replace (Z.pred (Z.of_nat (S n))) with (Z.of_nat n) by lia.
    rewrite IH by lia.
    rewrite (drop_S _ _ _ Ha), (drop_S _ _ _ Hb), fmap_cons.
    replace (0 <? Z.of_nat (S k)) with true by (symmetry; apply Z.ltb_lt; lia).
    cbn [vector_items negb]. unfold port_mask at 2.
    destruct (0 <? Z.of_nat k); cbn [negb]; by rewrite !append_assoc.
Qed.

Lemma length_bind_windows (bs : gmap string wb_block.t) (areas : list wb_area.t) :
  Forall (fun a => 0 <= wb_area.reps a) areas ->
  length (areas ≫= area_windows bs) = Z.to_nat (Zsum (wb_area.reps <$> areas)) /\
  length (areas ≫= area_masks bs) = Z.to_nat (Zsum (wb_area.reps <$> areas)).
Proof.
  induction 1 as [|a l Ha Hl IH]; [done|].
  rewrite !bind_cons, !length_app, fmap_cons, Zsum_cons.
  destruct IH as [-> ->]. unfold area_windows, area_masks.
  rewrite !length_fmap, !length_seqZ.
  assert (0 <= Zsum (wb_area.reps <$> l)).
  { apply Zsum_nonneg, Forall_fmap. done. }
  cbv beta in Ha. lia.
Qed.

(** ** The sections the registers leave alone *)

Lemma wb_reg_gen_vhdl_keeps (r : wb_reg.t) (b : wb_block.t) (k : string) :
  k <> "p_package"%string -> k <> "p_package_body"%string ->
  k <> "signal_ports"%string -> k <> "register_access"%string ->
  wb_block.templ_dict (wb_reg_gen_vhdl r b) !! k = wb_block.templ_dict b !! k.
Proof.
  intros H1 H2 H3 H4. unfold wb_reg_gen_vhdl. destruct (wb_reg_package r) as [dt dtb].
  transitivity (wb_block.templ_dict
    (add_templ (add_templ (add_templ b "p_package" dt 0) "p_package_body" dtb 0)
       "signal_ports" (wb_reg_port r) 4) !! k); [|by rewrite !add_templ_lookup_ne].
  generalize (add_templ (add_templ (add_templ b "p_package" dt 0) "p_package_body" dtb 0)
       "signal_ports" (wb_reg_port r) 4).
  generalize (seqZ 0 (wb_reg.size r)). intros l.
  induction l as [|i l IH]; intros b0; [done|].
  cbn [foldl]. rewrite IH. by rewrite add_templ_lookup_ne.
Qed.

Lemma gen_vhdl_regs_keeps (b : wb_block.t) (k : string) :
  k <> "p_package"%string -> k <> "p_package_body"%string ->
  k <> "signal_ports"%string -> k <> "register_access"%string ->
  k <> "signal_decls"%string -> k <> "subblk_busses"%string ->
  wb_block.templ_dict (gen_vhdl_regs b) !! k = wb_block.templ_dict b !! k.
Proof.
  intros H1 H2 H3 H4 H5 H6. unfold gen_vhdl_regs. cbv zeta.
  transitivity (wb_block.templ_dict
    (add_templ (add_templ (add_templ (add_templ (add_templ b "p_package" "" 0)
       "p_package_body" "" 0) "signal_decls" "" 0) "register_access" "" 0)
       "subblk_busses" "" 0) !! k); [|by rewrite !add_templ_lookup_ne].
  generalize (add_templ (add_templ (add_templ (add_templ (add_templ b "p_package" "" 0)
       "p_package_body" "" 0) "signal_decls" "" 0) "register_access" "" 0)
       "subblk_busses" "" 0) at 1 3.
  generalize (wb_block.regs
    (add_templ (add_templ (add_templ (add_templ (add_templ b "p_package" "" 0)
       "p_package_body" "" 0) "signal_decls" "" 0) "register_access" "" 0)
       "subblk_busses" "" 0)). intros l.
  induction l as [|r l IH]; intros b0; [done|].
  cbn [foldl]. rewrite IH. by apply wb_reg_gen_vhdl_keeps.
Qed.

(** With areas that are ready, filling the dictionary comes down to the
    loop over the areas and the entries written after it. *)
Lemma gen_vhdl_fill_ready (bs : gmap string wb_block.t) (b : wb_block.t)
    (areas' : list wb_area.t) (p' : ports) :
  Forall (area_ready bs) (wb_block.areas b) ->
  connect_areas bs (wb_block.areas b) (Ports (gen_vhdl_regs b) 0 [] []) = Ok (areas', p') ->
  gen_vhdl_fill bs b =
  gen_vhdl_finish (set_areas (p_self p') areas')
    ("(" +:+ vector_items true (wb_block.areas b ≫= area_windows bs))
    ("(" +:+ vector_items true (wb_block.areas b ≫= area_masks bs))
    (Zsum (wb_area.reps <$> wb_block.areas b)).
Proof.
  intros Hready Hc. unfold gen_vhdl_fill. cbv zeta. rewrite gen_vhdl_regs_areas, Hc.
  cbn [mbind result_bind].
  apply (connect_areas_lists _ _ Hready) in Hc as (Hn & Ha & Hm & Hidx).
  cbn [n_ports ar_addresses ar_adr_bits fmap list_fmap app] in Hn, Ha, Hm, Hidx.
  assert (Hnn : Forall (fun a => 0 <= wb_area.reps a) (wb_block.areas b)).
  { eapply Forall_impl; [exact Hready|]. intros a (Hr & _). simpl. lia. }
  destruct (length_bind_windows bs _ Hnn) as (Hla & Hlm).
  assert (Hlb : length (ar_adr_bits p') = length (ar_addresses p')).
  { rewrite <- (length_fmap port_mask), Hm, Ha. lia. }
  assert (Hsum : 0 <= Zsum (wb_area.reps <$> wb_block.areas b)).
  { apply Zsum_nonneg, Forall_fmap. done. }
  assert (Hnp : n_ports p' = Z.of_nat (length (ar_addresses p'))).
  { rewrite Hn, Ha, Hla. rewrite Z2Nat.id; lia. }
  rewrite Hnp.
  pose proof (port_vectors_eq _ _ Hlb (length (ar_addresses p')) 0 "(" "(" ltac:(lia))
    as Hpv.
  change (Z.of_nat 0) with 0 in Hpv. rewrite Hpv.
  cbn [mbind result_bind negb Z.ltb Z.compare drop].
  rewrite !drop_0, Hm, Ha, Hla, Z2Nat.id by done. reflexivity.
Qed.

(** The sections [p_addresses], [p_masks] and [nof_subblks] after the
    dictionary is filled, and the ports of the areas. *)
Lemma gen_vhdl_fill_vectors (bs : gmap string wb_block.t) (b b' : wb_block.t) :
  Forall (area_ready bs) (wb_block.areas b) ->
  gen_vhdl_fill bs b = Ok b' ->
  wb_block.templ_dict b' !! "p_addresses" =
    Some (default ""%string (wb_block.templ_dict b !! "p_addresses") +:+
          templ_text 0 (("(" +:+ vector_items true (wb_block.areas b ≫= area_windows bs))
                        +:+ ");")) /\
  wb_block.templ_dict b' !! "p_masks" =
    Some (default ""%string (wb_block.templ_dict b !! "p_masks") +:+
          templ_text 0 (("(" +:+ vector_items true (wb_block.areas b ≫= area_masks bs))
                        +:+ ");")) /\
  wb_block.templ_dict b' !! "nof_subblks" =
    Some (default ""%string (wb_block.templ_dict b !! "nof_subblks") +:+
          templ_text 0 (py_str (Zsum (wb_area.reps <$> wb_block.areas b)))) /\
  forall (idx : nat) (ar : wb_area.t), wb_block.areas b !! idx = Some ar ->
    wb_block.areas b' !! idx =
    Some (set_ports ar (first_ports (wb_block.areas b) idx)
            (first_ports (wb_block.areas b) idx + wb_area.reps ar - 1)).
Proof.
  intros Hready Hfill.
  destruct (connect_areas bs (wb_block.areas b) (Ports (gen_vhdl_regs b) 0 [] []))
    as [[areas' p']|e] eqn:Hc.
  2:{ unfold gen_vhdl_fill in Hfill. cbv zeta in Hfill.
      rewrite gen_vhdl_regs_areas, Hc in Hfill. done. }
  rewrite (gen_vhdl_fill_ready _ _ _ _ Hready Hc) in Hfill.
  pose proof (connect_areas_keeps _ "p_addresses" _ ltac:(done) ltac:(done) _ _ _ Hc) as Hka.
  pose proof (connect_areas_keeps _ "p_masks" _ ltac:(done) ltac:(done) _ _ _ Hc) as Hkm.
  pose proof (connect_areas_keeps _ "nof_subblks" _ ltac:(done) ltac:(done) _ _ _ Hc) as Hkn.
  cbn [p_self] in Hka, Hkm, Hkn.
  rewrite gen_vhdl_regs_keeps in Hka, Hkm, Hkn by done.
  apply (connect_areas_lists _ _ Hready) in Hc as (_ & _ & _ & Hidx).
  cbn [n_ports] in Hidx.
  revert Hfill. unfold gen_vhdl_finish. cbv zeta.
  destruct (wb_block.adr_bits _) as [bits|]; [|done].
  intros [= <-].
  split; [|split; [|split]].
  - rewrite !add_templ_lookup_ne by done. rewrite add_templ_lookup_eq.
    rewrite !add_templ_lookup_ne by done.
    change (wb_block.templ_dict (set_areas (p_self p') areas'))
      with (wb_block.templ_dict (p_self p')). by rewrite Hka.
  - rewrite !add_templ_lookup_ne by done. rewrite add_templ_lookup_eq.
    rewrite !add_templ_lookup_ne by done.
    change (wb_block.templ_dict (set_areas (p_self p') areas'))
      with (wb_block.templ_dict (p_self p')). by rewrite Hkm.
  - rewrite !add_templ_lookup_ne by done. rewrite add_templ_lookup_eq.
    rewrite !add_templ_lookup_ne by done.
    change (wb_block.templ_dict (set_areas (p_self p') areas'))
      with (wb_block.templ_dict (p_self p')). by rewrite Hkn.
  - intros idx ar Har. specialize (Hidx idx ar Har). rewrite !Z.add_0_l in Hidx.
    rewrite <- Hidx. reflexivity.
Qed.

(** ** When the emitter succeeds *)

Lemma connect_instances_total (bs : gmap string wb_block.t) (ar : wb_area.t)
    (bt : wb_block.t) (w n : Z) (nm : string) (indices : list Z) :
  area_obj bs ar = Ok bt -> wb_block.addr_size bt = Some w ->
  wb_block.adr_bits bt = Some n -> wb_area.name ar = Some nm ->
  forall (base nport : Z) (p : ports),
  exists p', connect_instances bs ar indices base nport p = Ok p'.
Proof.
  intros Hobj Hw Hn Hnm. induction indices as [|i rest IH]; intros base nport p.
  - by eexists.
  - cbn [connect_instances]. rewrite Hobj. cbn [mbind result_bind].
    unfold obj_addr_size, obj_adr_bits, area_name. rewrite Hw, Hn, Hnm.
    cbn [mbind result_bind]. apply IH.
Qed.

Lemma connect_area_total (bs : gmap string wb_block.t) (ar : wb_area.t) (p : ports) :
  area_ready bs ar -> wb_area.name ar <> None ->
  exists ar' p', connect_area bs ar p = Ok (ar', p').
Proof.
  intros (Hreps & n & Hn & Hspan & Hbits1 & Hobj) Hnm.
  destruct (wb_area.name ar) as [nm|] eqn:Hname; [clear Hnm|done].
  unfold connect_area. destruct (wb_area.reps ar =? 1) eqn:Hone.
  - apply Z.eqb_eq in Hone. specialize (Hbits1 Hone).
    unfold area_adr_bits, area_name, area_name_left.
    cbn [set_ports wb_area.adr_bits wb_area.obj wb_area.adr wb_area.name].
    rewrite Hbits1, Hname. cbn [mbind result_bind].
    destruct (wb_area.obj ar); cbn [mbind result_bind]; by eexists _, _.
  - destruct (wb_area.obj ar) as [t|] eqn:Ht; [|apply Z.eqb_neq in Hone; done].
    destruct Hobj as (bt & Hbt & Hw & Hb).
    unfold area_name_left. cbn [set_ports wb_area.name]. rewrite Hname.
    cbn [mbind result_bind].
    edestruct (connect_instances_total bs
                 (set_ports ar (n_ports p) (n_ports p + wb_area.reps ar - 1))
                 bt (2 ^ n) n nm) as [p' Hp']; [|done|done|done|].
    { unfold area_obj. cbn [set_ports wb_area.obj]. by rewrite Ht, Hbt. }
    rewrite Hp'. cbn [mbind result_bind]. by eexists _, _.
Qed.

Lemma connect_areas_total (bs : gmap string wb_block.t) (areas : list wb_area.t) :
  Forall (area_ready bs) areas ->
  Forall (fun ar => wb_area.name ar <> None) areas ->
  forall p, exists areas' p', connect_areas bs areas p = Ok (areas', p').
Proof.
  induction 1 as [|ar rest Hready Hrest IH]; intros Hnamed p.
  - by eexists _, _.
  - apply Forall_cons_1 in Hnamed as [Hnm Hnamed]. cbn [connect_areas].
    destruct (connect_area_total bs ar p Hready Hnm) as (ar' & p1 & ->).
    cbn [mbind result_bind].
    destruct (IH Hnamed p1) as (rest' & p2 & ->).
    cbn [mbind result_bind]. by eexists _, _.
Qed.

Lemma gen_vhdl_fill_total (bs : gmap string wb_block.t) (b : wb_block.t) :
  Forall (area_ready bs) (wb_block.areas b) ->
  Forall (fun ar => wb_area.name ar <> None) (wb_block.areas b) ->
  wb_block.adr_bits b <> None ->
  exists b', gen_vhdl_fill bs b = Ok b'.
Proof.
  intros Hready Hnamed Hbits.
  destruct (connect_areas_total bs _ Hready Hnamed (Ports (gen_vhdl_regs b) 0 [] []))
    as (areas' & p' & Hc).
  rewrite (gen_vhdl_fill_ready _ _ _ _ Hready Hc).
  pose proof (p_appends_self _ _ _ _ (connect_areas_appends _ _) Hc) as Hcl.
  cbn [p_self] in Hcl. rewrite gen_vhdl_regs_eq in Hcl.
  apply clear_dict_eq in Hcl.
  unfold gen_vhdl_finish. cbv zeta.
  rewrite Hcl. cbn [add_templ set_areas set_templ_dict wb_block.adr_bits].
  destruct (wb_block.adr_bits b) as [bits|]; [|done]. by eexists.
Qed.

(** ** The areas of an analyzed block *)

Lemma analyzed_area (bs bs' : gmap string wb_block.t) (k : string)
    (b' : wb_block.t) (ar : wb_area.t) :
  registry_built_ok bs -> registry_analyzed bs bs' ->
  bs' !! k = Some b' -> ar ∈ wb_block.areas b' ->
  area_ready bs' ar /\ wb_block.adr_bits b' <> None /\
  (wb_area.obj ar <> None ->
   wb_area.size ar = wb_area.reps ar * instance_span bs' ar).
Proof.
  intros Hbuilt Ha Hb' Har.
  assert (Hfresh : registry_fresh bs)
    by (by apply registry_built_fresh, registry_built_ok_built).
  destruct (registry_analyzed_lookup _ _ _ _ Ha Hb') as (b & Hb & [->|Hfrom]).
  { destruct (Hfresh k b Hb) as (Hnil & _). rewrite Hnil in Har.
    by apply elem_of_nil in Har. }
  apply analyzed_from_fields in Hfrom as (subs & Hsubs & _ & Hareas & _ & _ & Hbits).
  destruct (registry_built_ok_sizes _ _ _ Hbuilt Hb) as (Hfree & Hreps).
  rewrite Hareas in Har.
  destruct (placed_elem _ _ _ Har) as (ar0 & c0 & Hin0 & ->).
  rewrite <- sort_desc_perm in Hin0.
  split; [|split; [by rewrite Hbits|]].
  - apply elem_of_cons in Hin0 as [->|Hin0].
    + split; [simpl; lia|].
      exists (bit_length (wb_block.free_reg_addr b - 1)).
      split; [apply bit_length_nonneg|].
      split; [apply Z.shiftl_1_l|]. split; [done|]. done.
    + apply list_elem_of_lookup in Hin0 as (i & Hi).
      destruct (Forall2_lookup_r _ _ _ _ _ Hsubs Hi) as (sblk & Hsblk & bl & s & Hbl & Hs & ->).
      rewrite Forall_forall in Hreps.
      assert (Hr : 1 <= default 1 (xs_reps sblk)).
      { apply Hreps. by eapply list_elem_of_lookup_2. }
      destruct (registry_analyzed_addr_size _ _ _ _ _ Hfresh Ha Hbl Hs)
        as (n & Hn & -> & Hbln).
      split; [done|]. exists n. split; [done|].
      unfold instance_span. cbn [place_area wb_area_init wb_area.obj wb_area.reps
                                 wb_area.adr_bits wb_area.size].
      rewrite Hbl. cbn [mbind option_bind]. rewrite Hs. cbn [default from_option id].
      split; [done|]. split; [|by exists bl].
      intros ->. by rewrite Z.mul_1_r, bit_length_of_pow2.
  - intros Hobj. apply elem_of_cons in Hin0 as [->|Hin0]; [done|].
    apply list_elem_of_lookup in Hin0 as (i & Hi).
    destruct (Forall2_lookup_r _ _ _ _ _ Hsubs Hi) as (sblk & Hsblk & bl & s & Hbl & Hs & ->).
    unfold instance_span. cbn [place_area wb_area_init wb_area.obj wb_area.reps
                               wb_area.adr_bits wb_area.size].
    rewrite Hbl. cbn [mbind option_bind]. rewrite Hs. cbn [default from_option id]. lia.
Qed.

(** C6: the area of a sub-block reference is [reps] times the rounded span
    of the referenced block; the emitter gives the instances the ports from
    the first port of the area on, instance [i] with the address of the area
    plus [i] spans and with the span minus one as its mask. *)
Theorem C6_subblock_windows (bs : gmap string wb_block.t) (fuel : nat) (top : string)
    (out : list print_event) (st' : world) :
  registry_built_ok bs ->
  analyze fuel top (World bs out) = Done st' ->
  forall k b, blocks st' !! k = Some b ->
    (forall ar t, ar ∈ wb_block.areas b -> wb_area.obj ar = Some t ->
       1 <= wb_area.reps ar /\
       exists bt n, blocks st' !! t = Some bt /\ 0 <= n /\
         wb_block.addr_size bt = Some (2 ^ n) /\
         instance_span (blocks st') ar = 2 ^ n /\
         wb_area.size ar = wb_area.reps ar * 2 ^ n) /\
    (forall b', gen_vhdl_fill (blocks st') b = Ok b' ->
       wb_block.templ_dict b' !! "p_addresses" =
         Some (default ""%string (wb_block.templ_dict b !! "p_addresses") +:+
               templ_text 0 (("(" +:+ vector_items true
                                        (wb_block.areas b ≫= area_windows (blocks st')))
                             +:+ ");")) /\
       wb_block.templ_dict b' !! "p_masks" =
         Some (default ""%string (wb_block.templ_dict b !! "p_masks") +:+
               templ_text 0 (("(" +:+ vector_items true
                                        (wb_block.areas b ≫= area_masks (blocks st')))
                             +:+ ");")) /\
       forall idx ar, wb_block.areas b !! idx = Some ar ->
         let first := first_ports (wb_block.areas b) idx in
         wb_block.areas b' !! idx =
           Some (set_ports ar first (first + wb_area.reps ar - 1)) /\
         forall i, 0 <= i < wb_area.reps ar ->
           (wb_block.areas b ≫= area_windows (blocks st')) !! Z.to_nat (first + i) =
             Some (wb_area.adr ar + i * instance_span (blocks st') ar) /\
           (wb_block.areas b ≫= area_masks (blocks st')) !! Z.to_nat (first + i) =
             Some (instance_span (blocks st') ar - 1)) /\
    (wb_block.areas b <> [] ->
     Forall (fun ar => wb_area.name ar <> None) (wb_block.areas b) ->
     exists b', gen_vhdl_fill (blocks st') b = Ok b').
Proof.
  intros Hbuilt Hrun k b Hb.
  assert (Hfresh : registry_fresh bs)
    by (by apply registry_built_fresh, registry_built_ok_built).
  pose proof (analyze_fresh _ _ _ _ _ Hfresh Hrun) as Ha.
  assert (Hready : Forall (area_ready (blocks st')) (wb_block.areas b)).
  { apply Forall_forall. intros ar Har.
    by destruct (analyzed_area _ _ _ _ _ Hbuilt Ha Hb Har) as (? & _). }
  split; [|split].
  - intros ar t Har Ht.
    destruct (analyzed_area _ _ _ _ _ Hbuilt Ha Hb Har)
      as ((Hreps & n & Hn & Hspan & _ & Hobj) & _ & Hsize).
    rewrite Ht in Hobj. destruct Hobj as (bt & Hbt & Hw & _).
    split; [done|]. exists bt, n. rewrite <- Hspan.
    split; [done|]. split; [done|]. split; [by rewrite Hspan|]. split; [done|].
    apply Hsize. by rewrite Ht.
  - intros b' Hfill.
    destruct (gen_vhdl_fill_vectors _ _ _ Hready Hfill) as (Hpa & Hpm & _ & Hidx).
    split; [done|]. split; [done|].
    intros idx ar Har first. split; [by apply Hidx|].
    intros i Hi. by apply windows_at_port.
  - intros Hne Hnamed. apply gen_vhdl_fill_total; [done|done|].
    destruct (wb_block.areas b) as [|ar l] eqn:Hl; [done|].
    assert (Har : ar ∈ wb_block.areas b) by (rewrite Hl; left).
    by destruct (analyzed_area _ _ _ _ _ Hbuilt Ha Hb Har) as (_ & ? & _).
Qed.

(** The block [V] holds three instances of [C], whose registers span six
    addresses and whose rounded span is eight: the windows lie eight apart
    and the masks are seven. *)
Lemma C6_subblock_windows_witness :
  exists b ar b',
    blocks ex_after_vec !! "V" = Some b /\
    wb_block.areas b !! 0%nat = Some ar /\
    wb_area.obj ar = Some "C"%string /\ wb_area.reps ar = 3 /\ wb_area.size ar = 24 /\
    gen_vhdl_fill (blocks ex_after_vec) b = Ok b' /\
    wb_block.areas b ≫= area_windows (blocks ex_after_vec) = [0; 8; 16; 32] /\
    wb_block.areas b ≫= area_masks (blocks ex_after_vec) = [7; 7; 7; 3] /\
    wb_block.areas b' !! 0%nat = Some (set_ports ar 0 2) /\
    (forall i, 0 <= i < 3 ->
       (wb_block.areas b ≫= area_windows (blocks ex_after_vec)) !! Z.to_nat (0 + i) =
         Some (wb_area.adr ar + i * instance_span (blocks ex_after_vec) ar)).
Proof.
  destruct (blocks ex_after_vec !! "V") as [b|] eqn:Hb; [|by vm_compute in Hb].
  destruct (wb_block.areas b !! 0%nat) as [ar|] eqn:Har;
    [|by (vm_compute in Hb; injection Hb as <-; vm_compute in Har)].
  destruct (C6_subblock_windows ex_registry 6 "V" [] ex_after_vec
              ex_registry_built_ok ex_after_vec_run "V" b Hb) as (Hsize & Hemit & Htotal).
  destruct Htotal as (b' & Hfill).
  { vm_compute in Hb. injection Hb as <-. done. }
  { vm_compute in Hb. injection Hb as <-.
    vm_compute. repeat (apply Forall_cons_2; [discriminate|]). apply Forall_nil_2. }
  destruct (Hemit b' Hfill) as (_ & _ & Hidx).
  destruct (Hidx 0%nat ar Har) as (Hports & Hwin).
  assert (Hreps : wb_area.reps ar = 3).
  { vm_compute in Hb. injection Hb as <-. vm_compute in Har. by injection Har as <-. }
  exists b, ar, b'. split; [done|]. split; [done|].
  split. { vm_compute in Hb. injection Hb as <-. vm_compute in Har. by injection Har as <-. }
  split; [done|].
  split. { vm_compute in Hb. injection Hb as <-. vm_compute in Har. by injection Har as <-. }
  split; [done|].
  split. { vm_compute in Hb. injection Hb as <-. vm_compute. reflexivity. }
  split. { vm_compute in Hb. injection Hb as <-. vm_compute. reflexivity. }
  split. { rewrite Hports, Hreps. reflexivity. }
  intros i Hi. apply Hwin. rewrite Hreps. done.
Defined.

(** ** The fields of a constructed register *)

Lemma packed_lsb_nonneg (fields : list wb_field.t) :
  forall (o : Z) (fl : wb_field.t),
  0 <= o -> Forall (fun fl => 0 <= wb_field.size fl) fields -> packed o fields ->
  fl ∈ fields ->
  0 <= wb_field.lsb fl /\ wb_field.msb fl = wb_field.lsb fl + wb_field.size fl - 1 /\
  wb_field.lsb fl + wb_field.size fl <= o + Zsum (wb_field.size <$> fields).
Proof.
  induction fields as [|f rest IH]; intros o fl Ho Hsz Hp Hin.
  { by apply elem_of_nil in Hin. }
  apply Forall_cons_1 in Hsz as [Hf Hsz]. destruct Hp as (Hlsb & Hmsb & Hp).
  rewrite fmap_cons, Zsum_cons.
  assert (0 <= Zsum (wb_field.size <$> rest)).
  { apply Zsum_nonneg, Forall_fmap. done. }
  apply elem_of_cons in Hin as [->|Hin]; [lia|].
  destruct (IH (o + wb_field.size f) fl ltac:(lia) Hsz Hp Hin) as (H1 & H2 & H3). lia.
Qed.

Lemma packed_app (l1 l2 : list wb_field.t) (o : Z) :
  packed o (l1 ++ l2) <-> packed o l1 /\ packed (o + Zsum (wb_field.size <$> l1)) l2.
Proof.
  revert o. induction l1 as [|fl l1 IH]; intros o.
  - simpl. rewrite Z.add_0_r. tauto.
  - rewrite fmap_cons, Zsum_cons. cbn [app packed]. rewrite IH, Z.add_assoc. tauto.
Qed.

Lemma wb_reg_read_fields_packed (name : string) (fls : list xml_field) :
  forall (fields : list wb_field.t) (free_bit : Z) (fields' : list wb_field.t)
         (free_bit' : Z),
  wb_reg_read_fields name fls fields free_bit = Ok (fields', free_bit') ->
  exists new, fields' = fields ++ new /\ packed free_bit new /\
              free_bit' = free_bit + Zsum (wb_field.size <$> new) /\
              (new <> [] -> free_bit' <= 32).
Proof.
  induction fls as [|fl rest IH]; intros fields free_bit fields' free_bit' H.
  - injection H as <- <-. exists []. rewrite app_nil_r. simpl.
    split; [done|]. split; [done|]. split; [lia|done].
  - cbn [wb_reg_read_fields wb_field_init wb_field.size] in H.
    destruct (Z.ltb_spec 32 (free_bit + xf_width fl)) as [Hov|Hok]; [done|].
    apply IH in H as (new & -> & Hp & -> & Hle).
    exists (wb_field_init fl free_bit :: new). rewrite <- app_assoc.
    split; [done|]. split; [done|].
    rewrite fmap_cons, Zsum_cons. cbn [wb_field_init wb_field.size].
    split; [lia|]. intros _. destruct new as [|f new]; [simpl; lia|].
    apply Hle. done.
Qed.

Lemma wb_reg_init_packed (tag : string) (el : xml_reg) (adr : Z) (r : wb_reg.t) :
  wb_reg_init tag el adr = Ok r ->
  packed 0 (wb_reg.fields r) /\
  wb_reg.free_bit r = Zsum (wb_field.size <$> wb_reg.fields r) /\
  (wb_reg.fields r <> [] -> wb_reg.free_bit r <= 32).
Proof.
  unfold wb_reg_init.
  destruct (wb_reg_read_fields _ _ _ _) as [[fields fb]|e] eqn:Hread; [|done].
  cbn [mbind result_bind]. intros [= <-]. cbn [wb_reg.fields wb_reg.free_bit].
  apply wb_reg_read_fields_packed in Hread as (new & -> & Hp & -> & Hle).
  simpl. done.
Qed.

(** ** The text of the function bodies *)

Lemma foldl_append {A : Type} (f : A -> string) (l : list A) :
  forall acc, foldl (fun acc a => acc +:+ f a) acc l = acc +:+ strcat (f <$> l).
Proof.
  induction l as [|a l IH]; intros acc.
  - simpl. by rewrite append_nil_r.
  - cbn [foldl]. rewrite IH, fmap_cons.
    change (strcat (f a :: (f <$> l))) with (f a +:+ strcat (f <$> l)).
    by rewrite append_assoc.
Qed.

Lemma wb_reg_package_bodies (r : wb_reg.t) :
  wb_reg.fields r <> [] -> (wb_reg_package r).2 = conversion_bodies r.
Proof.
  intros Hne. unfold wb_reg_package, conversion_bodies. cbv zeta.
  destruct (decide (length (wb_reg.fields r) = 0%nat)) as [Hlen|_].
  { destruct (wb_reg.fields r); done. }
  cbn [snd]. rewrite !foldl_append, !append_assoc. reflexivity.
Qed.

(** ** The parentheses of the emitted statements *)

Lemma paren_depth_app (s1 s2 : string) :
  paren_depth (s1 +:+ s2) = paren_depth s1 + paren_depth s2.
Proof.
  induction s1 as [|c s1 IH]; [done|].
  change (paren_depth (String c (s1 +:+ s2)) =
          paren_depth (String c s1) + paren_depth s2).
  cbn [paren_depth]. rewrite IH. lia.
Qed.

Lemma paren_depth_uint (d : Decimal.uint) :
  paren_depth (DecimalString.NilEmpty.string_of_uint d) = 0.
Proof. induction d; cbn [DecimalString.NilEmpty.string_of_uint paren_depth]; done. Qed.

Lemma paren_depth_py_str (n : Z) : paren_depth (py_str n) = 0.
Proof.
  unfold py_str, DecimalString.NilZero.string_of_int, DecimalString.NilZero.string_of_uint.
  destruct (Z.to_int n) as [d|d].
  - destruct d; [done|apply paren_depth_uint..].
  - change (0 + paren_depth match d with
                            | Decimal.Nil => "0"
                            | _ => DecimalString.NilEmpty.string_of_uint d
                            end = 0).
    destruct d; [done|rewrite paren_depth_uint; done..].
Qed.

(** The statement written for unpacking a field closes every parenthesis
    it opens; the statement written for packing it closes one more. *)
Lemma stmt_paren_depth (fl : wb_field.t) :
  paren_depth (unpack_stmt fl) =
    paren_depth (wb_field.name fl) + paren_depth (wb_field.type fl) /\
  paren_depth (pack_stmt fl) = paren_depth (wb_field.name fl) - 1.
Proof.
  unfold unpack_stmt, pack_stmt. rewrite !paren_depth_app, !paren_depth_py_str.
  split.
  - change (0 + (paren_depth (wb_field.name fl) +
                 (0 + (paren_depth (wb_field.type fl) + (2 + (0 + (0 + (0 + (-2 + 0)))))))) =
            paren_depth (wb_field.name fl) + paren_depth (wb_field.type fl)). lia.
  - change (1 + (0 + (0 + (0 + (0 + (paren_depth (wb_field.name fl) + (-2 + 0)))))) =
            paren_depth (wb_field.name fl) - 1). lia.
Qed.

(** C9: for the register [b0] with the fields [lo] of eight bits and [hi]
    of four the emitter writes these two function bodies.  The body of the
    packing function declares [res] without bounds, and each of its
    assignments closes one parenthesis more than it opens, where the
    assignments of the unpacking function are balanced: the text is not a
    function that could give the aggregate back. *)
Theorem C9_pack_body_malformed :
  exists r,
    wb_reg_init "creg" ex_reg_b0 2 = Ok r /\
    (wb_reg_package r).2 =
      String.concat nl
        [ "function stlv2t_b0(x : std_logic_vector) return t_b0 is";
          "variable res : t_b0;";
          "begin";
          "  res.lo := std_logic_vector(x(7 downto 0));";
          "  res.hi := unsigned(x(11 downto 8));";
          "  return res;";
          "end stlv2t_b0;";
          "";
          "function t_b02stlv(x : t_b0) return std_logic_vector is";
          "variable res : std_logic_vector;";
          "begin";
          "  res := (others => '0');";
          "  res(7 downto 0) := std_logic_vector(x.lo));";
          "  res(11 downto 8) := std_logic_vector(x.hi));";
          "  return res;";
          "end t_b02stlv;";
          ""; "" ]%string /\
    (wb_reg_package r).2 = conversion_bodies r /\
    paren_depth <$> (unpack_stmt <$> wb_reg.fields r) = [0; 0] /\
    paren_depth <$> (pack_stmt <$> wb_reg.fields r) = [-1; -1].
Proof.
  eexists. split; [reflexivity|].
  split; [vm_compute; reflexivity|].
  split; [by apply wb_reg_package_bodies|].
  split; vm_compute; reflexivity.
Qed.

(** ** Emission does not read the port slots *)

Lemma add_templ_set_areas (b : wb_block.t) (l : list wb_area.t) (key value : string)
    (indent : Z) :
  add_templ (set_areas b l) key value indent = set_areas (add_templ b key value indent) l.
Proof. rewrite !add_templ_eq. reflexivity. Qed.

Lemma foldl_set_areas {X : Type} (step : X -> wb_block.t -> wb_block.t) (xs : list X) :
  (forall x b l, step x (set_areas b l) = set_areas (step x b) l) ->
  forall b l, foldl (fun b x => step x b) (set_areas b l) xs =
              set_areas (foldl (fun b x => step x b) b xs) l.
Proof.
  intros Hstep. induction xs as [|x xs IH]; intros b l; [done|].
  cbn [foldl]. by rewrite Hstep, IH.
Qed.

Lemma wb_reg_gen_vhdl_set_areas (r : wb_reg.t) (b : wb_block.t) (l : list wb_area.t) :
  wb_reg_gen_vhdl r (set_areas b l) = set_areas (wb_reg_gen_vhdl r b) l.
Proof.
  unfold wb_reg_gen_vhdl. destruct (wb_reg_package r) as [dt dtb].
  rewrite !add_templ_set_areas.
  apply (foldl_set_areas (fun i b => add_templ b "register_access" (case_arm r i) 10)).
  intros i b0 l0. apply add_templ_set_areas.
Qed.

Lemma gen_vhdl_regs_set_areas (b : wb_block.t) (l : list wb_area.t) :
  gen_vhdl_regs (set_areas b l) = set_areas (gen_vhdl_regs b) l.
Proof.
  unfold gen_vhdl_regs. cbv zeta. rewrite !add_templ_set_areas.
  change (wb_block.regs (set_areas ?x l)) with (wb_block.regs x).
  apply (foldl_set_areas wb_reg_gen_vhdl). apply wb_reg_gen_vhdl_set_areas.
Qed.

Lemma connect_instances_set_areas (bs : gmap string wb_block.t) (ar : wb_area.t)
    (l : list wb_area.t) (indices : list Z) :
  forall (base nport : Z) (p : ports),
  connect_instances bs ar indices base nport (p_set_areas p l) =
  result_map (fun p' => p_set_areas p' l) (connect_instances bs ar indices base nport p).
Proof.
  induction indices as [|i rest IH]; intros base nport p; [done|].
  cbn [connect_instances].
  destruct (area_obj bs ar) as [bl|e]; [|done]. cbn [mbind result_bind].
  destruct (obj_addr_size bl) as [step|e]; [|done]. cbn [mbind result_bind].
  destruct (obj_adr_bits bl) as [bits|e]; [|done]. cbn [mbind result_bind].
  destruct (area_name ar) as [name|e]; [|done]. cbn [mbind result_bind].
  rewrite <- IH. unfold p_set_areas at 1 2 3 4.
  cbn [p_self n_ports ar_addresses ar_adr_bits]. by rewrite add_templ_set_areas.
Qed.

Lemma connect_area_set_areas (bs : gmap string wb_block.t) (ar : wb_area.t)
    (l : list wb_area.t) (p : ports) :
  connect_area bs ar (p_set_areas p l) =
  result_map (fun '(ar', p') => (ar', p_set_areas p' l)) (connect_area bs ar p).
Proof.
  unfold connect_area. cbn [p_set_areas n_ports ar_addresses ar_adr_bits p_self].
  destruct (wb_area.reps ar =? 1).
  - destruct (area_adr_bits _) as [bits|e]; [|done]. cbn [mbind result_bind].
    cbn [set_ports wb_area.obj].
    unfold area_name, area_name_left. cbn [set_ports wb_area.name].
    destruct (wb_area.obj ar) as [key|].
    + destruct (wb_area.name ar) as [name|]; [|done].
      cbn [mbind result_bind result_map].
      unfold p_set_areas. cbn [p_self n_ports ar_addresses ar_adr_bits].
      by rewrite !add_templ_set_areas.
    + cbn [mbind result_bind].
      destruct (wb_area.name ar) as [name|]; [|done].
      cbn [mbind result_bind result_map].
      unfold p_set_areas. cbn [p_self n_ports ar_addresses ar_adr_bits].
      by rewrite !add_templ_set_areas.
  - destruct (area_name_left _) as [name|e]; [|done]. cbn [mbind result_bind].
    rewrite add_templ_set_areas.
    pose proof (connect_instances_set_areas bs
                  (set_ports ar (n_ports p) (n_ports p + wb_area.reps ar - 1)) l
                  (seqZ 0 (wb_area.reps ar)) (wb_area.adr ar) (n_ports p)
                  (Ports (add_templ (p_self p) "subblk_busses"
                     ((name +:+ "_wb_s_o : out t_wishbone_slave_out_array(" +:+
                       py_str (n_ports p) +:+ " to " +:+
                       py_str (n_ports p + wb_area.reps ar - 1) +:+ ");" +:+ nl) +:+
                      (name +:+ "_wb_s_i : in t_wishbone_slave_in_array(" +:+
                       py_str (n_ports p) +:+ " to " +:+
                       py_str (n_ports p + wb_area.reps ar - 1) +:+ ");" +:+ nl)) 4)
                     (n_ports p + wb_area.reps ar) (ar_addresses p) (ar_adr_bits p)))
      as Hci.
    unfold p_set_areas at 1 in Hci. cbn [p_self n_ports ar_addresses ar_adr_bits] in Hci.
    cbn [set_ports wb_area.adr wb_area.reps] in Hci |- *.
    rewrite Hci. clear Hci. by destruct (connect_instances _ _ _ _ _ _).
Qed.

Lemma connect_areas_set_areas (bs : gmap string wb_block.t) (areas l : list wb_area.t) :
  forall p : ports,
  connect_areas bs areas (p_set_areas p l) =
  result_map (fun '(areas', p') => (areas', p_set_areas p' l)) (connect_areas bs areas p).
Proof.
  induction areas as [|ar rest IH]; intros p; [done|].
  cbn [connect_areas]. rewrite connect_area_set_areas.
  destruct (connect_area bs ar p) as [[ar1 p1]|e]; [|done].
  cbn [result_map mbind result_bind]. rewrite IH.
  by destruct (connect_areas bs rest p1) as [[rest1 p2]|e].
Qed.

(** ** Emission reads the spans of the referenced blocks only *)

Lemma connect_instances_spans (bs bs' : gmap string wb_block.t) (ar : wb_area.t)
    (indices : list Z) :
  same_spans bs bs' ->
  forall (base nport : Z) (p : ports),
  connect_instances bs' ar indices base nport p =
  connect_instances bs ar indices base nport p.
Proof.
  intros Hsp. induction indices as [|i rest IH]; intros base nport p; [done|].
  cbn [connect_instances]. unfold area_obj.
  destruct (wb_area.obj ar) as [key|]; [|done].
  specialize (Hsp key).
  destruct (bs !! key) as [bl|]; destruct (bs' !! key) as [bl'|];
    inversion Hsp as [? ? [Hsize Hbits]|]; subst; [|done].
  cbn [mbind result_bind]. unfold obj_addr_size, obj_adr_bits. rewrite Hsize, Hbits.
  destruct (wb_block.addr_size bl) as [step|]; [|done]. cbn [mbind result_bind].
  destruct (wb_block.adr_bits bl) as [bits|]; [|done]. cbn [mbind result_bind].
  destruct (area_name ar) as [name|e]; [|done]. cbn [mbind result_bind].
  apply IH.
Qed.

Lemma connect_area_spans (bs bs' : gmap string wb_block.t) (ar ar' : wb_area.t)
    (p : ports) :
  same_spans bs bs' -> ported ar ar' ->
  connect_area bs' ar' p = connect_area bs ar p.
Proof.
  intros Hsp (first & last & ->). unfold connect_area.
  cbn [set_ports wb_area.reps wb_area.adr wb_area.adr_bits wb_area.obj wb_area.name].
  destruct (wb_area.reps ar =? 1); [done|].
  unfold area_name_left. cbn [set_ports wb_area.name].
  destruct (wb_area.name ar) as [name|]; [|done]. cbn [mbind result_bind].
  rewrite (connect_instances_spans bs bs' _ _ Hsp). reflexivity.
Qed.

Lemma connect_areas_spans (bs bs' : gmap string wb_block.t)
    (areas areas' : list wb_area.t) :
  same_spans bs bs' -> Forall2 ported areas areas' ->
  forall p, connect_areas bs' areas' p = connect_areas bs areas p.
Proof.
  intros Hsp. induction 1 as [|ar ar' rest rest' Hp Hrest IH]; intros p; [done|].
  cbn [connect_areas]. rewrite (connect_area_spans bs bs' ar ar' p Hsp Hp).
  destruct (connect_area bs ar p) as [[ar1 p1]|e]; [|done].
  cbn [mbind result_bind]. by rewrite IH.
Qed.

(** Filling the dictionary of a block gives the same block whatever stood
    in the port slots of its areas, in every registry with the same spans. *)
Lemma gen_vhdl_fill_ported (bs bs' : gmap string wb_block.t) (b : wb_block.t)
    (areas' : list wb_area.t) :
  same_spans bs bs' -> Forall2 ported (wb_block.areas b) areas' ->
  gen_vhdl_fill bs' (set_areas b areas') = gen_vhdl_fill bs b.
Proof.
  intros Hsp Hported. unfold gen_vhdl_fill. cbv zeta.
  rewrite gen_vhdl_regs_set_areas, gen_vhdl_regs_areas.
  change (wb_block.areas (set_areas (gen_vhdl_regs b) areas')) with areas'.
  rewrite (connect_areas_spans bs bs' _ _ Hsp Hported).
  change (Ports (set_areas (gen_vhdl_regs b) areas') 0 [] [])
    with (p_set_areas (Ports (gen_vhdl_regs b) 0 [] []) areas').
  rewrite connect_areas_set_areas.
  destruct (connect_areas bs (wb_block.areas b) _) as [[areas1 p1]|e]; [|done].
  reflexivity.
Qed.

Lemma same_model_set_areas (b b' : wb_block.t) :
  same_model b b' ->
  b' = set_templ_dict (set_areas b (wb_block.areas b')) (wb_block.templ_dict b').
Proof.
  intros (H1 & H2 & H3 & H4 & H5 & H6 & H7 & _). destruct b, b'. cbn in *. by subst.
Qed.

(** ** Rendering *)

(** A template that can be filled from a dictionary can be filled from
    every dictionary with at least the same keys. *)
Lemma py_format_aux_keys (d d' : gmap string string) (t : string) :
  (forall k, is_Some (d !! k) -> is_Some (d' !! k)) ->
  forall (field : option string) (s : string),
  py_format_aux t field d = Ok s -> exists s', py_format_aux t field d' = Ok s'.
Proof.
  intros Hkeys. induction t as [|c t IH]; intros field s H.
  - destruct field; [done|]. by eexists.
  - cbn [py_format_aux] in H |- *. destruct field as [k|].
    + destruct (Ascii.eqb c "}").
      * destruct (d !! k) as [v|] eqn:Hk; [|done].
        destruct (Hkeys k ltac:(by rewrite Hk)) as [v' ->].
        destruct (py_format_aux t None d) as [s0|e] eqn:H0; [|done].
        destruct (IH _ _ H0) as [s0' ->]. cbn [mbind result_bind]. by eexists.
      * by eapply IH.
    + destruct (Ascii.eqb c "{"); [by eapply IH|].
      destruct (Ascii.eqb c "}"); [done|].
      destruct (py_format_aux t None d) as [s0|e] eqn:H0; [|done].
      destruct (IH _ _ H0) as [s0' ->]. cbn [mbind result_bind]. by eexists.
Qed.

Lemma dict_app_keys (d delta : gmap string string) (k : string) :
  is_Some (d !! k) -> is_Some (dict_app d delta !! k).
Proof.
  intros [v Hv]. rewrite lookup_dict_app, Hv. by destruct (delta !! k).
Qed.

Lemma gen_vhdl_rendered (bs : gmap string wb_block.t) (b b1 : wb_block.t)
    (files : list file) :
  gen_vhdl bs b = Ok (b1, files) <->
  gen_vhdl_fill bs b = Ok b1 /\ rendered (wb_block.name b1) (wb_block.templ_dict b1) files.
Proof.
  unfold gen_vhdl, rendered. split.
  - destruct (gen_vhdl_fill bs b) as [b0|e]; [|done]. cbn [mbind result_bind].
    destruct (py_format templ_wb _) as [wb|e] eqn:Hwb; [|done]. cbn [mbind result_bind].
    destruct (py_format templ_pkg _) as [pkg|e] eqn:Hpkg; [|done].
    cbn [mbind result_bind]. intros [= <- <-]. split; [done|]. by exists wb, pkg.
  - intros (-> & wb & pkg & Hwb & Hpkg & ->). cbn [mbind result_bind].
    by rewrite Hwb, Hpkg.
Qed.

Lemma same_model_set_templ_dict (b b1 : wb_block.t) (d : gmap string string) :
  same_model b b1 -> same_model b (set_templ_dict b1 d).
Proof. intros (H1 & H2 & H3 & H4 & H5 & H6 & H7 & H8). by repeat split. Qed.

(** C7, as the code has it: emission writes the port slots of the areas and
    appends to the template text, and leaves the rest of the block alone.
    The text it appends is fixed by the model; from the same text it renders
    the same files, and a second emission appends that text once more. *)
Theorem C7_emission_appends (bs : gmap string wb_block.t) (b b1 : wb_block.t)
    (files1 : list file) :
  gen_vhdl bs b = Ok (b1, files1) ->
  same_model b b1 /\
  rendered (wb_block.name b) (wb_block.templ_dict b1) files1 /\
  (forall bs' b', same_spans bs bs' -> same_model b b' ->
     wb_block.templ_dict b' = wb_block.templ_dict b ->
     gen_vhdl bs' b' = Ok (b1, files1)) /\
  exists delta,
    wb_block.templ_dict b1 = dict_app (wb_block.templ_dict b) delta /\
    forall bs', same_spans bs bs' ->
      exists b2 files2,
        gen_vhdl bs' b1 = Ok (b2, files2) /\
        same_model b b2 /\ wb_block.areas b2 = wb_block.areas b1 /\
        wb_block.templ_dict b2 = dict_app (wb_block.templ_dict b1) delta /\
        rendered (wb_block.name b) (wb_block.templ_dict b2) files2 /\
        (wb_block.templ_dict b = ∅ ->
         forall k, wb_block.templ_dict b2 !! k =
                   (fun v => v +:+ v) <$> wb_block.templ_dict b1 !! k).
Proof.
  intros Hgen. pose proof (gen_vhdl_same_model _ _ _ _ Hgen) as Hmodel.
  apply gen_vhdl_rendered in Hgen as (Hfill & Hfiles).
  assert (Hname : wb_block.name b1 = wb_block.name b) by (by destruct Hmodel).
  rewrite Hname in Hfiles.
  split; [done|]. split; [done|]. split.
  { intros bs' b' Hsp Hmodel' Hdict. apply gen_vhdl_rendered.
    rewrite (same_model_set_areas _ _ Hmodel'), Hdict.
    change (set_templ_dict (set_areas b (wb_block.areas b')) (wb_block.templ_dict b))
      with (set_areas (set_templ_dict b (wb_block.templ_dict b)) (wb_block.areas b')).
    rewrite set_templ_dict_id.
    rewrite (gen_vhdl_fill_ported bs bs' b _ Hsp) by (by destruct Hmodel' as (_&_&_&_&_&_&_&?)).
    split; [done|]. by rewrite Hname. }
  rewrite gen_vhdl_fill_eq in Hfill.
  destruct (gen_vhdl_fill bs (clear_dict b)) as [bc|e] eqn:Hclear; [|done].
  injection Hfill as Hb1. exists (wb_block.templ_dict bc).
  split; [by rewrite <- Hb1|].
  intros bs' Hsp.
  assert (Hfill2 : gen_vhdl_fill bs' b1 =
                   Ok (set_templ_dict bc (dict_app (wb_block.templ_dict b1)
                                            (wb_block.templ_dict bc)))).
  { rewrite gen_vhdl_fill_eq.
    replace (clear_dict b1) with (set_areas (clear_dict b) (wb_block.areas b1)).
    - rewrite (gen_vhdl_fill_ported bs bs' (clear_dict b) _ Hsp), Hclear; [done|].
      by destruct Hmodel as (_&_&_&_&_&_&_&?).
    - rewrite (same_model_set_areas _ _ Hmodel) at 2. reflexivity. }
  destruct Hfiles as (wb & pkg & Hwb & Hpkg & _).
  destruct (py_format_aux_keys (wb_block.templ_dict b1)
              (dict_app (wb_block.templ_dict b1) (wb_block.templ_dict bc)) templ_wb
              (fun k => dict_app_keys _ _ k) None wb Hwb) as [wb2 Hwb2].
  destruct (py_format_aux_keys (wb_block.templ_dict b1)
              (dict_app (wb_block.templ_dict b1) (wb_block.templ_dict bc)) templ_pkg
              (fun k => dict_app_keys _ _ k) None pkg Hpkg) as [pkg2 Hpkg2].
  assert (Hname2 : wb_block.name bc = wb_block.name b) by (by rewrite <- Hname, <- Hb1).
  exists (set_templ_dict bc (dict_app (wb_block.templ_dict b1) (wb_block.templ_dict bc))),
    [(wb_block.name b +:+ "_wb.vhd", wb2); (wb_block.name b +:+ "_pkg.vhd", pkg2)].
  split.
  { apply gen_vhdl_rendered. split; [done|].
    cbn [set_templ_dict wb_block.name wb_block.templ_dict]. rewrite Hname2.
    by exists wb2, pkg2. }
  split.
  { rewrite <- Hb1 in Hmodel.
    apply (same_model_set_templ_dict b _
             (dict_app (wb_block.templ_dict b1) (wb_block.templ_dict bc))) in Hmodel.
    exact Hmodel. }
  split; [by rewrite <- Hb1|]. split; [done|]. split; [by exists wb2, pkg2|].
  intros Hempty k. cbn [set_templ_dict wb_block.templ_dict].
  assert (Hd1 : wb_block.templ_dict b1 = wb_block.templ_dict bc).
  { rewrite <- Hb1. cbn [set_templ_dict wb_block.templ_dict].
    by rewrite Hempty, dict_app_empty_l. }
  rewrite lookup_dict_app, Hd1. by destruct (wb_block.templ_dict bc !! k).
Qed.

(** The second call of [gen_vhdl] on the analyzed block [T] writes other
    files than the first: every section of the dictionary holds its text
    twice, as the name of the entity shows. *)
Lemma C7_emission_twice_counterexample :
  gen_vhdl_at "T" ex_after_flat = Ok ex_emit_once /\
  gen_vhdl_at "T" ex_emit_once.1 = Ok ex_emit_twice /\
  ex_emit_twice.2 <> ex_emit_once.2 /\
  templ_entry ex_after_flat "T" "p_entity" = None /\
  templ_entry ex_emit_once.1 "T" "p_entity" = Some "T_wb"%string /\
  templ_entry ex_emit_twice.1 "T" "p_entity" = Some "T_wbT_wb"%string.
Proof.
  split; [vm_compute; reflexivity|]. split; [vm_compute; reflexivity|].
  split.
  - intros Heq. apply (f_equal (fun fs => String.length <$> fs.*2)) in Heq.
    vm_compute in Heq. discriminate.
  - split; [vm_compute; reflexivity|]. split; vm_compute; reflexivity.
Qed.

Lemma same_spans_store (bs : gmap string wb_block.t) (key : string) (b b1 : wb_block.t) :
  bs !! key = Some b -> same_model b b1 -> same_spans bs (<[key := b1]> bs).
Proof.
  intros Hb (_ & _ & _ & _ & _ & Hsize & Hbits & _) t.
  destruct (decide (t = key)) as [->|Hne].
  - rewrite lookup_insert_eq, Hb. by constructor.
  - rewrite lookup_insert_ne by done. destruct (bs !! t); by constructor.
Qed.

(** The analyzed block [T] of the flat example, emitted and then emitted
    again in the registry that holds the emitted block. *)
Lemma C7_emission_appends_witness :
  exists b b1 files1 b2 files2,
    blocks ex_after_flat !! "T" = Some b /\
    gen_vhdl (blocks ex_after_flat) b = Ok (b1, files1) /\
    same_model b b1 /\
    gen_vhdl (<["T"%string := b1]> (blocks ex_after_flat)) b1 = Ok (b2, files2) /\
    wb_block.areas b2 = wb_block.areas b1 /\
    forall k, wb_block.templ_dict b2 !! k =
              (fun v => v +:+ v) <$> wb_block.templ_dict b1 !! k.
Proof.
  destruct (blocks ex_after_flat !! "T") as [b|] eqn:Hb; [|by vm_compute in Hb].
  destruct (gen_vhdl (blocks ex_after_flat) b) as [[b1 files1]|e] eqn:Hgen;
    [|by (vm_compute in Hb; injection Hb as <-; vm_compute in Hgen)].
  destruct (C7_emission_appends _ _ _ _ Hgen) as (Hmodel & _ & _ & delta & _ & Hagain).
  destruct (Hagain (<["T"%string := b1]> (blocks ex_after_flat))
              (same_spans_store _ _ _ _ Hb Hmodel))
    as (b2 & files2 & Hgen2 & _ & Hareas & _ & _ & Htwice).
  exists b, b1, files1, b2, files2.
  split; [done|]. split; [done|]. split; [done|]. split; [done|]. split; [done|].
  apply Htwice. vm_compute in Hb. injection Hb as <-. reflexivity.
Defined.

(* ===================================================================== *)
(** * Part VIII: further properties of the code                          *)
(* ===================================================================== *)

(** ** [analyze] returns *)

(** A loop whose recursive calls have returned does the same with any
    recursive call that agrees with them. *)
Lemma scan_subblks_fuel (rec rec' : string -> world -> outcome world) (key : string) :
  (forall k st, rec k st <> OutOfFuel -> rec' k st = rec k st) ->
  forall (sblks : list xml_subblock) (st : world),
  scan_subblks rec key sblks st <> OutOfFuel ->
  scan_subblks rec' key sblks st = scan_subblks rec key sblks st.
Proof.
  intros Hrec. induction sblks as [|sblk rest IH]; intros st Hrun; [done|].
  cbn [scan_subblks] in Hrun |- *.
  destruct (blocks st !! xs_type sblk) as [bl|]; [|done].
  destruct (decide (length (wb_block.areas bl) = 0%nat)) as [Hlen|Hlen].
  - destruct (rec (xs_type sblk) st) as [st1|e|] eqn:Hcall; [| |done].
    + rewrite (Hrec _ _ ltac:(by rewrite Hcall)), Hcall.
      destruct (blocks (print _ st1) !! xs_type sblk) as [bl'|]; [|done].
      destruct (wb_block.addr_size bl') as [s|]; [|done].
      destruct (blocks (print _ st1) !! key) as [self|]; [|done].
      by apply IH.
    + by rewrite (Hrec _ _ ltac:(by rewrite Hcall)), Hcall.
  - destruct (blocks (print _ st) !! xs_type sblk) as [bl'|]; [|done].
    destruct (wb_block.addr_size bl') as [s|]; [|done].
    destruct (blocks (print _ st) !! key) as [self|]; [|done].
    by apply IH.
Qed.

Lemma analyze_fuel_S (fuel : nat) :
  forall (key : string) (st : world),
  analyze fuel key st <> OutOfFuel -> analyze (S fuel) key st = analyze fuel key st.
Proof.
  induction fuel as [|fuel IH]; intros key st Hrun; [done|].
  change (analyze (S (S fuel)) key st) with
    (match blocks st !! key with
     | None => Raised (KeyError key)
     | Some self =>
         let int_regs := wb_area_init (wb_block.free_reg_addr self)
                           (Some "int_regs"%string) None 1 in
         let st := store key (set_areas self (wb_block.areas self ++ [int_regs])) st in
         match scan_subblks (analyze (S fuel)) key (wb_block.subblks self) st with
         | Done st =>
             match blocks st !! key with
             | None => Raised (KeyError key)
             | Some self => let '(self', out) := layout self in
                            Done (print out (store key self' st))
             end
         | Raised e => Raised e
         | OutOfFuel => OutOfFuel
         end
     end).
  cbn [analyze] in Hrun |- *.
  destruct (blocks st !! key) as [self|]; [|done]. cbv zeta in Hrun |- *.
  rewrite (scan_subblks_fuel (analyze fuel) (analyze (S fuel)) key IH); [done|].
  intros Hout. by rewrite Hout in Hrun.
Qed.

Lemma analyze_fuel_le (fuel fuel' : nat) (key : string) (st : world) :
  (fuel <= fuel')%nat -> analyze fuel key st <> OutOfFuel ->
  analyze fuel' key st = analyze fuel key st.
Proof.
  induction 1 as [|fuel' Hle IH]; intros Hrun; [done|].
  rewrite analyze_fuel_S; rewrite IH; done.
Qed.

(** X1: [analyze] returns on every registry, whatever refers to whatever:
    with one unit of fuel per registered block and one more the call ends in
    a result or in an exception, and more fuel changes nothing. *)
Theorem analyze_total (key : string) (st : world) (fuel : nat) :
  (S (size (blocks st)) <= fuel)%nat ->
  analyze fuel key st <> OutOfFuel /\
  analyze fuel key st = analyze (S (size (blocks st))) key st.
Proof.
  intros Hfuel. pose proof (analyze_terminates key st) as Hterm.
  rewrite (analyze_fuel_le _ _ key st Hfuel Hterm). done.
Qed.

Lemma analyze_total_witness :
  analyze 9 "D" (World ex_registry []) <> OutOfFuel /\
  analyze 9 "D" (World ex_registry []) =
    analyze (S (size (blocks (World ex_registry [])))) "D" (World ex_registry []).
Proof. apply analyze_total. vm_compute. lia. Defined.

(** ** What a call of [analyze] touches *)

Lemma scan_subblks_length (rec : string -> world -> outcome world) (key : string) :
  rec_frame rec ->
  forall (sblks : list xml_subblock) (st st' : world) (cur : wb_block.t),
  scan_subblks rec key sblks st = Done st' ->
  blocks st !! key = Some cur -> wb_block.areas cur <> [] ->
  frame_off key (blocks st) (blocks st') /\
  exists cur', blocks st' !! key = Some cur' /\
    length (wb_block.areas cur') = (length (wb_block.areas cur) + length sblks)%nat.
Proof.
  intros Hrec. induction sblks as [|sblk rest IH]; intros st st' cur Hrun Hcur Hne.
  - injection Hrun as <-. split; [by intros k b|]. exists cur. split; [done|]. simpl. lia.
  - cbn [scan_subblks] in Hrun.
    destruct (blocks st !! xs_type sblk) as [bl|] eqn:Hbl; [|done].
    assert (exists st1, (if decide (length (wb_block.areas bl) = 0%nat)
                          then rec (xs_type sblk) st else Done st) = Done st1 /\
              frame (blocks st) (blocks st1)) as (st1 & Hst1 & Hfr1).
    { destruct (decide (length (wb_block.areas bl) = 0%nat)) as [Hlen|Hlen].
      - destruct (rec (xs_type sblk) st) as [st1| |] eqn:Hcall; [|done|done].
        exists st1. split; [done|]. intros k b Hk Hb.
        apply (Hrec _ _ _ Hcall k b); [|done|done].
        intros ->. rewrite Hbl in Hk. injection Hk as <-.
        by apply nil_length_inv in Hlen.
      - exists st. split; [done|]. by intros k b. }
    rewrite Hst1 in Hrun. clear Hst1. cbn [print blocks stdout] in Hrun.
    destruct (blocks st1 !! xs_type sblk) as [bl'|] eqn:Hbl'; [|done].
    destruct (wb_block.addr_size bl') as [s|] eqn:Hs; [|done].
    rewrite (Hfr1 key cur Hcur Hne) in Hrun.
    apply IH with (cur := set_areas cur (wb_block.areas cur ++
                     [wb_area_init (s * default 1 (xs_reps sblk)) (xs_name sblk)
                        (Some (xs_type sblk)) (default 1 (xs_reps sblk))]))
      in Hrun as (Hfr2 & cur' & Hcur' & Hlen).
    + split.
      * intros k b Hk Hb Hnb. apply Hfr2; [done| |done].
        cbn [store blocks]. rewrite lookup_insert_ne by done. by apply Hfr1.
      * exists cur'. split; [done|]. rewrite Hlen. cbn [set_areas wb_block.areas].
        rewrite length_app. simpl. lia.
    + cbn [store blocks]. by rewrite lookup_insert_eq.
    + cbn [set_areas wb_block.areas]. by destruct (wb_block.areas cur).
Qed.

Lemma analyze_length (fuel : nat) :
  forall (key : string) (st st' : world) (b : wb_block.t),
  analyze fuel key st = Done st' -> blocks st !! key = Some b ->
  frame_off key (blocks st) (blocks st') /\
  exists b', blocks st' !! key = Some b' /\
    length (wb_block.areas b') =
    (length (wb_block.areas b) + 1 + length (wb_block.subblks b))%nat.
Proof.
  induction fuel as [|fuel IH]; intros key st st' b Hrun Hb; [done|].
  cbn [analyze] in Hrun. rewrite Hb in Hrun. cbv zeta in Hrun.
  destruct (scan_subblks (analyze fuel) key (wb_block.subblks b) _)
    as [st2| |] eqn:Hscan; [|done|done].
  apply (scan_subblks_length (analyze fuel) key) with
    (cur := set_areas b (wb_block.areas b ++
              [wb_area_init (wb_block.free_reg_addr b) (Some "int_regs"%string) None 1]))
    in Hscan as (Hfr & cur' & Hcur' & Hlen).
  - rewrite Hcur' in Hrun. destruct (layout cur') as [self' out] eqn:Hlay.
    injection Hrun as <-. cbn [print store blocks]. split.
    + intros k c Hk Hc Hnc. rewrite lookup_insert_ne by done.
      apply Hfr; [done| |done]. cbn [store blocks]. by rewrite lookup_insert_ne.
    + exists self'. rewrite lookup_insert_eq. split; [done|].
      replace self' with (layout cur').1 by (by rewrite Hlay).
      rewrite layout_areas_length, Hlen. cbn [set_areas wb_block.areas].
      rewrite length_app. simpl. lia.
  - intros k s s' Hcall. destruct (blocks s !! k) as [c|] eqn:Hc.
    + by destruct (IH _ _ _ _ Hcall Hc).
    + destruct fuel; [done|]. cbn [analyze] in Hcall. by rewrite Hc in Hcall.
  - cbn [store blocks]. by rewrite lookup_insert_eq.
  - cbn [set_areas wb_block.areas]. by destruct (wb_block.areas b).
Qed.

(** X2: every call of [analyze] that returns adds to the block it is
    called on one area for the local registers and one for each sub-block
    reference, whether the block held areas before or not, and leaves every
    other block that holds areas as it was: a second call on a block
    doubles its list of areas. *)
Theorem analyze_appends (fuel : nat) (key : string) (st st' : world) (b : wb_block.t) :
  analyze fuel key st = Done st' -> blocks st !! key = Some b ->
  (exists b', blocks st' !! key = Some b' /\
     length (wb_block.areas b') =
     (length (wb_block.areas b) + 1 + length (wb_block.subblks b))%nat /\
     forall fuel2 st'', analyze fuel2 key st' = Done st'' ->
       exists b'', blocks st'' !! key = Some b'' /\
         length (wb_block.areas b'') =
         (length (wb_block.areas b) + 2 * (1 + length (wb_block.subblks b)))%nat) /\
  (forall k c, k <> key -> blocks st !! k = Some c -> wb_block.areas c <> [] ->
     blocks st' !! k = Some c).
Proof.
  intros Hrun Hb.
  destruct (analyze_length _ _ _ _ _ Hrun Hb) as (Hfr & b' & Hb' & Hlen).
  split; [|exact Hfr]. exists b'. split; [done|]. split; [done|].
  intros fuel2 st'' Hrun2.
  destruct (analyze_length _ _ _ _ _ Hrun2 Hb') as (_ & b'' & Hb'' & Hlen2).
  exists b''. split; [done|]. rewrite Hlen2, Hlen.
  pose proof (analyze_evolves _ _ _ _ Hrun) as Hev.
  destruct (registry_evolves_lookup _ _ _ _ Hev Hb) as (b1 & Hb1 & (_ & _ & _ & Hsub & _) & _).
  assert (b1 = b') as -> by congruence. rewrite Hsub. lia.
Qed.

(** The block [T] of the flat example after a second call: two areas. *)
Lemma analyze_appends_witness :
  exists b st'' b'',
    blocks (World ex_flat_registry []) !! "T" = Some b /\
    analyze 2 "T" (World ex_flat_registry []) = Done ex_after_flat /\
    analyze 2 "T" ex_after_flat = Done st'' /\
    blocks st'' !! "T" = Some b'' /\ length (wb_block.areas b'') = 2%nat /\
    wb_block.addr_size b'' = Some 16.
Proof.
  destruct (blocks (World ex_flat_registry []) !! "T") as [b|] eqn:Hb;
    [|by vm_compute in Hb].
  destruct (analyze 2 "T" ex_after_flat) as [st''| |] eqn:Hrun2;
    [|by vm_compute in Hrun2..].
  destruct (analyze_appends 2%nat "T" _ _ b ex_after_flat_run Hb)
    as ((b' & Hb' & Hlen & Hagain) & _).
  destruct (Hagain 2%nat st'' Hrun2) as (b'' & Hb'' & Hlen2).
  exists b, st'', b''. split; [done|]. split; [exact ex_after_flat_run|].
  split; [done|]. split; [done|].
  split.
  - rewrite Hlen2. vm_compute in Hb. injection Hb as <-. reflexivity.
  - vm_compute in Hrun2. injection Hrun2 as <-. vm_compute in Hb''.
    injection Hb'' as <-. reflexivity.
Defined.

(** ** The exceptions of [analyze] *)

Lemma analyze_error_evolves (bs bs' : gmap string wb_block.t) (e : py_error) :
  registry_evolves bs bs' -> analyze_error bs' e -> analyze_error bs e.
Proof.
  intros Hev [->|(t & -> & Ht)]; [by left|]. right. exists t. split; [done|].
  specialize (Hev t). rewrite Ht in Hev. by inversion Hev.
Qed.

Lemma scan_subblks_raised (rec : string -> world -> outcome world) (key : string) :
  rec_evolves rec -> rec_raised rec ->
  forall (sblks : list xml_subblock) (st : world) (e : py_error),
  scan_subblks rec key sblks st = Raised e -> analyze_error (blocks st) e.
Proof.
  intros Hev Hrec. induction sblks as [|sblk rest IH]; intros st e Hrun; [done|].
  cbn [scan_subblks] in Hrun.
  destruct (blocks st !! xs_type sblk) as [bl|] eqn:Hbl.
  2:{ injection Hrun as <-. right. by exists (xs_type sblk). }
  assert ((exists st1, (if decide (length (wb_block.areas bl) = 0%nat)
                          then rec (xs_type sblk) st else Done st) = Done st1 /\
              registry_evolves (blocks st) (blocks st1)) \/
          analyze_error (blocks st) e) as [(st1 & Hst1 & Hev1)|Herr].
  { destruct (decide (length (wb_block.areas bl) = 0%nat)) as [Hlen|Hlen].
    - destruct (rec (xs_type sblk) st) as [st1|e'|] eqn:Hcall; [| |done].
      + left. exists st1. split; [done|]. by eapply Hev.
      + right. injection Hrun as <-. by eapply Hrec.
    - left. exists st. split; [done|]. apply registry_evolves_refl. }
  2: exact Herr.
  rewrite Hst1 in Hrun. clear Hst1. cbn [print blocks stdout] in Hrun.
  apply (analyze_error_evolves _ _ _ Hev1).
  destruct (blocks st1 !! xs_type sblk) as [bl'|] eqn:Hbl'.
  2:{ injection Hrun as <-. right. by exists (xs_type sblk). }
  destruct (wb_block.addr_size bl') as [s|] eqn:Hs.
  2:{ injection Hrun as <-. by left. }
  destruct (blocks st1 !! key) as [self|] eqn:Hself.
  2:{ injection Hrun as <-. right. by exists key. }
  apply IH in Hrun. cbn [store blocks] in Hrun.
  eapply analyze_error_evolves; [|exact Hrun].
  apply registry_evolves_insert with (b := self); [done|]. apply evolves_append.
Qed.

Lemma analyze_rec_raised (fuel : nat) : rec_raised (analyze fuel).
Proof.
  induction fuel as [|fuel IH]; intros key st e Hrun; [done|].
  cbn [analyze] in Hrun.
  destruct (blocks st !! key) as [self|] eqn:Hself.
  2:{ injection Hrun as <-. right. by exists key. }
  cbv zeta in Hrun.
  destruct (scan_subblks (analyze fuel) key (wb_block.subblks self) _)
    as [st2|e'|] eqn:Hscan; [| |done].
  - destruct (blocks st2 !! key) as [self2|] eqn:Hself2.
    + by destruct (layout self2).
    + injection Hrun as <-.
      apply (scan_subblks_evolves _ _ (analyze_evolves fuel)) in Hscan.
      cbn [store blocks] in Hscan.
      destruct (registry_evolves_lookup _ _ key
                  (set_areas self (wb_block.areas self ++
                     [wb_area_init (wb_block.free_reg_addr self)
                        (Some "int_regs"%string) None 1])) Hscan)
        as (b' & Hb' & _); [by rewrite lookup_insert_eq|congruence].
  - injection Hrun as <-.
    apply (scan_subblks_raised _ _ (analyze_evolves fuel) IH) in Hscan.
    cbn [store blocks] in Hscan.
    eapply analyze_error_evolves; [|exact Hscan].
    apply registry_evolves_insert with (b := self); [done|]. apply evolves_append.
Qed.

(** X3: [analyze] raises nothing but a [KeyError] for a type that the
    registry does not hold, or the [AttributeError] of reading [addr_size]
    from a block that has none; and a reference to a type the registry does
    not hold never lets it return. *)
Theorem analyze_raises (fuel : nat) (key : string) (st : world) :
  (forall e, analyze fuel key st = Raised e -> analyze_error (blocks st) e) /\
  (forall st' k b' sblk, analyze fuel key st = Done st' ->
     blocks st' !! k = Some b' -> wb_block.areas b' <> [] ->
     registry_fresh (blocks st) ->
     sblk ∈ wb_block.subblks b' -> is_Some (blocks st !! xs_type sblk)).
Proof.
  split; [intros e; apply analyze_rec_raised|].
  intros st' k b' sblk Hrun Hb' Hne Hfresh Hsblk.
  destruct st as [bs out].
  pose proof (analyze_fresh _ _ _ _ _ Hfresh Hrun) as Ha. cbn [blocks] in *.
  destruct (registry_analyzed_lookup _ _ _ _ Ha Hb') as (b & Hb & [->|Hfrom]).
  { by destruct (Hfresh k b Hb) as (Hnil & _). }
  apply analyzed_from_fields in Hfrom as (subs & Hsubs & (_ & _ & _ & Hsub & _) & _).
  rewrite Hsub in Hsblk. apply list_elem_of_lookup in Hsblk as (i & Hi).
  destruct (Forall2_lookup_l _ _ _ _ _ Hsubs Hi) as (ar & _ & bl & s & Hbl & _).
  destruct (registry_analyzed_decl _ _ _ _ Ha Hbl) as (b0 & Hb0 & _). by rewrite Hb0.
Qed.

(** The block [G] refers to [B], which is declared, and then to a type
    that is not: the call on [G] ends in the [KeyError] of that type. *)
Lemma analyze_raises_witness :
  analyze 6 "G" (World ex_cyclic_registry []) = Raised (KeyError "nowhere") /\
  analyze_error ex_cyclic_registry (KeyError "nowhere").
Proof.
  split; [vm_compute; reflexivity|].
  apply (proj1 (analyze_raises 6%nat "G" (World ex_cyclic_registry []))).
  vm_compute. reflexivity.
Defined.

(** ** A block spans more than every block it refers to *)

Lemma Zsum_Permutation (l k : list Z) : Permutation l k -> Zsum l = Zsum k.
Proof. induction 1; simpl; lia. Qed.

Lemma Zsum_elem_le (l : list Z) (x : Z) :
  Forall (fun t => 0 <= t) l -> x ∈ l -> x <= Zsum l.
Proof.
  induction 1 as [|y l Hy Hl IH]; intros Hin; [by apply elem_of_nil in Hin|].
  pose proof (Zsum_nonneg l Hl). rewrite Zsum_cons.
  apply elem_of_cons in Hin as [->|Hin]; [lia|]. specialize (IH Hin). lia.
Qed.

Lemma analyzed_from_areas (bs : gmap string wb_block.t) (b b' : wb_block.t) :
  analyzed_from bs b b' -> wb_block.areas b' <> [].
Proof.
  intros (subs & _ & _ & Hareas & _)%analyzed_from_fields Hnil.
  rewrite Hnil in Hareas. apply (f_equal length) in Hareas.
  rewrite placed_length, sort_desc_length in Hareas. done.
Qed.

(** After a run from a registry of constructed blocks, a block that holds
    areas refers to blocks that hold areas and span less than it does. *)
Lemma analyzed_ref (bs bs' : gmap string wb_block.t) (k : string) (b' : wb_block.t)
    (sblk : xml_subblock) (s' : Z) :
  registry_built_ok bs -> registry_analyzed bs bs' ->
  bs' !! k = Some b' -> wb_block.areas b' <> [] -> wb_block.addr_size b' = Some s' ->
  sblk ∈ wb_block.subblks b' ->
  exists s, span_of bs' (xs_type sblk) s /\ 0 < s /\ s < s'.
Proof.
  intros Hbuilt Ha Hb' Hne Hs' Hsblk.
  assert (Hfresh : registry_fresh bs)
    by (by apply registry_built_fresh, registry_built_ok_built).
  destruct (registry_analyzed_lookup _ _ _ _ Ha Hb') as (b & Hb & [->|Hfrom]).
  { by destruct (Hfresh k b Hb) as (Hnil & _). }
  apply analyzed_from_fields in Hfrom
    as (subs & Hsubs & (_ & _ & _ & Hsub & _) & _ & _ & Hsize & _).
  destruct (registry_built_ok_sizes _ _ _ Hbuilt Hb) as (Hfree & Hreps).
  rewrite Hsub in Hsblk. apply list_elem_of_lookup in Hsblk as (i & Hi).
  destruct (Forall2_lookup_l _ _ _ _ _ Hsubs Hi) as (ar & Har & bl & s & Hbl & Hs & ->).
  rewrite Forall_forall in Hreps.
  assert (Hr : 1 <= default 1 (xs_reps sblk)).
  { apply Hreps. by eapply list_elem_of_lookup_2. }
  destruct (registry_analyzed_addr_size _ _ _ _ _ Hfresh Ha Hbl Hs) as (n & Hn & -> & _).
  pose proof (Z.pow_pos_nonneg 2 n ltac:(lia) Hn) as Hpos.
  exists (2 ^ n). split; [|split; [done|]].
  - exists bl. split; [done|]. split; [|done].
    destruct (registry_analyzed_lookup _ _ _ _ Ha Hbl) as (b0 & Hb0 & [->|Hfrom]).
    + destruct (Hfresh _ _ Hb0) as (_ & _ & Hnone & _). congruence.
    + by eapply analyzed_from_areas.
  - rewrite Hsize in Hs'. injection Hs' as <-.
    set (ar := wb_area_init (2 ^ n * default 1 (xs_reps sblk)) (xs_name sblk)
                 (Some (xs_type sblk)) (default 1 (xs_reps sblk))) in *.
    assert (Hsum : Zsum (rounded_sizes (sort_desc sort_key (int_regs_area b :: subs))) =
                   rounded (wb_block.free_reg_addr b) + Zsum (rounded_sizes subs)).
    { transitivity (Zsum (rounded_sizes (int_regs_area b :: subs))).
      - apply Zsum_Permutation. unfold rounded_sizes. apply fmap_Permutation.
        symmetry. apply sort_desc_perm.
      - by rewrite rounded_sizes_cons, Zsum_cons. }
    change (insert_desc sort_key (int_regs_area b) (sort_desc sort_key subs))
      with (sort_desc sort_key (int_regs_area b :: subs)).
    rewrite Hsum.
    assert (Hle : rounded (wb_area.size ar) <= Zsum (rounded_sizes subs)).
    { apply Zsum_elem_le; [apply rounded_sizes_nonneg|].
      unfold rounded_sizes. apply list_elem_of_fmap. exists ar. split; [done|].
      by eapply list_elem_of_lookup_2. }
    assert (Hge : wb_area.size ar <= rounded (wb_area.size ar)).
    { apply rounded_ge. subst ar. simpl. nia. }
    pose proof (rounded_pos (wb_block.free_reg_addr b)) as Hfr.
    assert (Hsz : 2 ^ n <= wb_area.size ar) by (subst ar; simpl; nia).
    pose proof (rounded_ge (rounded (wb_block.free_reg_addr b) + Zsum (rounded_sizes subs))
                  ltac:(lia)). lia.
Qed.

Lemma refers_analyzed (bs bs' : gmap string wb_block.t) (k t : string) (s' : Z) :
  registry_built_ok bs -> registry_analyzed bs bs' ->
  refers bs k t -> span_of bs' k s' ->
  exists s, span_of bs' t s /\ 0 < s /\ s < s'.
Proof.
  intros Hbuilt Ha (b & sblk & Hb & Hsblk & <-) (b' & Hb' & Hne & Hs').
  destruct (registry_analyzed_decl _ _ _ _ Ha Hb') as (b0 & Hb0 & (_ & _ & _ & Hsub & _)).
  assert (b0 = b) as -> by congruence.
  eapply analyzed_ref; try done. by rewrite Hsub.
Qed.

Lemma tc_refers_analyzed (bs bs' : gmap string wb_block.t) (k t : string) :
  registry_built_ok bs -> registry_analyzed bs bs' ->
  tc (refers bs) k t ->
  forall s', span_of bs' k s' -> exists s, span_of bs' t s /\ 0 < s /\ s < s'.
Proof.
  intros Hbuilt Ha. induction 1 as [k t Hr|k m t Hr _ IH]; intros s' Hk.
  - by eapply refers_analyzed.
  - destruct (refers_analyzed _ _ _ _ _ Hbuilt Ha Hr Hk) as (s1 & Hm & _ & Hlt).
    destruct (IH _ Hm) as (s & Ht & Hpos & Hlt'). exists s. split; [done|]. lia.
Qed.

Lemma rtc_refers_analyzed (bs bs' : gmap string wb_block.t) (k t : string) (s' : Z) :
  registry_built_ok bs -> registry_analyzed bs bs' ->
  rtc (refers bs) k t -> span_of bs' k s' -> exists s, span_of bs' t s /\ s <= s'.
Proof.
  intros Hbuilt Ha Hrtc Hk. apply rtc_tc in Hrtc as [<-|Htc].
  - exists s'. split; [done|lia].
  - destruct (tc_refers_analyzed _ _ _ _ Hbuilt Ha Htc _ Hk) as (s & Ht & _ & Hlt).
    exists s. split; [done|lia].
Qed.

Lemma span_of_unique (bs : gmap string wb_block.t) (k : string) (s1 s2 : Z) :
  span_of bs k s1 -> span_of bs k s2 -> s1 = s2.
Proof. intros (b1 & H1 & _ & Hs1) (b2 & H2 & _ & Hs2). congruence. Qed.

(** The block [analyze] was called on holds areas when the call returns. *)
Lemma analyze_top_analyzed (bs : gmap string wb_block.t) (fuel : nat) (top : string)
    (out : list print_event) (st' : world) :
  registry_fresh bs -> analyze fuel top (World bs out) = Done st' ->
  exists s, span_of (blocks st') top s.
Proof.
  intros Hfresh Hrun.
  destruct (analyze_done_lookup _ _ _ _ Hrun) as (b & Hb).
  destruct (analyze_length _ _ _ _ _ Hrun Hb) as (_ & b' & Hb' & Hlen).
  pose proof (analyze_fresh _ _ _ _ _ Hfresh Hrun) as Ha.
  destruct (registry_analyzed_lookup _ _ _ _ Ha Hb') as (b0 & Hb0 & [->|Hfrom]).
  { destruct (Hfresh _ _ Hb0) as (Hnil & _). rewrite Hnil in Hlen. simpl in Hlen. lia. }
  pose proof (analyzed_from_areas _ _ _ Hfrom) as Hne.
  apply analyzed_from_fields in Hfrom as (subs & _ & _ & _ & _ & Hsize & _).
  eexists. exists b'. split; [done|]. split; [done|]. exact Hsize.
Qed.

(** X4: when [analyze] returns, every block it reached holds areas and
    spans strictly more addresses than each block it refers to, so no block
    that was reached lies on a cycle of references; called on a block from
    which such a cycle can be reached, [analyze] ends in an exception. *)
Theorem analyze_acyclic (bs : gmap string wb_block.t) (top : string)
    (out : list print_event) :
  registry_built_ok bs ->
  (forall fuel st' k, analyze fuel top (World bs out) = Done st' ->
     rtc (refers bs) top k ->
     (exists s, span_of (blocks st') k s) /\
     (forall t, refers bs k t -> forall s, span_of (blocks st') k s ->
        exists s0, span_of (blocks st') t s0 /\ 0 < s0 /\ s0 < s) /\
     ~ tc (refers bs) k k) /\
  (forall k, rtc (refers bs) top k -> tc (refers bs) k k ->
     exists e, analyze (S (size bs)) top (World bs out) = Raised e /\
               analyze_error bs e).
Proof.
  intros Hbuilt.
  assert (Hfresh : registry_fresh bs)
    by (by apply registry_built_fresh, registry_built_ok_built).
  assert (Hdone : forall fuel st' k, analyze fuel top (World bs out) = Done st' ->
     rtc (refers bs) top k ->
     (exists s, span_of (blocks st') k s) /\
     (forall t, refers bs k t -> forall s, span_of (blocks st') k s ->
        exists s0, span_of (blocks st') t s0 /\ 0 < s0 /\ s0 < s) /\
     ~ tc (refers bs) k k).
  { intros fuel st' k Hrun Hreach.
    pose proof (analyze_fresh _ _ _ _ _ Hfresh Hrun) as Ha.
    destruct (analyze_top_analyzed _ _ _ _ _ Hfresh Hrun) as (s0 & Htop).
    destruct (rtc_refers_analyzed _ _ _ _ _ Hbuilt Ha Hreach Htop) as (s & Hk & _).
    split; [by exists s|]. split.
    - intros t Hr s1 Hk1. by eapply refers_analyzed.
    - intros Hcycle.
      destruct (tc_refers_analyzed _ _ _ _ Hbuilt Ha Hcycle _ Hk) as (s1 & Hk1 & _ & Hlt).
      rewrite (span_of_unique _ _ _ _ Hk1 Hk) in Hlt. lia. }
  split; [exact Hdone|].
  intros k Hreach Hcycle.
  destruct (analyze (S (size bs)) top (World bs out)) as [st'|e|] eqn:Hrun.
  - by destruct (Hdone _ _ _ Hrun Hreach) as (_ & _ & Hno).
  - exists e. split; [done|]. by apply (analyze_rec_raised _ _ _ _ Hrun).
  - by destruct (analyze_terminates top (World bs out)).
Qed.

Lemma ex_cyclic_registry_built_ok : registry_built_ok ex_cyclic_registry.
Proof.
  apply (build_registry_built_ok [ex_selfref; ex_ping; ex_pong; ex_dangling; ex_blkB] ∅).
  - vm_compute. reflexivity.
  - apply (bool_decide_unpack _). vm_compute. exact I.
  - intros k b Hk. by rewrite lookup_empty in Hk.
Qed.

Lemma ex_refers (k t : string) (name : string) :
  (exists b, ex_cyclic_registry !! k = Some b /\
     {| xs_type := t; xs_name := Some name; xs_reps := None |} ∈ wb_block.subblks b) ->
  refers ex_cyclic_registry k t.
Proof. intros (b & Hb & Hin). by exists b, {| xs_type := t; xs_name := Some name; xs_reps := None |}. Qed.

(** The blocks [P] and [Q] refer to each other: the call on [P] ends in an
    exception. *)
Lemma analyze_acyclic_witness :
  registry_built_ok ex_cyclic_registry /\
  tc (refers ex_cyclic_registry) "P" "P" /\
  exists e, analyze (S (size ex_cyclic_registry)) "P" (World ex_cyclic_registry []) =
              Raised e /\ analyze_error ex_cyclic_registry e.
Proof.
  assert (Hpq : refers ex_cyclic_registry "P" "Q").
  { apply (ex_refers "P" "Q" "q").
    destruct (ex_cyclic_registry !! "P") as [b|] eqn:Hb; [|by vm_compute in Hb].
    exists b. split; [done|]. vm_compute in Hb. injection Hb as <-. by left. }
  assert (Hqp : refers ex_cyclic_registry "Q" "P").
  { apply (ex_refers "Q" "P" "p").
    destruct (ex_cyclic_registry !! "Q") as [b|] eqn:Hb; [|by vm_compute in Hb].
    exists b. split; [done|]. vm_compute in Hb. injection Hb as <-. by left. }
  assert (Htc : tc (refers ex_cyclic_registry) "P" "P").
  { eapply tc_l; [exact Hpq|]. by apply tc_once. }
  split; [exact ex_cyclic_registry_built_ok|]. split; [exact Htc|].
  exact (proj2 (analyze_acyclic ex_cyclic_registry "P" [] ex_cyclic_registry_built_ok)
           "P" (rtc_refl _ _) Htc).
Defined.

(** ** [analyze] stays within reach of the block it is called on *)

Lemma refers_evolves (bs bs' : gmap string wb_block.t) (k t : string) :
  registry_evolves bs bs' -> refers bs' k t -> refers bs k t.
Proof.
  intros Hev (b' & sblk & Hb' & Hin & Ht).
  destruct (registry_evolves_lookup_inv _ _ _ _ Hev Hb')
    as (b & Hb & (_ & _ & _ & Hsub & _) & _).
  exists b, sblk. by rewrite <- Hsub.
Qed.

Lemma rtc_refers_evolves (bs bs' : gmap string wb_block.t) (k x : string) :
  registry_evolves bs bs' -> rtc (refers bs') k x -> rtc (refers bs) k x.
Proof.
  intros Hev. induction 1 as [|k m x Hr _ IH]; [done|].
  eapply rtc_l; [|exact IH]. by eapply refers_evolves.
Qed.

Lemma scan_subblks_local (rec : string -> world -> outcome world) (key : string) :
  rec_evolves rec -> rec_local rec ->
  forall (sblks : list xml_subblock) (st st' : world),
  scan_subblks rec key sblks st = Done st' ->
  forall x, x <> key ->
    (forall sblk, sblk ∈ sblks -> ~ rtc (refers (blocks st)) (xs_type sblk) x) ->
    blocks st' !! x = blocks st !! x.
Proof.
  intros Hev Hloc. induction sblks as [|sblk rest IH]; intros st st' Hrun x Hx Hfar.
  - by injection Hrun as <-.
  - cbn [scan_subblks] in Hrun.
    destruct (blocks st !! xs_type sblk) as [bl|] eqn:Hbl; [|done].
    assert (exists st1, (if decide (length (wb_block.areas bl) = 0%nat)
                          then rec (xs_type sblk) st else Done st) = Done st1 /\
              registry_evolves (blocks st) (blocks st1) /\
              blocks st1 !! x = blocks st !! x) as (st1 & Hst1 & Hev1 & Hx1).
    { destruct (decide (length (wb_block.areas bl) = 0%nat)) as [Hlen|Hlen].
      - destruct (rec (xs_type sblk) st) as [st1| |] eqn:Hcall; [|done|done].
        exists st1. split; [done|]. split; [by eapply Hev|].
        eapply Hloc; [exact Hcall|]. apply Hfar. by left.
      - exists st. split; [done|]. split; [apply registry_evolves_refl|done]. }
    rewrite Hst1 in Hrun. clear Hst1. cbn [print blocks stdout] in Hrun.
    destruct (blocks st1 !! xs_type sblk) as [bl'|] eqn:Hbl'; [|done].
    destruct (wb_block.addr_size bl') as [s|] eqn:Hs; [|done].
    destruct (blocks st1 !! key) as [self|] eqn:Hself; [|done].
    apply IH with (x := x) in Hrun; [|done|].
    + rewrite Hrun. cbn [store blocks]. by rewrite lookup_insert_ne.
    + intros sb Hsb Hreach. apply (Hfar sb); [by right|].
      apply (rtc_refers_evolves _ _ _ _ Hev1).
      eapply rtc_refers_evolves; [|exact Hreach]. cbn [store blocks].
      apply registry_evolves_insert with (b := self); [done|]. apply evolves_append.
Qed.

Lemma analyze_rec_local (fuel : nat) : rec_local (analyze fuel).
Proof.
  induction fuel as [|fuel IH]; intros key st st' Hrun x Hfar; [done|].
  cbn [analyze] in Hrun.
  destruct (blocks st !! key) as [self|] eqn:Hself; [|done]. cbv zeta in Hrun.
  destruct (scan_subblks (analyze fuel) key (wb_block.subblks self) _)
    as [st2| |] eqn:Hscan; [|done|done].
  assert (Hx : x <> key) by (intros ->; by apply Hfar).
  apply (scan_subblks_local _ _ (analyze_evolves fuel) IH) with (x := x) in Hscan;
    [|done|].
  - destruct (blocks st2 !! key) as [self2|]; [|done].
    destruct (layout self2) as [self' out]. injection Hrun as <-.
    cbn [print store blocks] in *. rewrite lookup_insert_ne by done.
    rewrite Hscan. by rewrite lookup_insert_ne.
  - intros sblk Hin Hreach. apply Hfar.
    eapply rtc_l; [by exists self, sblk|].
    eapply rtc_refers_evolves; [|exact Hreach]. cbn [store blocks].
    apply registry_evolves_insert with (b := self); [done|]. apply evolves_append.
Qed.

(** X5: a call of [analyze] that returns has changed no block but those
    that can be reached from the block it was called on through sub-block
    references; in a registry of constructed blocks it has laid out each of
    those, and every other block is as its constructor left it. *)
Theorem analyze_reach (fuel : nat) (key : string) (st st' : world) :
  analyze fuel key st = Done st' ->
  (forall x, ~ rtc (refers (blocks st)) key x -> blocks st' !! x = blocks st !! x) /\
  (registry_built_ok (blocks st) ->
   forall x, rtc (refers (blocks st)) key x ->
     exists b', blocks st' !! x = Some b' /\ wb_block.areas b' <> [] /\
                wb_block.addr_size b' <> None).
Proof.
  intros Hrun. split; [by apply (analyze_rec_local fuel key st st')|].
  intros Hbuilt x Hreach. destruct st as [bs out]. cbn [blocks] in *.
  assert (Hfresh : registry_fresh bs)
    by (by apply registry_built_fresh, registry_built_ok_built).
  pose proof (analyze_fresh _ _ _ _ _ Hfresh Hrun) as Ha.
  destruct (analyze_top_analyzed _ _ _ _ _ Hfresh Hrun) as (s0 & Htop).
  destruct (rtc_refers_analyzed _ _ _ _ _ Hbuilt Ha Hreach Htop)
    as (s & (b' & Hb' & Hne & Hs) & _).
  exists b'. split; [done|]. split; [done|]. by rewrite Hs.
Qed.

Lemma ex_refers_top (y : string) :
  refers ex_registry "T" y -> y = "B"%string \/ y = "A"%string.
Proof.
  intros (b & sblk & Hb & Hin & <-). vm_compute in Hb. injection Hb as <-.
  cbn [wb_block.subblks] in Hin.
  apply elem_of_cons in Hin as [->|Hin]; [by left|].
  apply list_elem_of_singleton in Hin as ->. by right.
Qed.

Lemma ex_refers_leaf (k y : string) :
  k = "B"%string \/ k = "A"%string -> ~ refers ex_registry k y.
Proof.
  intros [-> | ->] (b & sblk & Hb & Hin & _); vm_compute in Hb; injection Hb as <-;
    by apply elem_of_nil in Hin.
Qed.

(** The block [C] cannot be reached from [T]: after the call on [T] it is
    as it was, while [B] holds areas. *)
Lemma analyze_reach_witness :
  analyze 6 "T" (World ex_registry []) = Done ex_after_top /\
  ~ rtc (refers ex_registry) "T" "C" /\
  blocks ex_after_top !! "C" = ex_registry !! "C" /\
  exists b', blocks ex_after_top !! "B" = Some b' /\ wb_block.areas b' <> [] /\
             wb_block.addr_size b' <> None.
Proof.
  assert (Hfar : ~ rtc (refers ex_registry) "T" "C").
  { intros Hr. apply rtc_inv in Hr as [Heq|(y & Hy & Hr)]; [done|].
    apply ex_refers_top in Hy.
    apply rtc_inv in Hr as [Heq|(z & Hz & _)]; [by destruct Hy as [-> | ->]|].
    by apply (ex_refers_leaf y z). }
  destruct (analyze_reach 6 "T" (World ex_registry []) ex_after_top ex_after_top_run)
    as (Hlocal & Hlaid).
  split; [exact ex_after_top_run|]. split; [exact Hfar|].
  split; [exact (Hlocal "C" Hfar)|].
  apply (Hlaid ex_registry_built_ok "B").
  apply rtc_once.
  destruct (ex_registry !! "T") as [b|] eqn:Hb; [|by vm_compute in Hb].
  exists b, {| xs_type := "B"; xs_name := Some "sb"%string; xs_reps := None |}.
  split; [done|]. split; [|done]. vm_compute in Hb. injection Hb as <-. by left.
Defined.

(** ** The layout of a block does not depend on who asked for it *)

Lemma Forall2_unique {A B : Type} (P Q : A -> B -> Prop) (l : list A) :
  forall k1 k2 : list B,
  Forall2 P l k1 -> Forall2 Q l k2 ->
  (forall x y1 y2, x ∈ l -> P x y1 -> Q x y2 -> y1 = y2) -> k1 = k2.
Proof.
  induction l as [|x l IH]; intros k1 k2 H1 H2 Heq.
  - apply Forall2_nil_inv_l in H1 as ->. by apply Forall2_nil_inv_l in H2 as ->.
  - apply Forall2_cons_inv_l in H1 as (y1 & k1' & Hy1 & H1 & ->).
    apply Forall2_cons_inv_l in H2 as (y2 & k2' & Hy2 & H2 & ->).
    f_equal.
    + eapply Heq; [by left|done|done].
    + apply IH; [done|done|]. intros z z1 z2 Hz. apply Heq. by right.
Qed.

Lemma analyze_confluent_aux (bs bs1 bs2 : gmap string wb_block.t) :
  registry_built_ok bs -> registry_analyzed bs bs1 -> registry_analyzed bs bs2 ->
  forall (n : nat) (k : string) (b1 b2 : wb_block.t) (s1 : Z),
  (Z.to_nat s1 < n)%nat ->
  bs1 !! k = Some b1 -> bs2 !! k = Some b2 ->
  wb_block.areas b1 <> [] -> wb_block.areas b2 <> [] ->
  wb_block.addr_size b1 = Some s1 -> b1 = b2.
Proof.
  intros Hbuilt Ha1 Ha2.
  assert (Hfresh : registry_fresh bs)
    by (by apply registry_built_fresh, registry_built_ok_built).
  induction n as [|n IH]; intros k b1 b2 s1 Hn Hb1 Hb2 Hne1 Hne2 Hs1; [lia|].
  destruct (registry_analyzed_lookup _ _ _ _ Ha1 Hb1) as (b & Hb & [->|Hfrom1]).
  { by destruct (Hfresh k b Hb) as (Hnil & _). }
  destruct (registry_analyzed_lookup _ _ _ _ Ha2 Hb2) as (b0 & Hb0 & [->|Hfrom2]).
  { by destruct (Hfresh k b0 Hb0) as (Hnil & _). }
  assert (b0 = b) as -> by congruence.
  pose proof (analyzed_from_fields _ _ _ Hfrom1) as (_ & _ & (_ & _ & _ & Hsub1 & _) & _).
  pose proof (analyzed_from_fields _ _ _ Hfrom2)
    as (subs0 & _ & (_ & _ & _ & Hsub2 & _) & _ & _ & Hs2 & _).
  destruct Hfrom1 as (l1 & (subs1 & Hsubs1 & ->) & ->).
  destruct Hfrom2 as (l2 & (subs2 & Hsubs2 & ->) & ->).
  assert (subs1 = subs2) as ->; [|done].
  apply (Forall2_unique _ _ _ _ _ Hsubs1 Hsubs2).
  intros sblk ar1 ar2 Hin (bl1 & t1 & Hbl1 & Ht1 & ->) (bl2 & t2 & Hbl2 & Ht2 & ->).
  destruct (analyzed_ref bs bs1 k _ sblk s1 Hbuilt Ha1 Hb1 Hne1 Hs1)
    as (u1 & (c1 & Hc1 & Hcne1 & Hu1) & Hpos1 & Hlt1); [by rewrite Hsub1|].
  destruct (analyzed_ref bs bs2 k _ sblk _ Hbuilt Ha2 Hb2 Hne2 Hs2)
    as (u2 & (c2 & Hc2 & Hcne2 & Hu2) & _ & _); [by rewrite Hsub2|].
  assert (c1 = bl1) as -> by congruence. assert (c2 = bl2) as -> by congruence.
  assert (bl1 = bl2) as ->.
  { apply (IH (xs_type sblk) bl1 bl2 u1); try done. lia. }
  congruence.
Qed.

(** X6: the layout of a block is fixed by the declarations: two runs of
    [analyze] from the same registry of constructed blocks, called on
    whatever blocks, leave the same block object for every block that both
    have laid out. *)
Theorem analyze_confluent (bs : gmap string wb_block.t) (f1 f2 : nat)
    (top1 top2 : string) (o1 o2 : list print_event) (st1 st2 : world) :
  registry_built_ok bs ->
  analyze f1 top1 (World bs o1) = Done st1 ->
  analyze f2 top2 (World bs o2) = Done st2 ->
  forall k b1 b2, blocks st1 !! k = Some b1 -> blocks st2 !! k = Some b2 ->
    wb_block.areas b1 <> [] -> wb_block.areas b2 <> [] -> b1 = b2.
Proof.
  intros Hbuilt Hrun1 Hrun2 k b1 b2 Hb1 Hb2 Hne1 Hne2.
  assert (Hfresh : registry_fresh bs)
    by (by apply registry_built_fresh, registry_built_ok_built).
  pose proof (analyze_fresh _ _ _ _ _ Hfresh Hrun1) as Ha1.
  pose proof (analyze_fresh _ _ _ _ _ Hfresh Hrun2) as Ha2.
  destruct (registry_analyzed_lookup _ _ _ _ Ha1 Hb1) as (b & Hb & [->|Hfrom1]).
  { by destruct (Hfresh k b Hb) as (Hnil & _). }
  pose proof (analyzed_from_fields _ _ _ Hfrom1) as (subs & _ & _ & _ & _ & Hs1 & _).
  by eapply (analyze_confluent_aux bs (blocks st1) (blocks st2) Hbuilt Ha1 Ha2
               (S (Z.to_nat _)) k b1 b2 _ (Nat.lt_succ_diag_r _)).
Qed.

(** The block [B] is laid out by the call on [T] and by the call on [D]:
    both leave the same block. *)
Lemma analyze_confluent_witness :
  exists b1 b2,
    blocks ex_after_top !! "B" = Some b1 /\ blocks ex_after_diamond !! "B" = Some b2 /\
    wb_block.areas b1 <> [] /\ b1 = b2.
Proof.
  destruct (blocks ex_after_top !! "B") as [b1|] eqn:H1; [|by vm_compute in H1].
  destruct (blocks ex_after_diamond !! "B") as [b2|] eqn:H2; [|by vm_compute in H2].
  assert (Hne1 : wb_block.areas b1 <> []).
  { vm_compute in H1. injection H1 as <-. done. }
  assert (Hne2 : wb_block.areas b2 <> []).
  { vm_compute in H2. injection H2 as <-. done. }
  exists b1, b2. split; [done|]. split; [done|]. split; [done|].
  exact (analyze_confluent ex_registry 6 7 "T" "D" [] [] ex_after_top ex_after_diamond
           ex_registry_built_ok ex_after_top_run ex_after_diamond_run "B" b1 b2
           H1 H2 Hne1 Hne2).
Defined.

(** ** The span of a block covers its areas *)

Lemma placed_reg_base_targets (l : list wb_area.t) :
  Forall (fun a => wb_area.obj a <> None) l ->
  forall c rb, placed_reg_base l c rb = rb.
Proof.
  induction 1 as [|a l Ha Hl IH]; intros c rb; [done|].
  cbn [placed_reg_base]. rewrite IH. by destruct (wb_area.obj a).
Qed.

Lemma placed_reg_base_split (l1 l2 : list wb_area.t) (a : wb_area.t) :
  Forall (fun a => wb_area.obj a <> None) l1 ->
  Forall (fun a => wb_area.obj a <> None) l2 ->
  wb_area.obj a = None ->
  forall c rb, placed_reg_base (l1 ++ a :: l2) c rb = Some (c + Zsum (rounded_sizes l1)).
Proof.
  intros H1 H2 Ha. induction H1 as [|x l1 Hx Hl1 IH]; intros c rb.
  - cbn [app placed_reg_base]. rewrite Ha, placed_reg_base_targets by done.
    simpl. f_equal. lia.
  - cbn [app placed_reg_base]. rewrite IH, rounded_sizes_cons, Zsum_cons.
    f_equal. lia.
Qed.

Lemma sub_area_target (bs : gmap string wb_block.t) (sblks : list xml_subblock)
    (subs : list wb_area.t) :
  Forall2 (sub_area bs) sblks subs -> Forall (fun a => wb_area.obj a <> None) subs.
Proof.
  induction 1 as [|sblk ar sblks subs (bl & s & _ & _ & ->) _ IH]; constructor; done.
Qed.

(** The sorted areas of a block: the area of the local registers between
    areas that all have a target. *)
Lemma sorted_areas_split (bs : gmap string wb_block.t) (b : wb_block.t)
    (subs : list wb_area.t) :
  Forall2 (sub_area bs) (wb_block.subblks b) subs ->
  exists l1 l2,
    sort_desc sort_key (int_regs_area b :: subs) = l1 ++ int_regs_area b :: l2 /\
    Forall (fun a => wb_area.obj a <> None) l1 /\
    Forall (fun a => wb_area.obj a <> None) l2.
Proof.
  intros Hsubs. pose proof (sub_area_target _ _ _ Hsubs) as Htarget.
  pose proof (sort_desc_perm sort_key (int_regs_area b :: subs)) as Hperm.
  assert (Hin : int_regs_area b ∈ sort_desc sort_key (int_regs_area b :: subs)).
  { rewrite <- Hperm. by left. }
  apply list_elem_of_split in Hin as (l1 & l2 & Heq).
  exists l1, l2. split; [done|].
  rewrite Heq in Hperm. rewrite <- Permutation_middle in Hperm.
  apply Permutation_cons_inv in Hperm. rewrite Hperm in Htarget.
  by apply Forall_app in Htarget.
Qed.

(** X7: when [analyze] has laid out a block, every area lies inside the
    span of the block, [0 <= adr] and [adr + total_size <= addr_size]; one
    area and no other has no target, it has the raw size of the local
    registers, and [reg_base] is its address. *)
Theorem analyze_span_covers (bs : gmap string wb_block.t) (fuel : nat) (top : string)
    (out : list print_event) (st' : world) :
  registry_fresh bs ->
  analyze fuel top (World bs out) = Done st' ->
  forall k b', blocks st' !! k = Some b' -> wb_block.areas b' <> [] ->
    exists s ar0,
      wb_block.addr_size b' = Some s /\
      (forall ar, ar ∈ wb_block.areas b' ->
         0 <= wb_area.adr ar /\ 0 < wb_area.total_size ar /\
         wb_area.adr ar + wb_area.total_size ar <= s) /\
      ar0 ∈ wb_block.areas b' /\ wb_area.obj ar0 = None /\
      wb_area.size ar0 = wb_block.free_reg_addr b' /\
      wb_block.reg_base b' = Some (wb_area.adr ar0) /\
      (forall (i j : nat) ai aj, wb_block.areas b' !! i = Some ai ->
         wb_block.areas b' !! j = Some aj ->
         wb_area.obj ai = None -> wb_area.obj aj = None -> i = j).
Proof.
  intros Hfresh Hrun k b' Hb' Hne.
  pose proof (analyze_fresh _ _ _ _ _ Hfresh Hrun) as Ha.
  destruct (registry_analyzed_lookup _ _ _ _ Ha Hb') as (b & Hb & [->|Hfrom]).
  { by destruct (Hfresh k b Hb) as (Hnil & _). }
  apply analyzed_from_fields in Hfrom
    as (subs & Hsubs & (_ & _ & Hfree & _) & Hareas & Hrb & Hsize & _).
  destruct (sorted_areas_split _ _ _ Hsubs) as (l1 & l2 & Hsplit & Hl1 & Hl2).
  change (insert_desc sort_key (int_regs_area b) (sort_desc sort_key subs))
    with (sort_desc sort_key (int_regs_area b :: subs)) in *.
  set (sorted := sort_desc sort_key (int_regs_area b :: subs)) in *.
  pose proof (rounded_sizes_nonneg sorted) as Hnn.
  assert (Hcur : 1 <= Zsum (rounded_sizes sorted)).
  { rewrite Hsplit. unfold rounded_sizes. rewrite fmap_app, fmap_cons, Zsum_app, Zsum_cons.
    pose proof (rounded_pos (wb_area.size (int_regs_area b))).
    pose proof (Zsum_nonneg _ (rounded_sizes_nonneg l1)).
    pose proof (Zsum_nonneg _ (rounded_sizes_nonneg l2)).
    unfold rounded_sizes in *. lia. }
  exists (rounded (Zsum (rounded_sizes sorted))),
    (place_area (int_regs_area b) (0 + Zsum (take (length l1) (rounded_sizes sorted)))).
  assert (Hat : wb_block.areas b' !! length l1 =
                Some (place_area (int_regs_area b)
                        (0 + Zsum (take (length l1) (rounded_sizes sorted))))).
  { rewrite Hareas, placed_lookup, Hsplit.
    by rewrite lookup_app_r, Nat.sub_diag by lia. }
  assert (Htake : take (length l1) (rounded_sizes sorted) = rounded_sizes l1).
  { rewrite Hsplit. unfold rounded_sizes. rewrite fmap_app.
    rewrite take_app_length'; [done|]. by rewrite length_fmap. }
  split; [done|]. split; [|split; [|split; [|split; [|split]]]].
  - intros ar Har. rewrite Hareas in Har.
    apply list_elem_of_lookup in Har as (i & Hi).
    rewrite placed_lookup in Hi.
    destruct (sorted !! i) as [a|] eqn:Hai; [|done]. injection Hi as <-.
    cbn [place_area wb_area.adr wb_area.total_size].
    assert (Hri : rounded_sizes sorted !! i = Some (rounded (wb_area.size a))).
    { by rewrite rounded_sizes_lookup, Hai. }
    pose proof (Zsum_take_S _ _ _ Hri) as HS.
    pose proof (Zsum_take_le (rounded_sizes sorted) (S i) Hnn) as Hle.
    assert (H0 : 0 <= Zsum (take i (rounded_sizes sorted)))
      by (by apply Zsum_nonneg, Forall_take).
    pose proof (rounded_pos (wb_area.size a)) as Hpos.
    pose proof (rounded_ge _ Hcur).
    change (Z.shiftl 1 (bit_length (wb_area.size a - 1))) with (rounded (wb_area.size a)).
    lia.
  - by eapply list_elem_of_lookup_2.
  - done.
  - simpl. by rewrite Hfree.
  - rewrite Htake, Hrb, Hsplit.
    by rewrite placed_reg_base_split by done.
  - intros i j ai aj Hi Hj Hoi Hoj.
    assert (Hpos : forall (m : nat) am, wb_block.areas b' !! m = Some am ->
              wb_area.obj am = None -> m = length l1).
    { intros m am Hm Hom. rewrite Hareas, placed_lookup, Hsplit in Hm.
      destruct ((l1 ++ int_regs_area b :: l2) !! m) as [a|] eqn:Ham; [|done].
      injection Hm as <-. cbn [place_area wb_area.obj] in Hom.
      destruct (Nat.lt_trichotomy m (length l1)) as [Hlt|[->|Hgt]]; [|done|].
      - rewrite lookup_app_l in Ham by done.
        rewrite Forall_forall in Hl1. exfalso. apply (Hl1 a); [|done].
        by eapply list_elem_of_lookup_2.
      - rewrite lookup_app_r in Ham by lia.
        destruct (m - length l1)%nat as [|d] eqn:Hd; [lia|].
        cbn in Ham. rewrite Forall_forall in Hl2. exfalso. apply (Hl2 a); [|done].
        by eapply list_elem_of_lookup_2. }
    rewrite (Hpos i ai Hi Hoi), (Hpos j aj Hj Hoj). done.
Qed.

(** In the block [T] the local registers follow the larger area of [A]:
    [reg_base] is 16 and the span is 32. *)
Lemma analyze_span_covers_witness :
  exists b' s ar0,
    blocks ex_after_top !! "T" = Some b' /\
    wb_block.addr_size b' = Some s /\ s = 32 /\
    ar0 ∈ wb_block.areas b' /\ wb_area.obj ar0 = None /\
    wb_block.reg_base b' = Some (wb_area.adr ar0) /\
    wb_block.reg_base b' = Some 16.
Proof.
  destruct (blocks ex_after_top !! "T") as [b'|] eqn:Hb; [|by vm_compute in Hb].
  assert (Hfresh : registry_fresh ex_registry).
  { apply registry_built_fresh, registry_built_ok_built, ex_registry_built_ok. }
  assert (Hne : wb_block.areas b' <> []).
  { vm_compute in Hb. injection Hb as <-. done. }
  destruct (analyze_span_covers ex_registry 6 "T" [] ex_after_top Hfresh
              ex_after_top_run "T" b' Hb Hne)
    as (s & ar0 & Hs & _ & Hin & Hobj & _ & Hrb & _).
  exists b', s, ar0. split; [done|]. split; [done|].
  split. { vm_compute in Hb. injection Hb as <-. vm_compute in Hs. congruence. }
  split; [done|]. split; [done|]. split; [done|].
  vm_compute in Hb. injection Hb as <-. reflexivity.
Defined.

(** ** What the constructor of a block accepts *)

Lemma wb_reg_init_cases (tag : string) (el : xml_reg) (adr : Z) :
  (exists r, wb_reg_init tag el adr = Ok r /\ reg_fits el) \/
  (wb_reg_init tag el adr = Raise (width_error (xr_name el)) /\ ~ reg_fits el).
Proof.
  unfold wb_reg_init, reg_fits, field_widths.
  pose proof (wb_reg_read_fields_spec (xr_name el) (xr_fields el) [] 0) as H.
  destruct (wb_reg_read_fields (xr_name el) (xr_fields el) [] 0) as [[fields fb]|e].
  - left. destruct H as (Hle & _). eexists. split; [reflexivity|].
    intros k Hk. specialize (Hle (S k) ltac:(lia) ltac:(lia)). lia.
  - right. destruct H as (-> & k & Hk & Hsum). split; [done|].
    intros Hfit. specialize (Hfit k Hk). lia.
Qed.

Lemma wb_block_read_children_ok (children : list xml_child) :
  Forall child_ok children ->
  forall regs free subblks,
  exists r, wb_block_read_children children regs free subblks = Ok r.
Proof.
  induction 1 as [|c children Hc _ IH]; intros regs free subblks; [by eexists|].
  destruct c as [el|el|el|tag]; cbn [wb_block_read_children]; [| |apply IH|done].
  - destruct (wb_reg_init_cases "creg" el free) as [(r & -> & _)|(_ & Hno)]; [|done].
    cbn [mbind result_bind]. apply IH.
  - destruct (wb_reg_init_cases "sreg" el free) as [(r & -> & _)|(_ & Hno)]; [|done].
    cbn [mbind result_bind]. apply IH.
Qed.

Lemma wb_block_read_children_error (pre post : list xml_child) (c : xml_child) :
  Forall child_ok pre -> ~ child_ok c ->
  forall regs free subblks,
  wb_block_read_children (pre ++ c :: post) regs free subblks = Raise (child_error c).
Proof.
  intros Hpre Hc. induction Hpre as [|x pre Hx _ IH]; intros regs free subblks.
  - destruct c as [el|el|el|tag]; cbn [app wb_block_read_children child_error];
      [| |done|done].
    + by destruct (wb_reg_init_cases "creg" el free) as [(r & _ & Hfit)|(-> & _)].
    + by destruct (wb_reg_init_cases "sreg" el free) as [(r & _ & Hfit)|(-> & _)].
  - destruct x as [el|el|el|tag]; cbn [app wb_block_read_children]; [| |apply IH|done].
    + destruct (wb_reg_init_cases "creg" el free) as [(r & -> & _)|(_ & Hno)]; [|done].
      cbn [mbind result_bind]. apply IH.
    + destruct (wb_reg_init_cases "sreg" el free) as [(r & -> & _)|(_ & Hno)]; [|done].
      cbn [mbind result_bind]. apply IH.
Qed.

Lemma wb_block_read_children_inv (children : list xml_child) :
  forall regs free subblks r,
  wb_block_read_children children regs free subblks = Ok r -> Forall child_ok children.
Proof.
  induction children as [|c children IH]; intros regs free subblks r H; [constructor|].
  destruct c as [el|el|el|tag]; cbn [wb_block_read_children] in H; [| | |done].
  - destruct (wb_reg_init_cases "creg" el free) as [(r0 & Hr & Hfit)|(Hr & _)];
      rewrite Hr in H; [|done].
    constructor; [done|]. by eapply IH.
  - destruct (wb_reg_init_cases "sreg" el free) as [(r0 & Hr & Hfit)|(Hr & _)];
      rewrite Hr in H; [|done].
    constructor; [done|]. by eapply IH.
  - constructor; [done|]. by eapply IH.
Qed.

(** X8: the constructor of a block returns exactly when every child is a
    register whose fields fit 32 bits or a sub-block reference; otherwise it
    raises at the first child that is not: the width error of that
    register, or, for a child of another kind, the [AttributeError] of
    [el.name], which is evaluated for the message of the exception that the
    code means to raise. *)
Theorem wb_block_init_outcome (el : xml_block) :
  ((exists b, wb_block_init el = Ok b) <-> Forall child_ok (xb_children el)) /\
  (forall pre c post, xb_children el = pre ++ c :: post ->
     Forall child_ok pre -> ~ child_ok c ->
     wb_block_init el = Raise (child_error c)).
Proof.
  unfold wb_block_init. split; [split|].
  - intros (b & Hb).
    destruct (wb_block_read_children (xb_children el) [] 2 []) as [r|e] eqn:Hr; [|done].
    by eapply wb_block_read_children_inv.
  - intros Hok.
    destruct (wb_block_read_children_ok _ Hok [] 2 []) as ([[regs free] subblks] & ->).
    cbn [mbind result_bind]. by eexists.
  - intros pre c post -> Hpre Hc.
    by rewrite (wb_block_read_children_error pre post c Hpre Hc).
Qed.

(** The block [U]: the register [u] is read, the child of the unknown kind
    stops the constructor before the register that is too wide is seen. *)
Lemma wb_block_init_outcome_witness :
  wb_block_init ex_unknown_child = Raise (AttributeError "name").
Proof.
  apply (proj2 (wb_block_init_outcome ex_unknown_child)
           [El_creg (plain_reg "u" None)] (El_other "comment")
           [El_creg {| xr_name := "wide"; xr_reps := None; xr_type := None;
                       xr_ack := None; xr_stb := None;
                       xr_fields := [ {| xf_name := "w"; xf_width := 33;
                                         xf_type := None |} ] |}]).
  - reflexivity.
  - apply Forall_cons_2; [|apply Forall_nil_2]. intros k Hk. simpl in Hk. lia.
  - intros [].
Defined.

(** ** The text [add_templ] appends *)

Lemma indent_lines_nil_pad (start : bool) (value : string) :
  indent_lines "" start value = value.
Proof.
  revert start. induction value as [|c value IH]; intros start; [done|].
  cbn [indent_lines]. rewrite IH. by destruct start.
Qed.

Lemma re_findall_lines_last (cur value : string) :
  exists l, re_findall_lines cur value = l ++ [""%string].
Proof.
  revert cur. induction value as [|c value IH]; intros cur.
  - cbn [re_findall_lines]. by eexists.
  - cbn [re_findall_lines]. destruct (Ascii.eqb c (ascii_of_nat 10)).
    + destruct (IH ""%string) as (l & ->). by exists ((cur +:+ nl) :: l).
    + apply IH.
Qed.

Lemma append_nonempty_r (s : string) (c : ascii) :
  String.eqb (s +:+ String c "") "" = false.
Proof. by destruct s. Qed.

Lemma foldl_lines_acc (pad : string) (lines : list string) :
  forall acc,
  foldl (fun acc ln => if String.eqb ln "" then acc else acc +:+ (pad +:+ ln)) acc lines =
  acc +:+ foldl (fun acc ln => if String.eqb ln "" then acc else acc +:+ (pad +:+ ln))
            ""%string lines.
Proof.
  induction lines as [|ln lines IH]; intros acc.
  - simpl. by rewrite append_nil_r.
  - cbn [foldl]. destruct (String.eqb ln ""); [apply IH|].
    rewrite (IH (acc +:+ (pad +:+ ln))), (IH (""%string +:+ (pad +:+ ln))).
    change (""%string +:+ (pad +:+ ln)) with (pad +:+ ln). by rewrite append_assoc.
Qed.

(** The lines found in [value] after the text [cur] of a line that has
    begun, each with its pad. *)
Lemma templ_text_cur (pad : string) (value : string) :
  forall cur,
  foldl (fun acc ln => if String.eqb ln "" then acc else acc +:+ (pad +:+ ln))
        ""%string (removelast (re_findall_lines cur value)) =
  if String.eqb cur "" then indent_lines pad true value
  else pad +:+ cur +:+ indent_lines pad false value.
Proof.
  induction value as [|c value IH]; intros cur.
  - cbn [re_findall_lines indent_lines]. destruct (String.eqb cur "") eqn:Hcur; [done|].
    cbn [app removelast foldl]. rewrite Hcur. by rewrite append_nil_r.
  - cbn [re_findall_lines indent_lines].
    destruct (Ascii.eqb c (ascii_of_nat 10)) eqn:Hc.
    + apply Ascii.eqb_eq in Hc as ->.
      destruct (re_findall_lines_last "" value) as (l & Hl).
      assert (Hrm : removelast ((cur +:+ nl) :: re_findall_lines "" value) =
                    (cur +:+ nl) :: removelast (re_findall_lines "" value)).
      { rewrite Hl. by destruct l. }
      rewrite Hrm. cbn [foldl].
      pose proof (append_nonempty_r cur (ascii_of_nat 10)) as Hne.
      change (String (ascii_of_nat 10) "") with nl in Hne. rewrite Hne.
      rewrite foldl_lines_acc, (IH ""%string). cbn [String.eqb].
      change (""%string +:+ (pad +:+ cur +:+ nl)) with (pad +:+ cur +:+ nl).
      destruct (String.eqb cur "") eqn:Hcur.
      * apply String.eqb_eq in Hcur as ->.
        change (""%string +:+ nl) with nl.
        change (pad +:+ String (ascii_of_nat 10) (indent_lines pad true value))
          with (pad +:+ (nl +:+ indent_lines pad true value)).
        by rewrite !append_assoc.
      * change (""%string +:+ String (ascii_of_nat 10) (indent_lines pad true value))
          with (nl +:+ indent_lines pad true value).
        by rewrite !append_assoc.
    + rewrite (IH (cur +:+ String c "")), (append_nonempty_r cur c).
      destruct (String.eqb cur "") eqn:Hcur.
      * apply String.eqb_eq in Hcur as ->.
        change (""%string +:+ String c "") with (String c "").
        change (pad +:+ String c "" +:+ indent_lines pad false value)
          with (pad +:+ (String c "" +:+ indent_lines pad false value)). done.
      * change (""%string +:+ String c (indent_lines pad false value))
          with (String c "" +:+ indent_lines pad false value).
        by rewrite !append_assoc.
Qed.

(** X9: [add_templ] leaves every other entry alone and puts, after the
    text the entry held (the entry is created when it was missing, also for
    an empty value), the value with [indent] blanks before every line of it,
    a line running up to and including its newline, so also before a line
    that holds the newline alone; with no indentation the value is appended
    as it is. *)
Theorem add_templ_text (self : wb_block.t) (key value : string) (indent : Z) :
  wb_block.templ_dict (add_templ self key value indent) !! key =
    Some (default ""%string (wb_block.templ_dict self !! key) +:+
          indent_lines (py_repeat indent " ") true value) /\
  (forall k, k <> key ->
     wb_block.templ_dict (add_templ self key value indent) !! k =
     wb_block.templ_dict self !! k) /\
  (indent <= 0 ->
   wb_block.templ_dict (add_templ self key value indent) !! key =
     Some (default ""%string (wb_block.templ_dict self !! key) +:+ value)).
Proof.
  assert (Htext : templ_text indent value = indent_lines (py_repeat indent " ") true value).
  { unfold templ_text, templ_lines. by rewrite (templ_text_cur _ value ""%string). }
  rewrite add_templ_lookup_eq, Htext. split; [done|]. split.
  - intros k Hk. by apply add_templ_lookup_ne.
  - intros Hle. unfold py_repeat. replace (Z.to_nat indent) with 0%nat by lia.
    cbn [replicate String.concat]. by rewrite indent_lines_nil_pad.
Qed.

(** Two lines and a line that holds only its newline, indented by two, then
    a value appended as it is. *)
Lemma add_templ_text_witness :
  wb_block.templ_dict (add_templ ex_bare "k" ("a" +:+ nl +:+ nl +:+ "b") 2) !! "k" =
    Some ("  a" +:+ nl +:+ "  " +:+ nl +:+ "  b")%string /\
  0 <= 0 /\
  wb_block.templ_dict
    (add_templ (add_templ ex_bare "k" "a" 2) "k" ("c" +:+ nl) 0) !! "k" =
    Some (default ""%string (wb_block.templ_dict (add_templ ex_bare "k" "a" 2) !! "k") +:+
          ("c" +:+ nl)).
Proof.
  split; [|split].
  - exact (proj1 (add_templ_text ex_bare "k" ("a" +:+ nl +:+ nl +:+ "b") 2)).
  - lia.
  - apply (proj2 (proj2 (add_templ_text (add_templ ex_bare "k" "a" 2) "k" ("c" +:+ nl) 0))).
    lia.
Defined.

(*MARK-THMS*)
